(** * Behavioural decision funnel and scoring engine of the reading-insights app

    A shallow embedding of the decision funnel of [app.js] (Phase 5:
    [decisionState], [initDecisionEngine], the step and back button
    handlers, [applyTimeFilter], [deriveBehaviourProfile],
    [relaxConstraint], [runRecommendation], the three scoring functions and
    [resetDecisionFlow]) together with the properties the specification
    states about them.

    Conventions of the embedding.
    - A JavaScript number that holds a page count, a year, a step index or a
      millisecond timestamp is a [Z]; a rating, a bonus or a score is a
      rational [Q].  The scoring functions are embedded twice: with exact
      arithmetic, in which the properties of the funnel, of the bounds of
      the score and of the metrics are stated, and in the module [Binary64]
      with the rounding of IEEE 754 binary64 written out, in which the
      properties that depend on the rounding are stated (the near-tie rule
      and the risk window).  [NaN] only arises from an unparseable date and
      is modelled by [None].
    - A value that can be [null] or [undefined] is an [option]; the strings
      of the DOM ([data-step], [data-value]) are [string]s.
    - The global [decisionState] is threaded explicitly: each handler is a
      function from the state before to the state after.
    - [new Date()] and [Math.random()] are inputs of the functions that call
      them. *)

From Stdlib Require Import ZArith QArith Qabs Qround Qpower List String Bool Lia Lqa.
From Stdlib Require Import Permutation Sorted Morphisms.
Import ListNotations.

Local Open Scope string_scope.
Local Open Scope Z_scope.

(** ** JavaScript idioms *)

(** Truthiness of a string: only the empty string is falsy. *)
Definition truthy (s : string) : bool := negb (String.eqb s "").

(** Truthiness of a string that may be [null]. *)
Definition truthyO (o : option string) : bool :=
  match o with
  | Some s => truthy s
  | None => false
  end.

(** [x || 0] on a number: a falsy number (zero) is replaced by [0]. *)
Definition orZero (x : Q) : Q := if Qeq_bool x 0 then 0%Q else x.

(** [x < y] and [x >= y] on numbers that are not [NaN]. *)
Definition Qlt_bool (x y : Q) : bool := negb (Qle_bool y x).
Definition Qge_bool (x y : Q) : bool := Qle_bool y x.

(** [String === String]. *)
Definition streq (a b : string) : bool := String.eqb a b.

(** ** Data model *)

(** The book object built by [normaliseBook]. *)
Record Book := mkBook {
  title : option string;
  author : option string;
  pages : Z;
  publicationYear : Z;
  averageRating : Q;
  userRating : Q;
  dateRead : option string;
  dateAdded : option string;
  shelves : option string;
  isbn : option string
}.

(** The object returned by [deriveBehaviourProfile]; [avgRating] is
    [undefined] in the profile of a user with no read book. *)
Record Profile := mkProfile {
  dominantLength : option string;
  dominantEra : option string;
  topAuthors : list string;
  avgRating : option Q
}.

(** [decisionState.selections]. *)
Record Selections := mkSelections {
  timeInvestment : string;
  behaviourPreference : string;
  backlogPreference : string;
  riskPreference : string
}.

(** The global [decisionState]. *)
Record DecisionState := mkState {
  currentStep : Z;
  selections : Selections;
  candidates : list Book;
  allBooks : list Book;
  behaviourProfile : option Profile
}.

Definition emptySelections : Selections :=
  {| timeInvestment := ""; behaviourPreference := "";
     backlogPreference := ""; riskPreference := "" |}.

(** ** Step 1: the time filter *)

(** [applyTimeFilter(books, selection)]. *)
Definition applyTimeFilter (books : list Book) (selection : string) : list Book :=
  if negb (truthy selection) || streq selection "any" then books
  else
    filter (fun book =>
      if pages book <=? 0 then streq selection "any"
      else if streq selection "quick" then pages book <? 300
      else if streq selection "moderate" then (300 <=? pages book) && (pages book <=? 500)
      else if streq selection "long" then 500 <? pages book
      else true) books.

(** ** The funnel state machine *)

(** [decisionState.selections[step] = value].  The four keys below are the
    only properties of [selections] the program ever reads; under another
    key the assignment creates a property that is never looked at. *)
Definition setSelection (sel : Selections) (step value : string) : Selections :=
  if streq step "timeInvestment" then
    {| timeInvestment := value;
       behaviourPreference := behaviourPreference sel;
       backlogPreference := backlogPreference sel;
       riskPreference := riskPreference sel |}
  else if streq step "behaviourPreference" then
    {| timeInvestment := timeInvestment sel;
       behaviourPreference := value;
       backlogPreference := backlogPreference sel;
       riskPreference := riskPreference sel |}
  else if streq step "backlogPreference" then
    {| timeInvestment := timeInvestment sel;
       behaviourPreference := behaviourPreference sel;
       backlogPreference := value;
       riskPreference := riskPreference sel |}
  else if streq step "riskPreference" then
    {| timeInvestment := timeInvestment sel;
       behaviourPreference := behaviourPreference sel;
       backlogPreference := backlogPreference sel;
       riskPreference := value |}
  else sel.

Definition withStep (s : DecisionState) (n : Z) : DecisionState :=
  {| currentStep := n; selections := selections s; candidates := candidates s;
     allBooks := allBooks s; behaviourProfile := behaviourProfile s |}.

Definition withSelections (s : DecisionState) (sel : Selections) : DecisionState :=
  {| currentStep := currentStep s; selections := sel; candidates := candidates s;
     allBooks := allBooks s; behaviourProfile := behaviourProfile s |}.

Definition withCandidates (s : DecisionState) (c : list Book) : DecisionState :=
  {| currentStep := currentStep s; selections := selections s; candidates := c;
     allBooks := allBooks s; behaviourProfile := behaviourProfile s |}.

(** [advanceStep(stepNumber)]: besides the DOM, it moves the step pointer. *)
Definition advanceStep (s : DecisionState) (stepNumber : Z) : DecisionState :=
  withStep s stepNumber.

(** What a click on a step button leaves on the page. *)
Inductive Outcome :=
| Advanced (stepNumber : Z)   (* [advanceStep] showed the next step *)
| NoCandidates                (* [showNoCandidatesMessage], with the relax button *)
| Recommended                 (* [runRecommendation] rendered the result *)
| Stayed.                     (* no branch of the handler applied *)

(** The click listener of [setupStepButtons], for a button whose
    [data-step] is [step] and whose [data-value] is [value]. *)
Definition stepButtonClick (s : DecisionState) (step value : string)
  : DecisionState * Outcome :=
  let s := withSelections s (setSelection (selections s) step value) in
  if currentStep s =? 1 then
    let filtered := applyTimeFilter (candidates s) value in
    if (List.length filtered =? 0)%nat then (s, NoCandidates)
    else (advanceStep (withCandidates s filtered) 2, Advanced 2)
  else if currentStep s =? 2 then (advanceStep s 3, Advanced 3)
  else if currentStep s =? 3 then (advanceStep s 4, Advanced 4)
  else if currentStep s =? 4 then (s, Recommended)
  else (s, Stayed).

(** The click listener of [setupBackButtons], for a button whose
    [data-step] parses to [targetStep]. *)
Definition backButtonClick (s : DecisionState) (targetStep : Z) : DecisionState :=
  let cur := currentStep s in
  let sel := selections s in
  let sel :=
    if targetStep <? cur then
      let sel := if 3 <? cur then setSelection sel "riskPreference" "" else sel in
      let sel := if 2 <? cur then setSelection sel "backlogPreference" "" else sel in
      let sel := if 1 <? cur then setSelection sel "behaviourPreference" "" else sel in
      sel
    else sel in
  let s := withSelections s sel in
  let s :=
    if targetStep =? 1 then
      withSelections (withCandidates s (allBooks s))
                     (setSelection (selections s) "timeInvestment" "")
    else s in
  advanceStep s targetStep.

(** [relaxConstraint()]. *)
Definition relaxConstraint (s : DecisionState) : DecisionState :=
  let s := withCandidates s (allBooks s) in
  if currentStep s =? 2 then
    withSelections s (setSelection (selections s) "timeInvestment" "")
  else s.

(** [resetDecisionFlow()]. *)
Definition resetDecisionFlow (s : DecisionState) : DecisionState :=
  {| currentStep := 1;
     selections := emptySelections;
     candidates := allBooks s;
     allBooks := allBooks s;
     behaviourProfile := behaviourProfile s |}.

(** ** Sorting *)

(** [Array.prototype.sort(cmp)] is a stable sort: [x] ends up after [y]
    only when [cmp(x, y) > 0] or when it already followed [y] and
    [cmp(x, y) = 0].  With a comparator that is a difference of numbers the
    result of a stable sort is determined by the input; it is computed here
    by insertion from the right. *)
Fixpoint insertBy {A} (cmp : A -> A -> Q) (x : A) (l : list A) : list A :=
  match l with
  | [] => [x]
  | y :: ys => if Qlt_bool 0 (cmp x y) then y :: insertBy cmp x ys else x :: y :: ys
  end.

Fixpoint jsSort {A} (cmp : A -> A -> Q) (l : list A) : list A :=
  match l with
  | [] => []
  | x :: xs => insertBy cmp x (jsSort cmp xs)
  end.

(** [arr[i]] for a number [i] that is an integer: [undefined] out of range. *)
Definition arrayAt {A} (l : list A) (i : Z) : option A :=
  if i <? 0 then None else nth_error l (Z.to_nat i).

(** ** The behaviour profile *)

(** A counter object: its keys in insertion order, as [Object.entries]
    lists them.  [bump key o] is [o[key]++], and is also
    [o[key] = (o[key] || 0) + 1] since a missing key is appended with
    count 1. *)
Fixpoint bump (key : string) (o : list (string * Z)) : list (string * Z) :=
  match o with
  | [] => [(key, 1)]
  | (k, v) :: rest => if streq k key then (k, v + 1) :: rest else (k, v) :: bump key rest
  end.

(** [pages < 300 ? 'quick' : pages <= 500 ? 'moderate' : 'long']. *)
Definition lengthOf (pages : Z) : string :=
  if pages <? 300 then "quick" else if pages <=? 500 then "moderate" else "long".

(** [year < 1950 ? 'classic' : year <= 1999 ? 'late20th' : 'modern']. *)
Definition eraOf (year : Z) : string :=
  if year <? 1950 then "classic" else if year <=? 1999 then "late20th" else "modern".

(** The comparator [(a, b) => b[1] - a[1]] on the entries of a counter. *)
Definition byCountDesc (a b : string * Z) : Q := inject_Z (snd b - snd a).

(** [Object.entries(counts).sort((a, b) => b[1] - a[1])[0][0]]. *)
Definition topKey (counts : list (string * Z)) : option string :=
  match jsSort byCountDesc counts with
  | (k, _) :: _ => Some k
  | [] => None
  end.

(** [average(arr)], with the exact sum and quotient. *)
Definition average (arr : list Q) : Q :=
  if (List.length arr =? 0)%nat then 0%Q
  else (fold_left Qplus arr 0 / inject_Z (Z.of_nat (List.length arr)))%Q.

Definition lengthCountsOf (readBooks : list Book) : list (string * Z) :=
  fold_left (fun counts book =>
               if 0 <? pages book then bump (lengthOf (pages book)) counts else counts)
            readBooks [("quick", 0); ("moderate", 0); ("long", 0)].

Definition eraCountsOf (readBooks : list Book) : list (string * Z) :=
  fold_left (fun counts book =>
               if 0 <? publicationYear book
               then bump (eraOf (publicationYear book)) counts else counts)
            readBooks [("classic", 0); ("late20th", 0); ("modern", 0)].

Definition authorCountsOf (readBooks : list Book) : list (string * Z) :=
  fold_left (fun counts book =>
               match author book with
               | Some a => if truthy a then bump a counts else counts
               | None => counts
               end)
            readBooks [].

Definition isRead (b : Book) : bool :=
  match dateRead b with Some _ => true | None => false end.

(** [deriveBehaviourProfile()], with the global [books] as its argument. *)
Definition deriveBehaviourProfile (books : list Book) : Profile :=
  let readBooks := filter isRead books in
  if (List.length readBooks =? 0)%nat then
    {| dominantLength := None; dominantEra := None; topAuthors := [];
       avgRating := None |}
  else
    {| dominantLength := topKey (lengthCountsOf readBooks);
       dominantEra := topKey (eraCountsOf readBooks);
       topAuthors :=
         map fst (firstn 5 (jsSort byCountDesc (authorCountsOf readBooks)));
       avgRating :=
         Some (average (filter (fun r => Qlt_bool 0 r)
                               (map averageRating readBooks))) |}.

(** [initDecisionEngine(wantToReadBooks)], with the global [books]: the
    state it leaves.  The listeners it registers are those of [dispatch]. *)
Definition initDecisionEngine (books wantToReadBooks : list Book) : DecisionState :=
  {| currentStep := 1;
     selections := emptySelections;
     candidates := wantToReadBooks;
     allBooks := wantToReadBooks;
     behaviourProfile := Some (deriveBehaviourProfile books) |}.

(** ** The scoring engine *)

(** [profile.topAuthors.includes(book.author)]; a [null] author is in no
    list of names. *)
Definition includesAuthor (authors : list string) (a : option string) : bool :=
  match a with
  | Some name => existsb (streq name) authors
  | None => false
  end.

(** [bucket === dominant], where [dominant] may be [null]. *)
Definition sameAs (bucket : string) (dominant : option string) : bool :=
  match dominant with
  | Some d => streq bucket d
  | None => false
  end.

(** [applyBehaviourScoring(book, profile, preference)]. *)
Definition applyBehaviourScoring (book : Book) (profile : Profile) (preference : string) : Q :=
  if negb (truthyO (dominantLength profile)) && negb (truthyO (dominantEra profile))
  then 0%Q
  else
    let bonus := 0%Q in
    if streq preference "familiar" then
      let bonus :=
        if truthyO (dominantLength profile) && (0 <? pages book) then
          if sameAs (lengthOf (pages book)) (dominantLength profile)
          then (bonus + 1.5)%Q else bonus
        else bonus in
      let bonus :=
        if truthyO (dominantEra profile) && (0 <? publicationYear book) then
          if sameAs (eraOf (publicationYear book)) (dominantEra profile)
          then (bonus + 1.5)%Q else bonus
        else bonus in
      let bonus :=
        if includesAuthor (topAuthors profile) (author book)
        then (bonus + 0.5)%Q else bonus in
      bonus
    else if streq preference "different" then
      let bonus :=
        if truthyO (dominantLength profile) && (0 <? pages book) then
          if negb (sameAs (lengthOf (pages book)) (dominantLength profile))
          then (bonus + 1)%Q else bonus
        else bonus in
      let bonus :=
        if truthyO (dominantEra profile) && (0 <? publicationYear book) then
          if negb (sameAs (eraOf (publicationYear book)) (dominantEra profile))
          then (bonus + 1)%Q else bonus
        else bonus in
      let bonus :=
        if negb (includesAuthor (topAuthors profile) (author book))
        then (bonus + 0.5)%Q else bonus in
      bonus
    else bonus.

(** [1000 * 60 * 60 * 24 * 365], the milliseconds of a 365-day year. *)
Definition msPerYear : Z := 1000 * 60 * 60 * 24 * 365.

(** [(new Date() - new Date(dateAdded)) / msPerYear] for two timestamps
    in milliseconds. *)
Definition yearsBetween (now added : Z) : Q :=
  (inject_Z (now - added) / inject_Z msPerYear)%Q.

(** [applyBacklogScoring(book, preference)].  [dateMs] is the timestamp
    [new Date(s)] holds for the string [s], [None] for an invalid date
    (whose difference with [now] is [NaN], for which every comparison of the
    function is false); [now] is the timestamp of [new Date()]. *)
Definition applyBacklogScoring (dateMs : string -> option Z) (now : Z)
    (book : Book) (preference : string) : Q :=
  if negb (truthyO (dateAdded book)) then 0%Q
  else
    match dateAdded book with
    | None => 0%Q
    | Some d =>
        match dateMs d with
        | None => 0%Q
        | Some added =>
            let yearsSinceAdded := yearsBetween now added in
            if streq preference "old" then
              if Qge_bool yearsSinceAdded 3 then 2%Q
              else if Qge_bool yearsSinceAdded 1 then 1%Q
              else 0%Q
            else if streq preference "new" then
              if Qlt_bool yearsSinceAdded 1 then 2%Q
              else if Qlt_bool yearsSinceAdded 3 then 1%Q
              else 0%Q
            else 0%Q
        end
    end.

(** [applyRiskScoring(book, preference, profile)], in exact arithmetic;
    [profile] may be [null] and its [avgRating] [undefined], and then
    [profile.avgRating > 0] is false.  [Binary64.applyRiskScoring] is the
    function with the rounding of each operation. *)
Definition applyRiskScoring (book : Book) (preference : string)
    (profile : option Profile) : Q :=
  let rating := orZero (averageRating book) in
  if streq preference "safe" then (rating * 0.5)%Q
  else if streq preference "risky" then
    match profile with
    | Some p =>
        match avgRating p with
        | Some avg =>
            if Qlt_bool 0 avg then
              let distanceFromAvg := Qabs (rating - avg) in
              if Qlt_bool rating (avg * 1.1) && Qge_bool rating 3.7
                 && Qle_bool rating 4.1
              then (1.5 - distanceFromAvg * 0.3)%Q
              else 0%Q
            else 0%Q
        | None => 0%Q
        end
    | None => 0%Q
    end
  else 0%Q.

(** [calculateFinalScore(book)], reading the profile and the selections of
    the state, in exact arithmetic. *)
Definition calculateFinalScore (dateMs : string -> option Z) (now : Z)
    (s : DecisionState) (book : Book) : Q :=
  let score := orZero (averageRating book) in
  let profile := behaviourProfile s in
  let score :=
    match profile with
    | Some p =>
        if truthy (behaviourPreference (selections s))
        then (score + applyBehaviourScoring book p (behaviourPreference (selections s)))%Q
        else score
    | None => score
    end in
  let score :=
    if truthy (backlogPreference (selections s))
    then (score + applyBacklogScoring dateMs now book (backlogPreference (selections s)))%Q
    else score in
  let score :=
    if truthy (riskPreference (selections s))
    then (score + applyRiskScoring book (riskPreference (selections s)) profile)%Q
    else score in
  score.

(** An element of the array [scored]. *)
Record Scored := mkScored { book : Book; score : Q }.

(** The object handed to [renderRecommendation]. *)
Record Recommendation := mkRecommendation {
  recBook : Book;
  recScore : Q;
  totalCandidates : nat
}.

(** The comparator [(a, b) => b.score - a.score]. *)
Definition byScoreDesc (a b : Scored) : Q := (score b - score a)%Q.

(** [s.score >= winner.score - 0.5], in exact arithmetic;
    [Binary64.withinHalf] rounds the difference. *)
Definition withinHalf (winner s : Scored) : bool :=
  Qge_bool (score s) (score winner - 0.5)%Q.

(** [Math.floor(Math.random() * n)] for the random number [r], in exact
    arithmetic. *)
Definition randomIndex (r : Q) (n : nat) : Z :=
  Qfloor (r * inject_Z (Z.of_nat n))%Q.

(** The selection of the winner at the end of [runRecommendation]: the
    array [scored] is sorted, the winner is its first element, unless the
    second one is within 0.5 of it, in which case the winner is drawn with
    the random number [r] among those within 0.5. *)
Definition selectWinner (scored : list Scored) (r : Q) : option Scored :=
  match jsSort byScoreDesc scored with
  | [] => None
  | winner :: rest =>
      match rest with
      | second :: _ =>
          if withinHalf winner second then
            let candidates := filter (withinHalf winner) (winner :: rest) in
            arrayAt candidates (randomIndex r (List.length candidates))
          else Some winner
      | [] => Some winner
      end
  end.

(** [runRecommendation()]: [None] is the "No books match" message, and
    [r] is the value [Math.random()] returns if it is called. *)
Definition runRecommendation (dateMs : string -> option Z) (now : Z) (r : Q)
    (s : DecisionState) : option Recommendation :=
  if (List.length (candidates s) =? 0)%nat then None
  else
    let scored :=
      map (fun book => {| book := book; score := calculateFinalScore dateMs now s book |})
          (candidates s) in
    match selectWinner scored r with
    | Some winner =>
        Some {| recBook := book winner; recScore := score winner;
                totalCandidates := List.length scored |}
    | None => None
    end.

(** ** Binary64 arithmetic

    The numbers of JavaScript are IEEE 754 binary64 values.  Where the
    outcome of the program depends on the rounding of an operation (the
    near-tie test of [runRecommendation], its random index, the window of
    [applyRiskScoring]) the scoring functions are embedded a second time,
    with the rounding written out: a finite binary64 number is the rational it
    denotes, and an arithmetic operation is the exact operation followed by
    rounding to the nearest number with 53 significant bits and a last
    place of [2 ^ -1074] or more, a tie going to the even significand.
    The exponent has no upper bound here: a result of magnitude [2 ^ 1024]
    or more stands for the [Infinity] the program holds, which compares
    with every finite number in the same way.  [NaN] does not arise from
    finite ratings in these functions. *)
Module Binary64.

(** [2 ^ e]. *)
Definition pow2 (e : Z) : Q := (2 ^ e)%Q.

(** The binary exponent of a positive rational [x]:
    [2 ^ ilog2 x <= x < 2 ^ (ilog2 x + 1)]. *)
Definition ilog2 (x : Q) : Z :=
  let a := Z.log2 (Qnum x) - Z.log2 (Zpos (Qden x)) in
  if Qle_bool (pow2 a) x then a else a - 1.

(** The exponent of the last place of the binary64 numbers around [x]: 53
    significant bits, and never below [-1074] (the subnormal numbers). *)
Definition ulpExp (x : Q) : Z := Z.max (ilog2 x - 52) (-1074).

(** Rounding to the nearest integer, a tie going to the even one. *)
Definition rne (q : Q) : Z :=
  let f := Qfloor q in
  match (q - inject_Z f ?= 1 # 2)%Q with
  | Lt => f
  | Gt => f + 1
  | Eq => if Z.even f then f else f + 1
  end.

(** Rounding of a non-negative rational to binary64. *)
Definition roundPos (x : Q) : Q :=
  (inject_Z (rne (x / pow2 (ulpExp x))) * pow2 (ulpExp x))%Q.

(** Rounding to binary64, symmetric around zero. *)
Definition round64 (x : Q) : Q :=
  Qred (if Qlt_bool x 0 then - roundPos (- x) else roundPos x)%Q.

(** The rationals that are binary64 numbers. *)
Definition isDouble (x : Q) : bool := Qeq_bool (round64 x) x.

(** The number a decimal literal of the program denotes. *)
Definition double (literal : Q) : Q := round64 literal.

(** [x + y], [x - y] and [x * y]. *)
Definition fadd (x y : Q) : Q := round64 (x + y).
Definition fsub (x y : Q) : Q := round64 (x - y).
Definition fmul (x y : Q) : Q := round64 (x * y).

(** [x / y] for a divisor that is not zero. *)
Definition fdiv (x y : Q) : Q := round64 (x / y).

(** [average(arr)]: the sum is built by [reduce] from 0, each addition
    rounded, and divided by the length. *)
Definition average (arr : list Q) : Q :=
  if (List.length arr =? 0)%nat then 0%Q
  else fdiv (fold_left fadd arr 0%Q) (inject_Z (Z.of_nat (List.length arr))).

(** [applyBehaviourScoring(book, profile, preference)]. *)
Definition applyBehaviourScoring (book : Book) (profile : Profile) (preference : string) : Q :=
  if negb (truthyO (dominantLength profile)) && negb (truthyO (dominantEra profile))
  then 0%Q
  else
    let bonus := 0%Q in
    if streq preference "familiar" then
      let bonus :=
        if truthyO (dominantLength profile) && (0 <? pages book) then
          if sameAs (lengthOf (pages book)) (dominantLength profile)
          then fadd bonus 1.5 else bonus
        else bonus in
      let bonus :=
        if truthyO (dominantEra profile) && (0 <? publicationYear book) then
          if sameAs (eraOf (publicationYear book)) (dominantEra profile)
          then fadd bonus 1.5 else bonus
        else bonus in
      let bonus :=
        if includesAuthor (topAuthors profile) (author book)
        then fadd bonus 0.5 else bonus in
      bonus
    else if streq preference "different" then
      let bonus :=
        if truthyO (dominantLength profile) && (0 <? pages book) then
          if negb (sameAs (lengthOf (pages book)) (dominantLength profile))
          then fadd bonus 1 else bonus
        else bonus in
      let bonus :=
        if truthyO (dominantEra profile) && (0 <? publicationYear book) then
          if negb (sameAs (eraOf (publicationYear book)) (dominantEra profile))
          then fadd bonus 1 else bonus
        else bonus in
      let bonus :=
        if negb (includesAuthor (topAuthors profile) (author book))
        then fadd bonus 0.5 else bonus in
      bonus
    else bonus.

(** [(new Date() - new Date(dateAdded)) / (1000 * 60 * 60 * 24 * 365)] for
    two timestamps in milliseconds. *)
Definition yearsBetween (now added : Z) : Q :=
  fdiv (fsub (inject_Z now) (inject_Z added)) (inject_Z msPerYear).

(** [applyBacklogScoring(book, preference)], with [dateMs] and [now] as in
    the embedding above. *)
Definition applyBacklogScoring (dateMs : string -> option Z) (now : Z)
    (book : Book) (preference : string) : Q :=
  if negb (truthyO (dateAdded book)) then 0%Q
  else
    match dateAdded book with
    | None => 0%Q
    | Some d =>
        match dateMs d with
        | None => 0%Q
        | Some added =>
            let yearsSinceAdded := yearsBetween now added in
            if streq preference "old" then
              if Qge_bool yearsSinceAdded 3 then 2%Q
              else if Qge_bool yearsSinceAdded 1 then 1%Q
              else 0%Q
            else if streq preference "new" then
              if Qlt_bool yearsSinceAdded 1 then 2%Q
              else if Qlt_bool yearsSinceAdded 3 then 1%Q
              else 0%Q
            else 0%Q
        end
    end.

(** [applyRiskScoring(book, preference, profile)]. *)
Definition applyRiskScoring (book : Book) (preference : string)
    (profile : option Profile) : Q :=
  let rating := orZero (averageRating book) in
  if streq preference "safe" then fmul rating 0.5
  else if streq preference "risky" then
    match profile with
    | Some p =>
        match avgRating p with
        | Some avg =>
            if Qlt_bool 0 avg then
              let distanceFromAvg := Qabs (fsub rating avg) in
              if Qlt_bool rating (fmul avg (double 1.1)) && Qge_bool rating (double 3.7)
                 && Qle_bool rating (double 4.1)
              then fsub 1.5 (fmul distanceFromAvg (double 0.3))
              else 0%Q
            else 0%Q
        | None => 0%Q
        end
    | None => 0%Q
    end
  else 0%Q.

(** [calculateFinalScore(book)]: every [score += bonus] rounds. *)
Definition calculateFinalScore (dateMs : string -> option Z) (now : Z)
    (s : DecisionState) (book : Book) : Q :=
  let score := orZero (averageRating book) in
  let profile := behaviourProfile s in
  let score :=
    match profile with
    | Some p =>
        if truthy (behaviourPreference (selections s))
        then fadd score (applyBehaviourScoring book p (behaviourPreference (selections s)))
        else score
    | None => score
    end in
  let score :=
    if truthy (backlogPreference (selections s))
    then fadd score (applyBacklogScoring dateMs now book (backlogPreference (selections s)))
    else score in
  let score :=
    if truthy (riskPreference (selections s))
    then fadd score (applyRiskScoring book (riskPreference (selections s)) profile)
    else score in
  score.

(** The comparator [(a, b) => b.score - a.score]. *)
Definition byScoreDesc (a b : Scored) : Q := fsub (score b) (score a).

(** [s.score >= winner.score - 0.5]. *)
Definition withinHalf (winner s : Scored) : bool :=
  Qge_bool (score s) (fsub (score winner) 0.5).

(** [Math.floor(Math.random() * n)] for the random number [r]. *)
Definition randomIndex (r : Q) (n : nat) : Z :=
  Qfloor (fmul r (inject_Z (Z.of_nat n))).

(** The selection of the winner at the end of [runRecommendation]. *)
Definition selectWinner (scored : list Scored) (r : Q) : option Scored :=
  match jsSort byScoreDesc scored with
  | [] => None
  | winner :: rest =>
      match rest with
      | second :: _ =>
          if withinHalf winner second then
            let candidates := filter (withinHalf winner) (winner :: rest) in
            arrayAt candidates (randomIndex r (List.length candidates))
          else Some winner
      | [] => Some winner
      end
  end.

(** [runRecommendation()]: [None] is the "No books match" message, and
    [r] is the value [Math.random()] returns if it is called. *)
Definition runRecommendation (dateMs : string -> option Z) (now : Z) (r : Q)
    (s : DecisionState) : option Recommendation :=
  if (List.length (candidates s) =? 0)%nat then None
  else
    let scored :=
      map (fun book => {| book := book; score := calculateFinalScore dateMs now s book |})
          (candidates s) in
    match selectWinner scored r with
    | Some winner =>
        Some {| recBook := book winner; recScore := score winner;
                totalCandidates := List.length scored |}
    | None => None
    end.

End Binary64.

Arguments Binary64.round64 : simpl never.

(** ** Sessions *)

(** What the user can do to the funnel once it is initialised. *)
Inductive Event :=
| StepClick (step value : string)
| BackClick (targetStep : Z)
| RelaxClick
| StartOverClick.

Definition handle (s : DecisionState) (e : Event) : DecisionState :=
  match e with
  | StepClick step value => fst (stepButtonClick s step value)
  | BackClick targetStep => backButtonClick s targetStep
  | RelaxClick => relaxConstraint s
  | StartOverClick => resetDecisionFlow s
  end.

Definition run (s : DecisionState) (events : list Event) : DecisionState :=
  fold_left handle events s.

(** The key under which the buttons of a step store their value. *)
Definition stepKey (stepNumber : Z) : string :=
  if stepNumber =? 1 then "timeInvestment"
  else if stepNumber =? 2 then "behaviourPreference"
  else if stepNumber =? 3 then "backlogPreference"
  else "riskPreference".

(** The selection that belongs to a step. *)
Definition selectionAt (sel : Selections) (stepNumber : Z) : string :=
  if stepNumber =? 1 then timeInvestment sel
  else if stepNumber =? 2 then behaviourPreference sel
  else if stepNumber =? 3 then backlogPreference sel
  else riskPreference sel.

(** The events the page offers in a state: [showStep] hides every step but
    the current one, so only its buttons can be clicked, and they store
    their option under the key of their step; a back button leads to an
    earlier step. *)
Definition offered (s : DecisionState) (e : Event) : Prop :=
  match e with
  | StepClick step value =>
      1 <= currentStep s <= 4 /\ step = stepKey (currentStep s)
  | BackClick targetStep => 1 <= targetStep < currentStep s
  | RelaxClick => True
  | StartOverClick => True
  end.

(** The states a session reaches from [s0]. *)
Inductive reachable (s0 : DecisionState) : DecisionState -> Prop :=
| reach_start : reachable s0 s0
| reach_event s e : reachable s0 s -> offered s e -> reachable s0 (handle s e).

(** An order-preserving subsequence. *)
Inductive Subseq {A} : list A -> list A -> Prop :=
| subseq_nil : Subseq [] []
| subseq_skip x l1 l2 : Subseq l1 l2 -> Subseq l1 (x :: l2)
| subseq_keep x l1 l2 : Subseq l1 l2 -> Subseq (x :: l1) (x :: l2).

(** A book with the given page count, every other field empty. *)
Definition bookWithPages (t : string) (p : Z) : Book :=
  mkBook (Some t) None p 0 0 0 None None None None.

(** ** Vocabulary of the properties, and the inputs of the examples *)

(** Descending order of scores. *)
Definition scoreDesc (a b : Scored) : Prop := (score b <= score a)%Q.

(** The scored candidates of the examples, with the binary64 numbers of
    5.0, 4.6, 3.0, 4.4 and 3.9 as scores. *)
Definition scored50 : Scored := mkScored (bookWithPages "A" 0) (Binary64.double 5.0).
Definition scored46 : Scored := mkScored (bookWithPages "B" 0) (Binary64.double 4.6).
Definition scored30 : Scored := mkScored (bookWithPages "C" 0) (Binary64.double 3.0).
Definition scored44 : Scored := mkScored (bookWithPages "D" 0) (Binary64.double 4.4).
Definition scored39 : Scored := mkScored (bookWithPages "E" 0) (Binary64.double 3.9).

(** The forward clicks of a session, each with the key and the value of
    the button. *)
Definition forwardClicks (clicks : list (string * string)) : list Event :=
  map (fun c => StepClick (fst c) (snd c)) clicks.

(** The array [scored] that [runRecommendation] builds. *)
Definition scoredCandidates (dateMs : string -> option Z) (now : Z) (s : DecisionState)
  : list Scored :=
  map (fun book => {| book := book; score := calculateFinalScore dateMs now s book |})
      (candidates s).

(** In a session the selections of the steps after the current one are
    empty, and the step pointer is one of the four steps. *)
Definition laterEmpty (s : DecisionState) : Prop :=
  1 <= currentStep s <= 4 /\
  forall k, currentStep s < k -> 2 <= k <= 4 -> selectionAt (selections s) k = "".

(** A backlog of one 400-page book, and the sessions that reach Step 3 and
    Step 4 on it. *)
Definition oneBookBacklog : list Book := [bookWithPages "Medium" 400].

Definition sessionAtStep3 : DecisionState :=
  run (initDecisionEngine [] oneBookBacklog)
      [StepClick "timeInvestment" "moderate"; StepClick "behaviourPreference" "familiar"].

Definition sessionAtStep4 : DecisionState :=
  run (initDecisionEngine [] oneBookBacklog)
      [StepClick "timeInvestment" "moderate"; StepClick "behaviourPreference" "familiar";
       StepClick "backlogPreference" "old"].

(** The narrow window in which [risky] earns a bonus, as binary64 evaluates
    it: 1.1, 3.7 and 4.1 are the binary64 numbers of the literals, and the
    product [avg * 1.1] is rounded. *)
Definition inRiskyWindow (rating avg : Q) : Prop :=
  (0 < avg)%Q /\ (rating < Binary64.fmul avg (Binary64.double 1.1))%Q /\
  (Binary64.double 3.7 <= rating)%Q /\ (rating <= Binary64.double 4.1)%Q.

(** A book with a given average rating, and a reader with a given average
    rating. *)
Definition bookRated (rating : Q) : Book :=
  mkBook (Some "Rated") None 0 0 rating 0 None None None None.

Definition profileWithAvg (avg : Q) : Profile :=
  mkProfile (Some "moderate") (Some "modern") [] (Some avg).

(** The length bucket of a book, as the scoring computes it; a book whose
    page count is unknown is in no bucket. *)
Definition lengthBucket (b : Book) : option string :=
  if 0 <? pages b then Some (lengthOf (pages b)) else None.

(** The bucket of the book is the (non-null) dominant one of the profile. *)
Definition matches (bucket dominant : option string) : bool :=
  match bucket, dominant with
  | Some x, Some d => truthy d && streq x d
  | _, _ => false
  end.

(** The book has a bucket and it is not the (non-null) dominant one. *)
Definition mismatches (bucket dominant : option string) : bool :=
  match bucket, dominant with
  | Some x, Some d => truthy d && negb (streq x d)
  | _, _ => false
  end.

Definition authorInTop (b : Book) (p : Profile) : bool :=
  match author b with
  | Some a => if in_dec string_dec a (topAuthors p) then true else false
  | None => false
  end.

Definition bonusIf (c : bool) (x : Q) : Q := if c then x else 0%Q.

(** A profile with neither a dominant length nor a dominant era, as derived
    from no read book. *)
Definition emptyProfile (p : Profile) : Prop :=
  truthyO (dominantLength p) = false /\ truthyO (dominantEra p) = false.

(** A 350-page book of 2010 by a top author, and the profile of a reader of
    moderate, modern books. *)
Definition familiarBook : Book :=
  mkBook (Some "Familiar") (Some "Author A") 350 2010 4 0 None None None None.

Definition moderateModernProfile : Profile :=
  mkProfile (Some "moderate") (Some "modern") ["Author A"] (Some 4%Q).

(** The book has no usable [dateAdded]: it is [null] or empty. *)
Definition dateAddedMissing (b : Book) : Prop :=
  dateAdded b = None \/ dateAdded b = Some "".

(** A book added on 1 January 2020, seen on 1 January 2024 (timestamps in
    milliseconds), with a date parser that knows that one string. *)
Definition addedIn2020 : Book :=
  mkBook (Some "Old") None 0 0 0 0 None (Some "2020/01/01") None None.

Definition parseKnownDate (s : string) : option Z :=
  if streq s "2020/01/01" then Some 1577836800000 else None.

(** The number of books of a list that satisfy a test. *)
Definition countIf (f : Book -> bool) (l : list Book) : Z :=
  Z.of_nat (List.length (filter f l)).

Definition isQuick (b : Book) : bool := (0 <? pages b) && (pages b <? 300).
Definition isModerate (b : Book) : bool := (300 <=? pages b) && (pages b <=? 500).
Definition isLong (b : Book) : bool := 500 <? pages b.

Definition isClassic (b : Book) : bool :=
  (0 <? publicationYear b) && (publicationYear b <? 1950).
Definition isLate20th (b : Book) : bool :=
  (1950 <=? publicationYear b) && (publicationYear b <=? 1999).
Definition isModern (b : Book) : bool := 1999 <? publicationYear b.

(** The book is in the length bucket, or in the era bucket, of the given
    name, by its page count, or its year, alone. *)
Definition inLengthBucket (name : string) (b : Book) : bool :=
  (streq name "quick" && isQuick b) || (streq name "moderate" && isModerate b)
  || (streq name "long" && isLong b).

Definition inEraBucket (name : string) (b : Book) : bool :=
  (streq name "classic" && isClassic b) || (streq name "late20th" && isLate20th b)
  || (streq name "modern" && isModern b).

(** The profile has a dominant bucket and the book is in it. *)
Definition inDominant (inBucket : string -> Book -> bool) (dominant : option string)
    (b : Book) : bool :=
  match dominant with
  | Some d => truthy d && inBucket d b
  | None => false
  end.

(** The profile has a dominant bucket, the page count or the year of the
    book is known, and the book is not in the dominant bucket. *)
Definition outsideDominant (inBucket : string -> Book -> bool) (known : bool)
    (dominant : option string) (b : Book) : bool :=
  match dominant with
  | Some d => truthy d && known && negb (inBucket d b)
  | None => false
  end.

(** The winner among three counts listed in a fixed order: the first one
    that no other count exceeds. *)
Definition firstGreatest (k1 k2 k3 : string) (c1 c2 c3 : Z) (k : string) : Prop :=
  (k = k1 /\ c2 <= c1 /\ c3 <= c1) \/
  (k = k2 /\ c1 < c2 /\ c3 <= c2) \/
  (k = k3 /\ c1 < c3 /\ c2 < c3).

(** The three read books of the test suite (pages 300, 320 and 350, of
    2010, 2015 and 2020), and a read book of unknown length and year. *)
Definition readBook (a : string) (p y : Z) (d : string) : Book :=
  mkBook None (Some a) p y 0 0 (Some d) None None None.

Definition testReadBooks : list Book :=
  [readBook "Author A" 300 2010 "01/01/2024";
   readBook "Author A" 320 2015 "01/02/2024";
   readBook "Author B" 350 2020 "01/03/2024"].

Definition unknownReadBooks : list Book := [readBook "Author C" 0 0 "01/01/2024"].

(** ** Further vocabulary: sessions *)

(** A state at Step 4 of a session on a backlog of three books, reached
    with the [quick] filter. *)
Definition threeBookBacklog : list Book :=
  [bookWithPages "Short" 200; bookWithPages "Medium" 400; bookWithPages "Long" 600].

(** The four clicks that lead from Step 1 to the recommendation. *)
Definition fourClicks (v1 v2 v3 v4 : string) : list Event :=
  [StepClick "timeInvestment" v1; StepClick "behaviourPreference" v2;
   StepClick "backlogPreference" v3; StepClick "riskPreference" v4].

Definition quickSessionAtStep4 : DecisionState :=
  run (initDecisionEngine [] threeBookBacklog)
      [StepClick "timeInvestment" "quick"; StepClick "behaviourPreference" "familiar";
       StepClick "backlogPreference" "old"].

(** ** The listeners of the buttons

    [initDecisionEngine] runs on every data load, and each run lets
    [setupStepButtons], [setupBackButtons] and the start-over set-up
    register one more click listener on each button; the listeners of the
    earlier runs stay.  After [loads] data loads a click on a button thus
    runs its handler [loads] times, each run on the state the one before
    left.  The relax button, created with an inline [onclick], calls
    [relaxConstraint] once. *)
Definition dispatch (loads : nat) (s : DecisionState) (e : Event) : DecisionState :=
  match e with
  | RelaxClick => handle s e
  | _ => Nat.iter loads (fun st => handle st e) s
  end.

(** A session on a page whose data was loaded [loads] times. *)
Definition runOn (loads : nat) (s : DecisionState) (events : list Event) : DecisionState :=
  fold_left (dispatch loads) events s.

(** In a session the candidates are the full backlog or the backlog
    filtered by the recorded Step-1 selection, and at Step 1 they are the
    full backlog. *)
Definition unfiltered (s : DecisionState) : Prop :=
  (currentStep s = 1 -> candidates s = allBooks s) /\
  (candidates s = allBooks s \/
   candidates s = applyTimeFilter (allBooks s) (timeInvestment (selections s))).


(** ** Further vocabulary: counters and the profile *)

(** The names of the properties every object inherits from
    [Object.prototype].  Under such a key a counter created as [{}] does
    not count: [counts[key] || 0] is the inherited function (for
    [__proto__], the prototype itself), adding 1 to it makes a string, and
    a comparison or a difference with that string is [NaN]. *)
Definition inheritedNames : list string :=
  ["constructor"; "hasOwnProperty"; "isPrototypeOf"; "propertyIsEnumerable";
   "toLocaleString"; "toString"; "valueOf"; "__proto__";
   "__defineGetter__"; "__defineSetter__"; "__lookupGetter__"; "__lookupSetter__"].

Definition inheritedName (key : string) : bool := existsb (streq key) inheritedNames.

(** An array index: the decimal numeral, without leading zero, of an
    integer from 0 to [2 ^ 32 - 2].  [Object.entries] lists such keys
    first, in ascending order, whenever they were created. *)
Definition isDigit (c : Ascii.ascii) : bool :=
  let n := Ascii.nat_of_ascii c in ((48 <=? n)%nat && (n <=? 57)%nat).

Fixpoint allDigits (s : string) : bool :=
  match s with
  | EmptyString => true
  | String c rest => isDigit c && allDigits rest
  end.

Fixpoint digitsValue (acc : Z) (s : string) : Z :=
  match s with
  | EmptyString => acc
  | String c rest => digitsValue (10 * acc + (Z.of_nat (Ascii.nat_of_ascii c) - 48)) rest
  end.

Definition isArrayIndex (key : string) : bool :=
  match key with
  | EmptyString => false
  | String c rest =>
      allDigits key
      && (negb (Ascii.nat_of_ascii c =? 48)%nat || String.eqb rest "")
      && (digitsValue 0 key <? 2 ^ 32 - 1)
  end.

(** The keys for which a counter object is the list of its entries in
    insertion order: neither an inherited name nor an array index. *)
Definition plainKey (key : string) : bool :=
  negb (inheritedName key) && negb (isArrayIndex key).

(** [o[key] || 0] on a counter object. *)
Fixpoint lookupCount (key : string) (o : list (string * Z)) : Z :=
  match o with
  | [] => 0
  | (k, v) :: rest => if streq k key then v else lookupCount key rest
  end.

(** The counter object built by
    [arr.forEach(x => counts[x] = (counts[x] || 0) + 1)], as the list of
    its entries: this is what [Object.entries] lists when every string of
    [arr] is a [plainKey]. *)
Definition countEntries (arr : list string) : list (string * Z) :=
  fold_left (fun counts x => bump x counts) arr [].

(** The number of occurrences of a string in a list. *)
Definition occurrences (arr : list string) (x : string) : Z :=
  Z.of_nat (count_occ string_dec arr x).

(** The authors that [deriveBehaviourProfile] counts: those of the books
    that have one. *)
Definition knownAuthors (books : list Book) : list string :=
  flat_map (fun b => match author b with
                     | Some a => if truthy a then [a] else []
                     | None => []
                     end) books.

(** The sum of a list of integers. *)
Definition Zsum (l : list Z) : Z := fold_left Z.add l 0.

(** The page counts of the three read books of the test suite. *)
Definition testPageCounts : list Z := [300; 320; 350].

(** Descending order of counts. *)
Definition countDesc (a b : string * Z) : Prop := snd b <= snd a.

(** The first [n] entries of a counter sorted by descending count. *)
Definition topEntries (arr : list string) (n : nat) : list (string * Z) :=
  firstn n (jsSort byCountDesc (countEntries arr)).

(** ** Metrics *)

(** An element of the array [getTopAuthors] returns, [{ author, count }]. *)
Record AuthorCount := mkAuthorCount { tcAuthor : string; tcCount : Z }.

(** [getTopAuthors(arr, n)]. *)
Definition getTopAuthors (arr : list string) (n : nat) : list AuthorCount :=
  if (List.length arr =? 0)%nat then []
  else
    firstn n
      (jsSort (fun a b => inject_Z (tcCount b - tcCount a))
              (map (fun e => {| tcAuthor := fst e; tcCount := snd e |})
                   (countEntries arr))).

(** The loop of [getMostFrequent]: the counter, [maxCount] and [maxValue]
    after the values seen so far.  For an inherited name [counts[value]]
    holds a string (for [__proto__] it remains the prototype), so that
    [counts[value] > maxCount] compares [NaN] and is false; the entry the
    counter keeps for it here is read by no other step. *)
Definition mostFrequentStep (st : list (string * Z) * Z * option string) (value : string)
  : list (string * Z) * Z * option string :=
  let '(counts, maxCount, maxValue) := st in
  let counts := bump value counts in
  if negb (inheritedName value) && (maxCount <? lookupCount value counts)
  then (counts, lookupCount value counts, Some value)
  else (counts, maxCount, maxValue).

(** [getMostFrequent(arr)]. *)
Definition getMostFrequent (arr : list string) : option string :=
  if (List.length arr =? 0)%nat then None
  else snd (fold_left mostFrequentStep arr ([], 0, None)).

(** [median(arr)]: [sorted] is the copy of [arr] sorted with
    [(a, b) => a - b]. *)
Definition median (arr : list Q) : Q :=
  if (List.length arr =? 0)%nat then 0%Q
  else
    let sorted := jsSort (fun a b => (a - b)%Q) arr in
    let mid := Nat.div (List.length sorted) 2 in
    if (Nat.modulo (List.length sorted) 2 =? 0)%nat
    then ((nth (mid - 1) sorted 0%Q + nth mid sorted 0%Q) / 2)%Q
    else nth mid sorted 0%Q.

(** How many numbers of a list are at most, and at least, a given one. *)
Definition countAtMost (v : Q) (l : list Q) : nat :=
  List.length (filter (fun x => Qle_bool x v) l).

Definition countAtLeast (v : Q) (l : list Q) : nat :=
  List.length (filter (fun x => Qle_bool v x) l).

(** ** Backlog insights *)

(** [s || 'Unknown'] for a string that may be [null]. *)
Definition orUnknown (o : option string) : string :=
  match o with
  | Some s => if truthy s then s else "Unknown"
  | None => "Unknown"
  end.

(** The object [{ title, author, pages }] of the longest and the shortest
    unread book. *)
Record PagesInfo := mkPagesInfo { piTitle : string; piAuthor : string; piPages : Z }.

Definition pagesInfoOf (b : Book) : PagesInfo :=
  {| piTitle := orUnknown (title b); piAuthor := orUnknown (author b);
     piPages := pages b |}.

(** [findLongestUnread(unreadBooks)]. *)
Definition findLongestUnread (unreadBooks : list Book) : option PagesInfo :=
  let booksWithPages := filter (fun b => 0 <? pages b) unreadBooks in
  if (List.length booksWithPages =? 0)%nat then None
  else
    match jsSort (fun a b => inject_Z (pages b - pages a)) booksWithPages with
    | longest :: _ => Some (pagesInfoOf longest)
    | [] => None
    end.

(** [findShortestUnread(unreadBooks)]. *)
Definition findShortestUnread (unreadBooks : list Book) : option PagesInfo :=
  let booksWithPages := filter (fun b => 0 <? pages b) unreadBooks in
  if (List.length booksWithPages =? 0)%nat then None
  else
    match jsSort (fun a b => inject_Z (pages a - pages b)) booksWithPages with
    | shortest :: _ => Some (pagesInfoOf shortest)
    | [] => None
    end.

(** The object [{ title, author, dateAdded }] of the oldest unread book. *)
Record DateInfo := mkDateInfo {
  diTitle : string; diAuthor : string; diDateAdded : option string
}.

(** The timestamp of [parseDateSafe(b.dateAdded)], [None] when it is
    [null]; [parseDateSafe] is the function of the application, taken as
    the timestamp of the date it returns. *)
Definition parsedDate (parseDateSafe : string -> option Z) (b : Book) : option Z :=
  match dateAdded b with
  | Some d => parseDateSafe d
  | None => None
  end.

(** [findOldestUnread(unreadBooks)]: the array [booksWithDates] holds each
    book with its parsed date. *)
Definition findOldestUnread (parseDateSafe : string -> option Z)
    (unreadBooks : list Book) : option DateInfo :=
  let booksWithDates :=
    flat_map (fun b =>
                if truthyO (dateAdded b) then
                  match parsedDate parseDateSafe b with
                  | Some t => [(b, t)]
                  | None => []
                  end
                else [])
             unreadBooks in
  if (List.length booksWithDates =? 0)%nat then None
  else
    match jsSort (fun a b => inject_Z (snd a - snd b)) booksWithDates with
    | oldest :: _ =>
        Some {| diTitle := orUnknown (title (fst oldest));
                diAuthor := orUnknown (author (fst oldest));
                diDateAdded := dateAdded (fst oldest) |}
    | [] => None
    end.

(** The first element of a list whose key is greatest: the elements before
    it have a smaller key and those after it a key that is not greater. *)
Definition firstGreatestBy {A} (key : A -> Z) (l : list A) (x : A) : Prop :=
  exists before after,
    l = (before ++ x :: after)%list /\
    Forall (fun y => key y < key x) before /\
    Forall (fun y => key y <= key x) after.

(** The books with a known page count, and the books with a date that
    parses, each with its timestamp. *)
Definition booksWithPages (unreadBooks : list Book) : list Book :=
  filter (fun b => 0 <? pages b) unreadBooks.

Definition booksWithDates (parseDateSafe : string -> option Z) (unreadBooks : list Book)
  : list (Book * Z) :=
  flat_map (fun b =>
              if truthyO (dateAdded b) then
                match parsedDate parseDateSafe b with
                | Some t => [(b, t)]
                | None => []
                end
              else [])
           unreadBooks.

(** ** Local scoring helpers *)

(** The comparator of [selectTopCandidates]: by score descending, then by
    the book's average rating descending. *)
Definition byScoreThenRating (a b : Scored) : Q :=
  if negb (Qeq_bool (score b) (score a)) then (score b - score a)%Q
  else (averageRating (book b) - averageRating (book a))%Q.

(** [selectTopCandidates(scored, limit)]. *)
Definition selectTopCandidates (scored : list Scored) (limit : nat) : list Scored :=
  firstn limit (jsSort byScoreThenRating scored).

(** The order of [selectTopCandidates]: a higher score first, and among
    equal scores a rating that is not lower. *)
Definition scoreThenRatingDesc (a b : Scored) : Prop :=
  (score b < score a)%Q \/
  ((score b == score a)%Q /\ (averageRating (book b) <= averageRating (book a))%Q).

(** [getLengthCategory(pages)]. *)
Definition getLengthCategory (pages : Z) : string :=
  if pages <? 300 then "short"
  else if pages <=? 500 then "medium"
  else if pages <=? 800 then "long"
  else "epic".

(** [getEraCategory(year)]. *)
Definition getEraCategory (year : Z) : string :=
  if year <? 1950 then "classic"
  else if year <=? 1999 then "late20th"
  else "modern".

(** [calculateBacklogLengthDistribution(unreadBooks)]: the object
    [buckets], as its entries. *)
Definition calculateBacklogLengthDistribution (unreadBooks : list Book)
  : list (string * Z) :=
  fold_left (fun buckets book =>
               if pages book <=? 0 then buckets
               else if pages book <? 300 then bump "short" buckets
               else if pages book <=? 500 then bump "medium" buckets
               else if pages book <=? 800 then bump "long" buckets
               else bump "epic" buckets)
            unreadBooks [("short", 0); ("medium", 0); ("long", 0); ("epic", 0)].

(** [calculateBacklogEraDistribution(unreadBooks)]. *)
Definition calculateBacklogEraDistribution (unreadBooks : list Book)
  : list (string * Z) :=
  fold_left (fun buckets book =>
               if (publicationYear book =? 0) || (publicationYear book <=? 0) then buckets
               else if publicationYear book <? 1950 then bump "classic" buckets
               else if publicationYear book <=? 1999 then bump "late20th" buckets
               else bump "modern" buckets)
            unreadBooks [("classic", 0); ("late20th", 0); ("modern", 0)].

(** The books of a category, among those with a known page count. *)
Definition inLengthCategory (k : string) (b : Book) : bool :=
  (0 <? pages b) && streq (getLengthCategory (pages b)) k.




(** ** The partition of the library *)

(** [hay.includes(needle)]. *)
Fixpoint includesStr (hay needle : string) : bool :=
  String.prefix needle hay
  || match hay with
     | EmptyString => false
     | String _ rest => includesStr rest needle
     end.

(** The test of [initAnalytics] for a "want to read" book; [toLowerCase] is
    the method of strings. *)
Definition onToReadShelf (toLowerCase : string -> string) (b : Book) : bool :=
  match shelves b with
  | Some sh =>
      if negb (truthy sh) then false
      else
        let shelves := toLowerCase sh in
        includesStr shelves "to-read" || includesStr shelves "want-to-read"
  | None => false
  end.

(** The arrays [readBooks], [unreadBooks] and [wantToReadBooks] of
    [initAnalytics]. *)
Definition readBooksOf (books : list Book) : list Book := filter isRead books.

Definition unreadBooksOf (books : list Book) : list Book :=
  filter (fun b => match dateRead b with None => true | Some _ => false end) books.

Definition wantToReadBooksOf (toLowerCase : string -> string) (books : list Book)
  : list Book :=
  filter (onToReadShelf toLowerCase) (unreadBooksOf books).

(** The state in which [initAnalytics] leaves the funnel. *)
Definition initAnalyticsState (toLowerCase : string -> string) (books : list Book)
  : DecisionState :=
  initDecisionEngine books (wantToReadBooksOf toLowerCase books).

(** ** Enrichment *)

(** The characters the regular expression [/[^0-9X]/gi] leaves in place:
    the digits and the letter X in either case. *)
Definition isIsbnChar (c : Ascii.ascii) : bool :=
  let n := Ascii.nat_of_ascii c in
  ((48 <=? n)%nat && (n <=? 57)%nat) || (n =? 88)%nat || (n =? 120)%nat.

(** [isbn.replace(/[^0-9X]/gi, '')]. *)
Fixpoint cleanIsbn (isbn : string) : string :=
  match isbn with
  | EmptyString => EmptyString
  | String c rest => if isIsbnChar c then String c (cleanIsbn rest) else cleanIsbn rest
  end.

(** Every character of a string passes a test. *)
Fixpoint allChars (f : Ascii.ascii -> bool) (s : string) : bool :=
  match s with
  | EmptyString => true
  | String c rest => f c && allChars f rest
  end.

(** The object stored in [book.enrichment]. *)
Record Enrichment := mkEnrichment {
  subjectsRaw : list string;
  genres : list string;
  coverId : option Z
}.

(** The enrichment stored when the lookup fails. *)
Definition emptyEnrichment : Enrichment :=
  {| subjectsRaw := []; genres := []; coverId := None |}.

(** A book object with its optional [enrichment] property. *)
Record Candidate := mkCandidate { cBook : Book; enrichment : option Enrichment }.

(** [enrichBook(book)].  [lookup] stands for the body of the [try]: for the
    cleaned ISBN it gives the enrichment the Open Library answers lead to,
    or [None] when a request fails or an error is thrown.  A book without
    ISBN makes the function throw before the [try], and is left as it is. *)
Definition enrichBook (lookup : string -> option Enrichment) (c : Candidate) : Candidate :=
  match enrichment c with
  | Some _ => c
  | None =>
      match isbn (cBook c) with
      | None => c
      | Some i =>
          {| cBook := cBook c;
             enrichment :=
               Some (match lookup (cleanIsbn i) with
                     | Some e => e
                     | None => emptyEnrichment
                     end) |}
      end
  end.

(** [book.isbn && !book.enrichment]. *)
Definition needsEnrichment (c : Candidate) : bool :=
  truthyO (isbn (cBook c))
  && match enrichment c with Some _ => false | None => true end.

(** The book objects are a store, a book being known by its position in
    [candidateBooks]; [booksToEnrich] holds the positions of the books of
    [candidateBooks.filter(...).slice(0, limit)]. *)
Definition booksToEnrich (store : list Candidate) (limit : nat) : list nat :=
  firstn limit
    (filter (fun i => match nth_error store i with
                      | Some c => needsEnrichment c
                      | None => false
                      end)
            (seq 0 (List.length store))).

(** The loop [for (let i = 0; i < length; i += 3)] with
    [batch = slice(i, i + 3)]; it runs at most [fuel] times. *)
Fixpoint batchLoop {A} (fuel i : nat) (l : list A) : list (list A) :=
  match fuel with
  | O => []
  | S fuel' =>
      if (i <? List.length l)%nat
      then firstn 3 (skipn i l) :: batchLoop fuel' (i + 3) l
      else []
  end.

(** The batches of the loop; it cannot run more often than the array is
    long. *)
Definition batches {A} (l : list A) : list (list A) := batchLoop (List.length l) 0 l.

(** [store[i] = f(store[i])]. *)
Fixpoint updateAt {A} (i : nat) (f : A -> A) (l : list A) : list A :=
  match l, i with
  | [], _ => []
  | x :: rest, O => f x :: rest
  | x :: rest, S k => x :: updateAt k f rest
  end.

(** [enrichCandidates(candidateBooks, limit)]: the store after every batch
    has been awaited; within a batch each call of [enrichBook] changes its
    own book only. *)
Definition enrichCandidates (lookup : string -> option Enrichment) (limit : nat)
    (store : list Candidate) : list Candidate :=
  fold_left
    (fun st batch => fold_left (fun st i => updateAt i (enrichBook lookup) st) batch st)
    (batches (booksToEnrich store limit))
    store.

(** ** Properties of the time filter *)

Lemma filter_ext_all {A} (f g : A -> bool) (l : list A) :
  (forall x, f x = g x) -> filter f l = filter g l.
Proof.
  intros E. induction l as [|x l IH]; simpl; [reflexivity|].
  rewrite E, IH. reflexivity.
Qed.

Lemma Forall_filter_pred {A} (f : A -> bool) (P : A -> Prop) (l : list A) :
  (forall x, f x = true -> P x) -> Forall P (filter f l).
Proof.
  intros H. apply Forall_forall. intros x Hx.
  apply filter_In in Hx. apply H, Hx.
Qed.

(** C7.  The Step-1 time filter keeps, in their order, exactly the books
    with [0 < pages < 300] under [quick], with [300 <= pages <= 500] under
    [moderate] and with [pages > 500] under [long]; under every selection
    other than [any] each kept book has a known page count ([pages > 0]),
    so a book with [pages = 0] passes only under [any]; under [any] the list
    is returned unchanged; and [quick] on pages [200, 400, 600] yields
    exactly the 200-page book. *)
Theorem applyTimeFilter_buckets :
  (forall books,
      applyTimeFilter books "quick"
      = filter (fun b => (0 <? pages b) && (pages b <? 300)) books) /\
  (forall books,
      applyTimeFilter books "moderate"
      = filter (fun b => (300 <=? pages b) && (pages b <=? 500)) books) /\
  (forall books,
      applyTimeFilter books "long"
      = filter (fun b => 500 <? pages b) books) /\
  (forall books selection,
      selection <> "" -> selection <> "any" ->
      Forall (fun b => 0 < pages b) (applyTimeFilter books selection)) /\
  (forall books, applyTimeFilter books "any" = books) /\
  applyTimeFilter
    [bookWithPages "Short" 200; bookWithPages "Medium" 400; bookWithPages "Long" 600]
    "quick"
  = [bookWithPages "Short" 200].
Proof.
  repeat apply conj.
  - intros books. unfold applyTimeFilter; simpl.
    apply filter_ext_all; intros b.
    destruct (pages b <=? 0) eqn:E0, (0 <? pages b) eqn:E1, (pages b <? 300) eqn:E2;
      try reflexivity; lia.
  - intros books. unfold applyTimeFilter; simpl.
    apply filter_ext_all; intros b.
    destruct (pages b <=? 0) eqn:E0, (300 <=? pages b) eqn:E1, (pages b <=? 500) eqn:E2;
      try reflexivity; lia.
  - intros books. unfold applyTimeFilter; simpl.
    apply filter_ext_all; intros b.
    destruct (pages b <=? 0) eqn:E0, (500 <? pages b) eqn:E1; try reflexivity; lia.
  - intros books selection Hset Hany. unfold applyTimeFilter, truthy, streq.
    destruct (String.eqb_spec selection "") as [E|_]; [contradiction|].
    destruct (String.eqb_spec selection "any") as [E|_]; [contradiction|].
    simpl. apply Forall_filter_pred. intros b.
    destruct (Z.leb_spec (pages b) 0) as [E0|E0]; [discriminate | intros _; exact E0].
  - intros books. reflexivity.
  - reflexivity.
Qed.

(** ** Comparisons of rationals *)

Lemma Qlt_bool_iff (x y : Q) : Qlt_bool x y = true <-> (x < y)%Q.
Proof.
  unfold Qlt_bool. rewrite negb_true_iff. split.
  - intros H. apply Qnot_le_lt. intros Hle.
    apply Qle_bool_iff in Hle. congruence.
  - intros H. destruct (Qle_bool y x) eqn:E; [|reflexivity].
    apply Qle_bool_iff in E. exfalso. apply (Qlt_not_le _ _ H E).
Qed.

Lemma Qlt_bool_false (x y : Q) : Qlt_bool x y = false <-> (y <= x)%Q.
Proof.
  unfold Qlt_bool. rewrite negb_false_iff. apply Qle_bool_iff.
Qed.

Lemma Qge_bool_iff (x y : Q) : Qge_bool x y = true <-> (y <= x)%Q.
Proof. unfold Qge_bool. apply Qle_bool_iff. Qed.

Lemma Qge_bool_false (x y : Q) : Qge_bool x y = false <-> (x < y)%Q.
Proof.
  unfold Qge_bool. split.
  - intros H. apply Qnot_le_lt. intros Hle. apply Qle_bool_iff in Hle. congruence.
  - intros H. destruct (Qle_bool y x) eqn:E; [|reflexivity].
    apply Qle_bool_iff in E. exfalso. apply (Qlt_not_le _ _ H E).
Qed.

Lemma Qle_bool_false (x y : Q) : Qle_bool x y = false <-> (y < x)%Q.
Proof. apply (Qge_bool_false y x). Qed.

(** ** Sorting: permutation and order *)

Section Sorting.
Context {A : Type} (cmp : A -> A -> Q).

Lemma insertBy_perm (x : A) (l : list A) : Permutation (x :: l) (insertBy cmp x l).
Proof.
  induction l as [|y ys IH]; simpl; [apply Permutation_refl|].
  destruct (Qlt_bool 0 (cmp x y)).
  - eapply Permutation_trans; [apply perm_swap|]. apply perm_skip, IH.
  - apply Permutation_refl.
Qed.

Lemma jsSort_perm (l : list A) : Permutation l (jsSort cmp l).
Proof.
  induction l as [|x xs IH]; simpl; [apply perm_nil|].
  eapply Permutation_trans; [apply perm_skip, IH|]. apply insertBy_perm.
Qed.

Lemma jsSort_In (l : list A) (x : A) : In x (jsSort cmp l) <-> In x l.
Proof.
  split; apply Permutation_in;
    [apply Permutation_sym|]; apply jsSort_perm.
Qed.

Lemma jsSort_length (l : list A) : List.length (jsSort cmp l) = List.length l.
Proof. symmetry. apply Permutation_length, jsSort_perm. Qed.

(** Stability.  For a class [P] of elements that the comparator never
    orders strictly among themselves, the sort keeps the elements of the
    class in the order they had. *)
Variable P : A -> bool.
Hypothesis P_ties : forall x y, P x = true -> P y = true -> Qlt_bool 0 (cmp x y) = false.

Lemma insertBy_filter (x : A) (l : list A) :
  filter P (insertBy cmp x l) = filter P (x :: l).
Proof.
  induction l as [|y ys IH]; [reflexivity|].
  simpl insertBy. destruct (Qlt_bool 0 (cmp x y)) eqn:E; [|reflexivity].
  simpl filter in *. rewrite IH.
  destruct (P x) eqn:Px; [|reflexivity].
  destruct (P y) eqn:Py; [|reflexivity].
  rewrite (P_ties x y Px Py) in E. discriminate E.
Qed.

Lemma jsSort_stable (l : list A) : filter P (jsSort cmp l) = filter P l.
Proof.
  induction l as [|x xs IH]; [reflexivity|].
  simpl jsSort. rewrite insertBy_filter. simpl. rewrite IH. reflexivity.
Qed.
End Sorting.

(** Candidates of equal score keep their order in the sorted array. *)
Lemma jsSort_stable_scores (v : Q) (l : list Scored) :
  filter (fun c => Qeq_bool (score c) v) (jsSort byScoreDesc l)
  = filter (fun c => Qeq_bool (score c) v) l.
Proof.
  apply jsSort_stable. intros x y Hx Hy.
  apply Qeq_bool_iff in Hx, Hy. apply Qlt_bool_false.
  unfold byScoreDesc. rewrite Hx, Hy. lra.
Qed.

(** Keys of equal count keep their order in the sorted entries. *)
Lemma jsSort_stable_counts (n : Z) (l : list (string * Z)) :
  filter (fun e => snd e =? n) (jsSort byCountDesc l)
  = filter (fun e => snd e =? n) l.
Proof.
  apply jsSort_stable. intros x y Hx Hy.
  apply Z.eqb_eq in Hx, Hy. apply Qlt_bool_false.
  unfold byCountDesc. rewrite Hx, Hy, Z.sub_diag. apply Qle_refl.
Qed.

Lemma insertBy_score_sorted (x : Scored) (l : list Scored) :
  StronglySorted scoreDesc l -> StronglySorted scoreDesc (insertBy byScoreDesc x l).
Proof.
  induction l as [|y ys IH]; intros Hs; simpl.
  - constructor; constructor.
  - apply StronglySorted_inv in Hs. destruct Hs as [Hys Hall].
    destruct (Qlt_bool 0 (byScoreDesc x y)) eqn:E.
    + apply Qlt_bool_iff in E. unfold byScoreDesc in E.
      constructor; [apply IH, Hys|].
      apply Forall_forall. intros z Hz.
      apply (Permutation_in _ (Permutation_sym (insertBy_perm byScoreDesc x ys))) in Hz.
      destruct Hz as [<- | Hz].
      * unfold scoreDesc. lra.
      * rewrite Forall_forall in Hall. apply Hall, Hz.
    + apply Qlt_bool_false in E. unfold byScoreDesc in E.
      constructor; [constructor; assumption|].
      constructor; [unfold scoreDesc; lra|].
      rewrite Forall_forall in Hall |- *. intros z Hz.
      specialize (Hall z Hz). unfold scoreDesc in *. lra.
Qed.

Lemma jsSort_score_sorted (l : list Scored) :
  StronglySorted scoreDesc (jsSort byScoreDesc l).
Proof.
  induction l as [|x xs IH]; simpl; [constructor|].
  apply insertBy_score_sorted, IH.
Qed.

(** ** The random index *)

Lemma inject_nat_pos (n : nat) : (0 < n)%nat -> (0 < inject_Z (Z.of_nat n))%Q.
Proof.
  intros Hn. change 0%Q with (inject_Z 0). rewrite <- Zlt_Qlt. lia.
Qed.

Lemma randomIndex_range (r : Q) (n : nat) :
  (0 < n)%nat -> (0 <= r)%Q -> (r < 1)%Q ->
  0 <= randomIndex r n < Z.of_nat n.
Proof.
  intros Hn H0 H1. unfold randomIndex.
  set (m := inject_Z (Z.of_nat n)).
  assert (Hm : (0 < m)%Q).
  { unfold m. apply inject_nat_pos, Hn. }
  split.
  - rewrite <- (Qfloor_Z 0). apply Qfloor_resp_le.
    change (inject_Z 0) with 0%Q. apply Qmult_le_0_compat; lra.
  - rewrite Zlt_Qlt. eapply Qle_lt_trans; [apply Qfloor_le|].
    fold m. setoid_replace m with (1 * m)%Q at 2 by ring.
    apply Qmult_lt_compat_r; assumption.
Qed.

(** ** Binary64: rounding *)

Section Rounding.
Import Binary64.
Local Open Scope Q_scope.

Lemma pow2_pos (e : Z) : 0 < pow2 e.
Proof. apply Qpower_0_lt. reflexivity. Qed.

Lemma pow2_add (a b : Z) : pow2 (a + b) == pow2 a * pow2 b.
Proof. apply Qpower_plus. discriminate. Qed.

Lemma pow2_sub (a b : Z) : pow2 (a - b) == pow2 a / pow2 b.
Proof. apply Qpower_minus. discriminate. Qed.

Lemma pow2_le (a b : Z) : (a <= b)%Z -> pow2 a <= pow2 b.
Proof. intros H. apply Qpower_le_compat_l; [exact H | discriminate]. Qed.

Lemma pow2_lt_inv (a b : Z) : pow2 a < pow2 b -> (a < b)%Z.
Proof. intros H. apply (Qpower_lt_compat_l_inv 2); [exact H | reflexivity]. Qed.

Lemma pow2_inject (n : Z) : (0 <= n)%Z -> inject_Z (2 ^ n) == pow2 n.
Proof. intros H. apply (Zpower_Qpower 2 n H). Qed.

Lemma pow2_succ (a : Z) : pow2 (a + 1) == 2 * pow2 a.
Proof. rewrite pow2_add. change (pow2 1) with 2. ring. Qed.

Lemma Qdiv_lt_cross (n d m b : Q) : 0 < d -> 0 < b -> n * b < m * d -> n / d < m / b.
Proof.
  intros Hd Hb H. apply Qlt_shift_div_r; [exact Hd|].
  setoid_replace (m / b * d) with (m * d / b) by (field; lra).
  apply Qlt_shift_div_l; assumption.
Qed.

Lemma Qdiv_le_cross (n d m b : Q) : 0 < d -> 0 < b -> n * b <= m * d -> n / d <= m / b.
Proof.
  intros Hd Hb H. apply Qle_shift_div_r; [exact Hd|].
  setoid_replace (m / b * d) with (m * d / b) by (field; lra).
  apply Qle_shift_div_l; assumption.
Qed.

(** [ilog2]: the binary exponent of a positive rational. *)
Lemma ilog2_spec (x : Q) : 0 < x -> pow2 (ilog2 x) <= x /\ x < pow2 (ilog2 x + 1).
Proof.
  intros Hx. destruct x as [n d]. unfold ilog2. cbn [Qnum Qden].
  assert (Hn : (0 < n)%Z).
  { unfold Qlt in Hx. simpl in Hx. lia. }
  destruct (Z.log2_spec n Hn) as [Hn1 Hn2].
  destruct (Z.log2_spec (Zpos d) eq_refl) as [Hd1 Hd2].
  set (a := Z.log2 n) in *. set (b := Z.log2 (Zpos d)) in *.
  assert (Ha : (0 <= a)%Z) by apply Z.log2_nonneg.
  assert (Hb : (0 <= b)%Z) by apply Z.log2_nonneg.
  rewrite Zle_Qle, pow2_inject in Hn1, Hd1 by assumption.
  rewrite Zlt_Qlt, pow2_inject in Hn2, Hd2 by lia.
  replace (Z.succ a) with (a + 1)%Z in Hn2 by lia.
  replace (Z.succ b) with (b + 1)%Z in Hd2 by lia.
  rewrite pow2_succ in Hn2, Hd2.
  assert (Hxd : n # d == inject_Z n / inject_Z (Zpos d)) by apply Qmake_Qdiv.
  assert (Hdpos : 0 < inject_Z (Zpos d)) by reflexivity.
  pose proof (pow2_pos a) as Pa. pose proof (pow2_pos b) as Pb.
  set (N := inject_Z n) in *. set (D := inject_Z (Zpos d)) in *.
  destruct (Qle_bool (pow2 (a - b)) (n # d)) eqn:E.
  - apply Qle_bool_iff in E. split; [exact E|].
    rewrite Hxd, pow2_succ, pow2_sub.
    setoid_replace (2 * (pow2 a / pow2 b)) with ((2 * pow2 a) / pow2 b) by (field; lra).
    apply Qdiv_lt_cross; [exact Hdpos | exact Pb | nra].
  - assert (E' : n # d < pow2 (a - b)).
    { apply Qnot_le_lt. intros H. apply Qle_bool_iff in H. congruence. }
    split; [|replace (a - b - 1 + 1)%Z with (a - b)%Z by lia; exact E'].
    rewrite Hxd.
    replace (a - b - 1)%Z with (a - (b + 1))%Z by lia. rewrite pow2_sub, pow2_succ.
    apply Qdiv_le_cross; [lra | exact Hdpos | nra].
Qed.

Lemma ilog2_unique (x : Q) (a : Z) : pow2 a <= x -> x < pow2 (a + 1) -> ilog2 x = a.
Proof.
  intros H1 H2.
  assert (Hx : 0 < x) by (pose proof (pow2_pos a); lra).
  destruct (ilog2_spec x Hx) as [S1 S2].
  assert (L1 : (a < ilog2 x + 1)%Z) by (apply pow2_lt_inv; lra).
  assert (L2 : (ilog2 x < a + 1)%Z) by (apply pow2_lt_inv; lra).
  lia.
Qed.

Lemma ilog2_comp (x y : Q) : 0 < x -> x == y -> ilog2 x = ilog2 y.
Proof.
  intros Hx E. destruct (ilog2_spec x Hx) as [S1 S2].
  symmetry. apply ilog2_unique; rewrite <- E; assumption.
Qed.

Lemma ilog2_le (x y : Q) : 0 < x -> x <= y -> (ilog2 x <= ilog2 y)%Z.
Proof.
  intros Hx Hxy.
  destruct (ilog2_spec x Hx) as [S1 _].
  destruct (ilog2_spec y) as [_ T2]; [lra|].
  assert (L : (ilog2 x < ilog2 y + 1)%Z) by (apply pow2_lt_inv; lra).
  lia.
Qed.

Lemma ilog2_lt_pow2 (x : Q) (a : Z) : 0 < x -> x < pow2 a -> (ilog2 x < a)%Z.
Proof.
  intros Hx H. destruct (ilog2_spec x Hx) as [S1 _].
  apply pow2_lt_inv. lra.
Qed.

Lemma ilog2_ge_pow2 (x : Q) (a : Z) : pow2 a <= x -> (a <= ilog2 x)%Z.
Proof.
  intros H. assert (Hx : 0 < x) by (pose proof (pow2_pos a); lra).
  destruct (ilog2_spec x Hx) as [_ S2].
  assert (L : (a < ilog2 x + 1)%Z) by (apply pow2_lt_inv; lra). lia.
Qed.

(** Rounding to the nearest integer, ties to even. *)
Lemma rne_comp (p q : Q) : p == q -> rne p = rne q.
Proof.
  intros E. unfold rne. rewrite (Qfloor_comp p q E).
  assert (C : (p - inject_Z (Qfloor q) ?= 1 # 2) = (q - inject_Z (Qfloor q) ?= 1 # 2)).
  { apply Qcompare_comp; [rewrite E; reflexivity | reflexivity]. }
  rewrite C. reflexivity.
Qed.

Lemma rne_bounds (q : Q) : (Qfloor q <= rne q <= Qfloor q + 1)%Z.
Proof.
  unfold rne. destruct (q - inject_Z (Qfloor q) ?= 1 # 2); [destruct (Z.even _)| |]; lia.
Qed.

Lemma rne_Z (n : Z) : rne (inject_Z n) = n.
Proof.
  unfold rne. rewrite Qfloor_Z.
  assert (C : (inject_Z n - inject_Z n ?= 1 # 2) = Lt).
  { apply Qlt_alt. setoid_replace (inject_Z n - inject_Z n) with 0 by ring. reflexivity. }
  rewrite C. reflexivity.
Qed.

Lemma rne_mono (p q : Q) : p <= q -> (rne p <= rne q)%Z.
Proof.
  intros H. pose proof (Qfloor_resp_le p q H) as Hf.
  pose proof (rne_bounds p) as Bp. pose proof (rne_bounds q) as Bq.
  destruct (Z.eq_dec (Qfloor p) (Qfloor q)) as [E | NE]; [|lia].
  unfold rne. rewrite E.
  destruct (q - inject_Z (Qfloor q) ?= 1 # 2) eqn:Cq;
    destruct (p - inject_Z (Qfloor q) ?= 1 # 2) eqn:Cp;
    try (destruct (Z.even (Qfloor q))); try lia; exfalso;
    first [apply Qeq_alt in Cq | apply Qlt_alt in Cq | apply Qgt_alt in Cq];
    first [apply Qeq_alt in Cp | apply Qlt_alt in Cp | apply Qgt_alt in Cp];
    lra.
Qed.

Lemma rne_error (q : Q) : Qabs (inject_Z (rne q) - q) <= 1 # 2.
Proof.
  pose proof (Qfloor_le q) as L. pose proof (Qlt_floor q) as U.
  rewrite inject_Z_plus in U. change (inject_Z 1) with 1 in U.
  apply Qabs_Qle_condition. unfold rne.
  destruct (q - inject_Z (Qfloor q) ?= 1 # 2) eqn:C.
  - apply Qeq_alt in C. destruct (Z.even (Qfloor q)).
    + split; lra.
    + rewrite inject_Z_plus. change (inject_Z 1) with 1. split; lra.
  - apply Qlt_alt in C. split; lra.
  - apply Qgt_alt in C. rewrite inject_Z_plus. change (inject_Z 1) with 1. split; lra.
Qed.

Lemma rne_nonneg (q : Q) : 0 <= q -> (0 <= rne q)%Z.
Proof. intros H. rewrite <- (rne_Z 0). apply rne_mono. exact H. Qed.

(** The exponent of the last place. *)
Lemma ulpExp_ge (x : Q) : (-1074 <= ulpExp x)%Z.
Proof. unfold ulpExp. lia. Qed.

Lemma ulpExp_mono (x y : Q) : 0 < x -> x <= y -> (ulpExp x <= ulpExp y)%Z.
Proof. intros Hx H. pose proof (ilog2_le x y Hx H). unfold ulpExp. lia. Qed.

Lemma ulpExp_comp (x y : Q) : 0 < x -> x == y -> ulpExp x = ulpExp y.
Proof. intros Hx E. unfold ulpExp. rewrite (ilog2_comp x y Hx E). reflexivity. Qed.

Lemma below_next_binade (x : Q) : 0 < x -> x < pow2 (ulpExp x + 53).
Proof.
  intros Hx. destruct (ilog2_spec x Hx) as [_ S].
  apply Qlt_le_trans with (pow2 (ilog2 x + 1)); [exact S|].
  apply pow2_le. unfold ulpExp. lia.
Qed.

Lemma scaled (x : Q) (e : Z) : x == x / pow2 e * pow2 e.
Proof. pose proof (pow2_pos e). field. lra. Qed.

Lemma scaled_lt (x : Q) (e k : Z) : x < pow2 (e + k) -> x / pow2 e < pow2 k.
Proof.
  intros H. apply Qlt_shift_div_r; [apply pow2_pos|].
  rewrite <- pow2_add. replace (k + e)%Z with (e + k)%Z by lia. exact H.
Qed.

Lemma scaled_ge (x : Q) (e k : Z) : pow2 (e + k) <= x -> pow2 k <= x / pow2 e.
Proof.
  intros H. apply Qle_shift_div_l; [apply pow2_pos|].
  rewrite <- pow2_add. replace (k + e)%Z with (e + k)%Z by lia. exact H.
Qed.

(** Rounding a non-negative rational. *)
Lemma roundPos_zero (x : Q) : x == 0 -> roundPos x == 0.
Proof.
  intros E. unfold roundPos.
  assert (Z0 : x / pow2 (ulpExp x) == inject_Z 0).
  { unfold Qdiv. generalize (/ pow2 (ulpExp x)). intros c. rewrite E.
    change (inject_Z 0) with 0. ring. }
  rewrite (rne_comp _ _ Z0), rne_Z. ring.
Qed.

Lemma roundPos_nonneg (x : Q) : 0 <= x -> 0 <= roundPos x.
Proof.
  intros Hx. unfold roundPos. apply Qmult_le_0_compat.
  - change 0 with (inject_Z 0). rewrite <- Zle_Qle. apply rne_nonneg.
    apply Qle_shift_div_l; [apply pow2_pos|]. lra.
  - apply Qlt_le_weak, pow2_pos.
Qed.

Lemma roundPos_le_pow (x : Q) : 0 < x -> roundPos x <= pow2 (ulpExp x + 53).
Proof.
  intros Hx. unfold roundPos. rewrite pow2_add.
  rewrite (Qmult_comm (pow2 (ulpExp x)) (pow2 53)).
  apply Qmult_le_compat_r; [|apply Qlt_le_weak, pow2_pos].
  rewrite <- (pow2_inject 53) by lia. rewrite <- Zle_Qle.
  rewrite <- (rne_Z (2 ^ 53)). apply rne_mono.
  rewrite (pow2_inject 53) by lia. apply Qlt_le_weak, scaled_lt, below_next_binade, Hx.
Qed.

Lemma roundPos_ge_pow (x : Q) :
  0 < x -> ulpExp x = (ilog2 x - 52)%Z -> pow2 (ulpExp x + 52) <= roundPos x.
Proof.
  intros Hx He. unfold roundPos. rewrite pow2_add.
  rewrite (Qmult_comm (pow2 (ulpExp x)) (pow2 52)).
  apply Qmult_le_compat_r; [|apply Qlt_le_weak, pow2_pos].
  rewrite <- (pow2_inject 52) by lia. rewrite <- Zle_Qle.
  rewrite <- (rne_Z (2 ^ 52)). apply rne_mono.
  rewrite (pow2_inject 52) by lia. apply scaled_ge.
  destruct (ilog2_spec x Hx) as [S _].
  replace (ulpExp x + 52)%Z with (ilog2 x) by lia. exact S.
Qed.

Lemma roundPos_mono (x y : Q) : 0 <= x -> x <= y -> roundPos x <= roundPos y.
Proof.
  intros Hx Hxy.
  destruct (Qlt_le_dec 0 x) as [Px | Zx].
  2:{ rewrite (roundPos_zero x) by lra. apply roundPos_nonneg. lra. }
  assert (Py : 0 < y) by lra.
  pose proof (ulpExp_mono x y Px Hxy) as He.
  destruct (Z.eq_dec (ulpExp x) (ulpExp y)) as [E | NE].
  - unfold roundPos. rewrite E.
    apply Qmult_le_compat_r; [|apply Qlt_le_weak, pow2_pos].
    rewrite <- Zle_Qle. apply rne_mono.
    apply Qmult_le_compat_r; [exact Hxy|].
    apply Qlt_le_weak, Qinv_lt_0_compat, pow2_pos.
  - apply Qle_trans with (pow2 (ulpExp x + 53)); [apply roundPos_le_pow, Px|].
    apply Qle_trans with (pow2 (ulpExp y + 52)); [apply pow2_le; lia|].
    apply roundPos_ge_pow; [exact Py|].
    pose proof (ulpExp_ge x). unfold ulpExp in *. lia.
Qed.

(** A value with at most 53 significant bits and an exponent of -1074 or
    more is not changed. *)
Lemma roundPos_fix (m E : Z) :
  (0 <= m < 2 ^ 53)%Z -> (-1074 <= E)%Z ->
  roundPos (inject_Z m * pow2 E) == inject_Z m * pow2 E.
Proof.
  intros Hm HE. set (x := inject_Z m * pow2 E).
  destruct (Z.eq_dec m 0) as [-> | Hm0].
  { assert (X0 : x == 0) by (unfold x; ring).
    rewrite (roundPos_zero x X0). symmetry. exact X0. }
  assert (Hx : 0 < x).
  { unfold x. apply Qmult_lt_0_compat; [|apply pow2_pos].
    change 0 with (inject_Z 0). rewrite <- Zlt_Qlt. lia. }
  assert (Hlt : x < pow2 (E + 53)).
  { unfold x. rewrite pow2_add, (Qmult_comm (pow2 E)).
    apply Qmult_lt_compat_r; [apply pow2_pos|].
    rewrite <- (pow2_inject 53) by lia. rewrite <- Zlt_Qlt. lia. }
  pose proof (ilog2_lt_pow2 x (E + 53) Hx Hlt) as Hl.
  assert (He : (ulpExp x <= E)%Z) by (unfold ulpExp; lia).
  unfold roundPos.
  assert (Hq : x / pow2 (ulpExp x) == inject_Z (m * 2 ^ (E - ulpExp x))).
  { rewrite inject_Z_mult, pow2_inject by lia. rewrite pow2_sub.
    generalize (pow2_pos (ulpExp x)). generalize (pow2 (ulpExp x)). intros c Hc.
    unfold x. field. lra. }
  rewrite (rne_comp _ _ Hq), rne_Z, <- Hq. symmetry. apply scaled.
Qed.

Lemma roundPos_error (x : Q) :
  Qabs (roundPos x - x) <= pow2 (ulpExp x) * (1 # 2).
Proof.
  unfold roundPos. set (e := ulpExp x). set (q := x / pow2 e).
  assert (E : inject_Z (rne q) * pow2 e - x == (inject_Z (rne q) - q) * pow2 e).
  { unfold q. pose proof (pow2_pos e). field. lra. }
  rewrite E, Qabs_Qmult, (Qabs_pos (pow2 e)) by apply Qlt_le_weak, pow2_pos.
  rewrite (Qmult_comm (pow2 e)).
  apply Qmult_le_compat_r; [apply rne_error | apply Qlt_le_weak, pow2_pos].
Qed.

(** The result of rounding has at most 53 significant bits. *)
Lemma roundPos_repr (x : Q) :
  0 <= x ->
  exists m E, (0 <= m < 2 ^ 53)%Z /\ (-1074 <= E)%Z /\ roundPos x == inject_Z m * pow2 E.
Proof.
  intros Hx. destruct (Qlt_le_dec 0 x) as [Px | Zx].
  2:{ exists 0%Z, 0%Z. split; [lia|]. split; [lia|]. rewrite (roundPos_zero x) by lra. ring. }
  pose proof (ulpExp_ge x) as He.
  assert (Hm : (0 <= rne (x / pow2 (ulpExp x)) <= 2 ^ 53)%Z).
  { split.
    - apply rne_nonneg. apply Qle_shift_div_l; [apply pow2_pos|]. lra.
    - rewrite <- (rne_Z (2 ^ 53)). apply rne_mono.
      rewrite (pow2_inject 53) by lia.
      apply Qlt_le_weak, scaled_lt, below_next_binade, Px. }
  destruct (Z.eq_dec (rne (x / pow2 (ulpExp x))) (2 ^ 53)) as [E | NE].
  - exists 1%Z, (ulpExp x + 53)%Z. split; [lia|]. split; [lia|].
    unfold roundPos. rewrite E, pow2_inject by lia.
    rewrite pow2_add. ring.
  - exists (rne (x / pow2 (ulpExp x))), (ulpExp x). split; [lia|]. split; [lia|].
    reflexivity.
Qed.

Lemma roundPos_comp (x y : Q) : 0 <= x -> x == y -> roundPos x == roundPos y.
Proof.
  intros Hx E. destruct (Qlt_le_dec 0 x) as [Px | Zx].
  - unfold roundPos. rewrite <- (ulpExp_comp x y Px E).
    assert (Q : x / pow2 (ulpExp x) == y / pow2 (ulpExp x)).
    { unfold Qdiv. generalize (/ pow2 (ulpExp x)). intros c. rewrite E. reflexivity. }
    rewrite (rne_comp _ _ Q). reflexivity.
  - rewrite (roundPos_zero x), (roundPos_zero y) by lra. reflexivity.
Qed.

(** Rounding to binary64. *)
Lemma round64_pos (x : Q) : 0 <= x -> round64 x == roundPos x.
Proof.
  intros Hx. unfold round64. rewrite Qred_correct.
  apply Qlt_bool_false in Hx. rewrite Hx. reflexivity.
Qed.

Lemma round64_neg (x : Q) : x < 0 -> round64 x == - roundPos (- x).
Proof.
  intros Hx. unfold round64. rewrite Qred_correct.
  apply Qlt_bool_iff in Hx. rewrite Hx. reflexivity.
Qed.

Lemma round64_comp (x y : Q) : x == y -> round64 x = round64 y.
Proof.
  intros E. unfold round64. apply Qred_complete.
  destruct (Qlt_bool x 0) eqn:Sx.
  - assert (Sy : Qlt_bool y 0 = true).
    { apply Qlt_bool_iff. apply Qlt_bool_iff in Sx. lra. }
    rewrite Sy. apply Qlt_bool_iff in Sx.
    rewrite (roundPos_comp (- x) (- y)); [reflexivity | lra | lra].
  - assert (Sy : Qlt_bool y 0 = false).
    { apply Qlt_bool_false. apply Qlt_bool_false in Sx. lra. }
    rewrite Sy. apply Qlt_bool_false in Sx.
    apply roundPos_comp; assumption.
Qed.


End Rounding.

#[local] Instance round64_proper : Proper (Qeq ==> Qeq) Binary64.round64.
Proof. intros x y E. rewrite (round64_comp x y E). reflexivity. Qed.

Section RoundingProperties.
Import Binary64.
Local Open Scope Q_scope.

Lemma round64_zero : round64 0 == 0.
Proof. reflexivity. Qed.

(** Rounding on some numbers: decimal literals, ties, which go to the
    even significand, and the subnormal range. *)
Lemma round64_examples :
  round64 (1 # 10) = 3602879701896397 # 36028797018963968 /\
  round64 (- (1 # 10)) = - 3602879701896397 # 36028797018963968 /\
  round64 (1 # 3) = 6004799503160661 # 18014398509481984 /\
  round64 (inject_Z (2 ^ 53 + 1)) == inject_Z (2 ^ 53) /\
  round64 (inject_Z (2 ^ 53 + 3)) == inject_Z (2 ^ 53 + 4) /\
  fadd (double (1 # 10)) (double (2 # 10)) = 1351079888211149 # 4503599627370496 /\
  round64 (pow2 (-1075)) == 0 /\
  round64 (3 * pow2 (-1075)) == pow2 (-1073) /\
  round64 (pow2 (-1074)) == pow2 (-1074).
Proof. repeat apply conj; vm_compute; reflexivity. Qed.

Lemma round64_mono (x y : Q) : x <= y -> round64 x <= round64 y.
Proof.
  intros H. destruct (Qlt_le_dec x 0) as [Nx | Px]; destruct (Qlt_le_dec y 0) as [Ny | Py].
  - rewrite (round64_neg x Nx), (round64_neg y Ny).
    apply Qopp_le_compat. apply roundPos_mono; lra.
  - rewrite (round64_neg x Nx), (round64_pos y Py).
    pose proof (roundPos_nonneg (- x)). pose proof (roundPos_nonneg y Py). lra.
  - lra.
  - rewrite (round64_pos x Px), (round64_pos y Py). apply roundPos_mono; assumption.
Qed.

Lemma round64_fix (m E : Z) :
  (- 2 ^ 53 < m < 2 ^ 53)%Z -> (-1074 <= E)%Z ->
  round64 (inject_Z m * pow2 E) == inject_Z m * pow2 E.
Proof.
  intros Hm HE. pose proof (pow2_pos E) as PE.
  destruct (Z_lt_le_dec m 0) as [Nm | Pm].
  - assert (Hx : inject_Z m * pow2 E < 0).
    { setoid_replace (inject_Z m * pow2 E) with (- (inject_Z (- m) * pow2 E))
        by (rewrite inject_Z_opp; ring).
      assert (0 < inject_Z (- m) * pow2 E); [|lra].
      apply Qmult_lt_0_compat; [|exact PE].
      change 0 with (inject_Z 0). rewrite <- Zlt_Qlt. lia. }
    rewrite (round64_neg _ Hx).
    assert (E1 : - (inject_Z m * pow2 E) == inject_Z (- m) * pow2 E)
      by (rewrite inject_Z_opp; ring).
    assert (P1 : 0 <= - (inject_Z m * pow2 E)) by lra.
    rewrite (roundPos_comp _ _ P1 E1).
    rewrite roundPos_fix by lia. rewrite inject_Z_opp. ring.
  - assert (Hx : 0 <= inject_Z m * pow2 E).
    { apply Qmult_le_0_compat; [|lra].
      change 0 with (inject_Z 0). rewrite <- Zle_Qle. lia. }
    rewrite (round64_pos _ Hx). apply roundPos_fix; lia.
Qed.

Lemma round64_repr (x : Q) :
  exists m E, (- 2 ^ 53 < m < 2 ^ 53)%Z /\ (-1074 <= E)%Z /\ round64 x == inject_Z m * pow2 E.
Proof.
  destruct (Qlt_le_dec x 0) as [Nx | Px].
  - destruct (roundPos_repr (- x)) as (m & E & Hm & HE & R); [lra|].
    exists (- m)%Z, E. split; [lia|]. split; [exact HE|].
    rewrite (round64_neg x Nx), R, inject_Z_opp. ring.
  - destruct (roundPos_repr x Px) as (m & E & Hm & HE & R).
    exists m, E. split; [lia|]. split; [exact HE|].
    rewrite (round64_pos x Px). exact R.
Qed.

Lemma round64_idem (x : Q) : round64 (round64 x) == round64 x.
Proof.
  destruct (round64_repr x) as (m & E & Hm & HE & R).
  rewrite (round64_comp _ _ R), R. apply round64_fix; assumption.
Qed.

Lemma round64_pow2 (e : Z) : (-1074 <= e)%Z -> round64 (pow2 e) == pow2 e.
Proof.
  intros He. pose proof (round64_fix 1 e ltac:(lia) He) as F.
  change (inject_Z 1) with 1 in F. rewrite Qmult_1_l in F. exact F.
Qed.

Lemma round64_Z (n : Z) : (- 2 ^ 53 < n < 2 ^ 53)%Z -> round64 (inject_Z n) == inject_Z n.
Proof.
  intros Hn. pose proof (round64_fix n 0 Hn ltac:(lia)) as F.
  change (pow2 0) with 1 in F. rewrite Qmult_1_r in F. exact F.
Qed.

(** The binary64 numbers. *)
Lemma isDouble_iff (x : Q) : isDouble x = true <-> round64 x == x.
Proof. unfold isDouble. apply Qeq_bool_iff. Qed.

Lemma isDouble_round64 (x : Q) : isDouble (round64 x) = true.
Proof. apply isDouble_iff, round64_idem. Qed.

Lemma isDouble_repr (x : Q) :
  isDouble x = true ->
  exists m E, (- 2 ^ 53 < m < 2 ^ 53)%Z /\ (-1074 <= E)%Z /\ x == inject_Z m * pow2 E.
Proof.
  intros H. apply isDouble_iff in H.
  destruct (round64_repr x) as (m & E & Hm & HE & R).
  exists m, E. split; [exact Hm|]. split; [exact HE|]. rewrite <- H. exact R.
Qed.

(** Every binary64 number is a multiple of [2 ^ -1074]. *)
Lemma isDouble_grid (x : Q) :
  isDouble x = true -> exists k, x == inject_Z k * pow2 (-1074).
Proof.
  intros H. destruct (isDouble_repr x H) as (m & E & _ & HE & R).
  exists (m * 2 ^ (E + 1074))%Z.
  rewrite R, inject_Z_mult, pow2_inject by lia.
  rewrite <- Qmult_assoc, <- pow2_add.
  replace (E + 1074 + -1074)%Z with E by lia. reflexivity.
Qed.

(** The sign of a rounded difference of two binary64 numbers is the sign
    of the difference. *)
Lemma fsub_pos (a b : Q) :
  isDouble a = true -> isDouble b = true -> (0 < fsub b a <-> a < b).
Proof.
  intros Ha Hb. unfold fsub. split.
  - intros H. apply Qnot_le_lt. intros L.
    assert (M : round64 (b - a) <= round64 0) by (apply round64_mono; lra).
    rewrite round64_zero in M. lra.
  - intros H.
    destruct (isDouble_grid a Ha) as [ka Ea]. destruct (isDouble_grid b Hb) as [kb Eb].
    pose proof (pow2_pos (-1074)) as P.
    assert (D : b - a == inject_Z (kb - ka) * pow2 (-1074)).
    { rewrite Ea, Eb. unfold Z.sub. rewrite inject_Z_plus, inject_Z_opp. ring. }
    assert (K : (1 <= kb - ka)%Z).
    { assert (0 < kb - ka)%Z; [|lia].
      rewrite Zlt_Qlt. change (inject_Z 0) with 0.
      apply (Qmult_lt_r _ _ (pow2 (-1074)) P). rewrite <- D. lra. }
    assert (L : pow2 (-1074) <= b - a).
    { rewrite D. setoid_replace (pow2 (-1074)) with (inject_Z 1 * pow2 (-1074)) at 1
        by (change (inject_Z 1) with 1; ring).
      apply Qmult_le_compat_r; [|lra]. rewrite <- Zle_Qle. exact K. }
    apply round64_mono in L.
    rewrite (round64_pow2 (-1074)) in L by lia.
    lra.
Qed.

(** A positive binary64 number in terms of its last place. *)
Lemma isDouble_canonical (x : Q) :
  isDouble x = true -> 0 < x ->
  exists m, (0 < m < 2 ^ 53)%Z /\ x == inject_Z m * pow2 (ulpExp x).
Proof.
  intros H Hx. apply isDouble_iff in H.
  rewrite round64_pos in H by lra. unfold roundPos in H.
  set (m := rne (x / pow2 (ulpExp x))) in *.
  pose proof (pow2_pos (ulpExp x)) as P.
  exists m. split; [|symmetry; exact H].
  split.
  - rewrite Zlt_Qlt. change (inject_Z 0) with 0.
    apply (Qmult_lt_r _ _ (pow2 (ulpExp x)) P). rewrite H. lra.
  - rewrite Zlt_Qlt, (pow2_inject 53) by lia.
    apply (Qmult_lt_r _ _ (pow2 (ulpExp x)) P). rewrite H, <- pow2_add.
    replace (53 + ulpExp x)%Z with (ulpExp x + 53)%Z by lia.
    apply below_next_binade, Hx.
Qed.

Lemma fsub_half_le (top : Q) : isDouble top = true -> fsub top (1 # 2) <= top.
Proof.
  intros H. apply isDouble_iff in H. unfold fsub.
  rewrite <- H at 2. apply round64_mono. lra.
Qed.

(** Subtracting 0.5 from a binary64 number between 0.5 and [2 ^ 52] is
    exact. *)
Lemma fsub_half_exact (top : Q) :
  isDouble top = true -> 1 # 2 <= top -> top <= pow2 52 ->
  fsub top (1 # 2) == top - (1 # 2).
Proof.
  intros H Lo Hi. assert (Hx : 0 < top) by lra.
  destruct (isDouble_canonical top H Hx) as (m & Hm & R).
  set (e := ulpExp top) in *.
  assert (He : (-53 <= e <= 0)%Z).
  { assert (L1 : (-1 <= ilog2 top)%Z) by (apply ilog2_ge_pow2; exact Lo).
    assert (L2 : (ilog2 top <= 52)%Z).
    { destruct (ilog2_spec top Hx) as [S _].
      apply (Qpower_le_compat_l_inv 2); [|reflexivity].
      apply Qle_trans with top; assumption. }
    unfold e, ulpExp. lia. }
  pose proof (pow2_pos e) as P.
  unfold fsub.
  destruct (Z.eq_dec e 0) as [E0 | NE].
  - rewrite E0 in R. change (pow2 0) with 1 in R. rewrite Qmult_1_r in R.
    assert (Hm2 : (m <= 2 ^ 52)%Z).
    { rewrite Zle_Qle, (pow2_inject 52), <- R by lia. exact Hi. }
    assert (D : top - (1 # 2) == inject_Z (2 * m - 1) * pow2 (-1)).
    { rewrite R. unfold Z.sub. rewrite inject_Z_plus, inject_Z_mult, inject_Z_opp.
      change (pow2 (-1)) with (1 # 2). change (inject_Z 1) with 1.
      change (inject_Z 2) with 2. ring. }
    rewrite D. apply round64_fix; lia.
  - assert (D : top - (1 # 2) == inject_Z (m - 2 ^ (-1 - e)) * pow2 e).
    { rewrite R. unfold Z.sub at 1. rewrite inject_Z_plus, inject_Z_opp.
      rewrite (pow2_inject (-1 - e)) by lia. rewrite pow2_sub.
      change (pow2 (-1)) with (1 # 2). field. lra. }
    assert (M : (0 <= m - 2 ^ (-1 - e))%Z).
    { assert (2 ^ (-1 - e) <= m)%Z; [|lia].
      rewrite Zle_Qle, (pow2_inject (-1 - e)) by lia.
      apply (Qmult_le_r _ _ (pow2 e) P). rewrite <- R, <- pow2_add.
      replace (-1 - e + e)%Z with (-1)%Z by lia. exact Lo. }
    assert (M2 : (0 < 2 ^ (-1 - e))%Z) by (apply Z.pow_pos_nonneg; lia).
    rewrite D. apply round64_fix; lia.
Qed.

(** The relative error of rounding a number of the normal range. *)
Lemma round64_upper (x : Q) :
  pow2 (-1022) <= x -> round64 x <= x * (1 + pow2 (-53)).
Proof.
  intros H. assert (Hx : 0 < x) by (pose proof (pow2_pos (-1022)); lra).
  rewrite round64_pos by lra.
  pose proof (roundPos_error x) as Er.
  apply Qabs_Qle_condition in Er. destruct Er as [_ Er].
  assert (L : (-1022 <= ilog2 x)%Z) by (apply ilog2_ge_pow2; exact H).
  assert (He : ulpExp x = (ilog2 x - 52)%Z) by (unfold ulpExp; lia).
  destruct (ilog2_spec x Hx) as [S _].
  assert (U : pow2 (ulpExp x) * (1 # 2) <= x * pow2 (-53)).
  { rewrite He. setoid_replace (pow2 (ilog2 x - 52) * (1 # 2)) with (pow2 (ilog2 x) * pow2 (-53)).
    - apply Qmult_le_compat_r; [exact S | apply Qlt_le_weak, pow2_pos].
    - replace (ilog2 x - 52)%Z with (ilog2 x + -53 + 1)%Z by lia.
      rewrite pow2_succ, pow2_add. ring. }
  lra.
Qed.

(** The greatest binary64 number below 1. *)
Lemma isDouble_below_one (r : Q) :
  isDouble r = true -> r < 1 -> r <= 1 - pow2 (-53).
Proof.
  intros H H1. destruct (Qlt_le_dec r (1 # 2)) as [Small | Big].
  { assert (pow2 (-53) <= 1 # 2); [|lra]. change (1 # 2) with (pow2 (-1)).
    apply pow2_le. lia. }
  assert (Hx : 0 < r) by lra.
  destruct (isDouble_canonical r H Hx) as (m & Hm & R).
  assert (L : ilog2 r = (-1)%Z) by (apply ilog2_unique; [exact Big | exact H1]).
  assert (He : ulpExp r = (-53)%Z) by (unfold ulpExp; rewrite L; reflexivity).
  rewrite He in R. pose proof (pow2_pos (-53)) as P.
  assert (M : (m <= 2 ^ 53 - 1)%Z).
  { assert (m < 2 ^ 53)%Z; [|lia].
    rewrite Zlt_Qlt, (pow2_inject 53) by lia.
    apply (Qmult_lt_r _ _ (pow2 (-53)) P). rewrite <- R, <- pow2_add. exact H1. }
  rewrite R.
  setoid_replace (1 - pow2 (-53)) with (inject_Z (2 ^ 53 - 1) * pow2 (-53)).
  - apply Qmult_le_compat_r; [|lra]. rewrite <- Zle_Qle. exact M.
  - unfold Z.sub. rewrite inject_Z_plus, inject_Z_opp, (pow2_inject 53) by lia.
    change (inject_Z 1) with 1.
    setoid_replace ((pow2 53 + - 1) * pow2 (-53)) with (pow2 53 * pow2 (-53) - pow2 (-53)) by ring.
    rewrite <- pow2_add. reflexivity.
Qed.

(** A product that stays below [(1 - 2 ^ -53) * b] does not round up to
    [b]. *)
Lemma fmul_below (x b : Q) :
  0 <= x -> 1 <= b -> x <= (1 - pow2 (-53)) * b -> round64 x < b.
Proof.
  intros Hx Hb H. pose proof (pow2_pos (-53)) as P.
  destruct (Qlt_le_dec x (1 # 2)) as [Small | Big].
  - apply Qle_lt_trans with (1 # 2); [|lra].
    pose proof (round64_pow2 (-1) ltac:(lia)) as F. change (pow2 (-1)) with (1 # 2) in F.
    rewrite <- F. apply round64_mono. lra.
  - apply Qle_lt_trans with (x * (1 + pow2 (-53))).
    + apply round64_upper. apply Qle_trans with (1 # 2); [|exact Big].
      change (1 # 2) with (pow2 (-1)). apply pow2_le. lia.
    + apply Qle_lt_trans with ((1 - pow2 (-53)) * b * (1 + pow2 (-53))).
      * apply Qmult_le_compat_r; [exact H | lra].
      * setoid_replace ((1 - pow2 (-53)) * b * (1 + pow2 (-53)))
          with (b - b * (pow2 (-53) * pow2 (-53))) by ring.
        assert (0 < b * (pow2 (-53) * pow2 (-53))); [|lra].
        apply Qmult_lt_0_compat; [lra|]. apply Qmult_lt_0_compat; exact P.
Qed.


(** Halving a binary64 number of the normal range is exact. *)
Lemma fmul_half_exact (x : Q) :
  isDouble x = true -> x == 0 \/ pow2 (-1021) <= x -> fmul x 0.5 == x * 0.5.
Proof.
  intros H [Zx | L]; unfold fmul.
  - assert (E : x * 0.5 == 0) by (rewrite Zx; reflexivity).
    rewrite (round64_comp _ _ E), E. apply round64_zero.
  - assert (Hx : 0 < x) by (pose proof (pow2_pos (-1021)); lra).
    destruct (isDouble_canonical x H Hx) as (m & Hm & R).
    assert (He : (-1073 <= ulpExp x)%Z).
    { pose proof (ilog2_ge_pow2 x (-1021) L). unfold ulpExp. lia. }
    assert (D : x * 0.5 == inject_Z m * pow2 (ulpExp x - 1)).
    { rewrite pow2_sub. change (pow2 1) with 2. rewrite R at 1.
      pose proof (pow2_pos (ulpExp x)). field. }
    rewrite D. apply round64_fix; lia.
Qed.

Lemma fmul_comm (x y : Q) : fmul x y = fmul y x.
Proof. unfold fmul. apply round64_comp. ring. Qed.

End RoundingProperties.

(** ** The near-tie rule *)

Lemma withinHalf_iff (top c : Scored) :
  withinHalf top c = true <-> (score top - 0.5 <= score c)%Q.
Proof. unfold withinHalf. apply Qge_bool_iff. Qed.

Lemma withinHalf_self (top : Scored) : withinHalf top top = true.
Proof. apply withinHalf_iff. lra. Qed.

Lemma filter_none {A} (f : A -> bool) (l : list A) :
  (forall x, In x l -> f x = false) -> filter f l = [].
Proof.
  induction l as [|x l IH]; intros H; simpl; [reflexivity|].
  rewrite (H x (or_introl eq_refl)). apply IH. intros y Hy. apply H. right. exact Hy.
Qed.

(** In a sorted array whose second element is more than 0.5 below the
    first, nothing but the first is within 0.5 of it. *)
Lemma eligible_single (top second : Scored) (rest : list Scored) :
  StronglySorted scoreDesc (top :: second :: rest) ->
  withinHalf top second = false ->
  filter (withinHalf top) (top :: second :: rest) = [top].
Proof.
  intros Hs Hsec. simpl. rewrite withinHalf_self, Hsec. f_equal.
  apply filter_none. intros z Hz.
  apply StronglySorted_inv in Hs. destruct Hs as [Hs _].
  apply StronglySorted_inv in Hs. destruct Hs as [_ Hall].
  rewrite Forall_forall in Hall. specialize (Hall z Hz).
  unfold withinHalf in *. apply Qge_bool_false in Hsec. apply Qge_bool_false.
  unfold scoreDesc in Hall. lra.
Qed.

(** The winner in terms of the eligible set. *)
Lemma selectWinner_eligible (scored : list Scored) (top : Scored) (rest : list Scored) (r : Q) :
  jsSort byScoreDesc scored = top :: rest ->
  let eligible := filter (withinHalf top) (top :: rest) in
  (1 <= List.length eligible)%nat /\
  ((1 < List.length eligible)%nat ->
     selectWinner scored r = arrayAt eligible (randomIndex r (List.length eligible))) /\
  ((List.length eligible <= 1)%nat ->
     eligible = [top] /\ selectWinner scored r = Some top).
Proof.
  intros Hsort eligible.
  pose proof (jsSort_score_sorted scored) as Hs. rewrite Hsort in Hs.
  unfold selectWinner. rewrite Hsort.
  destruct rest as [|second rest'].
  - subst eligible. simpl. rewrite withinHalf_self. simpl.
    repeat split; try lia; reflexivity.
  - destruct (withinHalf top second) eqn:E.
    + subst eligible. simpl. rewrite withinHalf_self, E. simpl.
      repeat split; try lia; reflexivity.
    + subst eligible. rewrite (eligible_single top second rest' Hs E). simpl.
      repeat split; try lia; reflexivity.
Qed.

Lemma arrayAt_In {A} (l : list A) (i : Z) (x : A) : arrayAt l i = Some x -> In x l.
Proof.
  unfold arrayAt. destruct (i <? 0); [discriminate|]. apply nth_error_In.
Qed.

Lemma arrayAt_nat {A} (l : list A) (k : nat) : arrayAt l (Z.of_nat k) = nth_error l k.
Proof.
  unfold arrayAt. destruct (Z.ltb_spec (Z.of_nat k) 0) as [E|E]; [lia|].
  now rewrite Nat2Z.id.
Qed.

Lemma arrayAt_in_range {A} (l : list A) (i : Z) :
  0 <= i < Z.of_nat (List.length l) -> exists x, arrayAt l i = Some x.
Proof.
  intros Hi. unfold arrayAt. destruct (Z.ltb_spec i 0) as [E|E]; [lia|].
  destruct (nth_error l (Z.to_nat i)) eqn:N; [eauto|].
  apply nth_error_None in N. lia.
Qed.

(** ** The near-tie rule in binary64 *)

Section NearTie64.
Import Binary64.
Local Open Scope Q_scope.

Lemma fsub_half (top : Q) : fsub top 0.5 = fsub top (1 # 2).
Proof. unfold fsub. apply round64_comp. setoid_replace 0.5 with (1 # 2) by reflexivity. reflexivity. Qed.

Lemma insertBy_sorted64 (x : Scored) (l : list Scored) :
  isDouble (score x) = true ->
  Forall (fun c => isDouble (score c) = true) l ->
  StronglySorted scoreDesc l -> StronglySorted scoreDesc (insertBy byScoreDesc x l).
Proof.
  intros Hx. induction l as [|y ys IH]; intros Hd Hs; cbn [insertBy].
  - constructor; constructor.
  - apply StronglySorted_inv in Hs. destruct Hs as [Hys Hall].
    apply Forall_cons_iff in Hd. destruct Hd as [Hy Hd].
    destruct (Qlt_bool 0 (byScoreDesc x y)) eqn:E.
    + apply Qlt_bool_iff in E. unfold byScoreDesc in E.
      apply (fsub_pos _ _ Hx Hy) in E.
      constructor; [apply IH; assumption|].
      apply Forall_forall. intros z Hz.
      apply (Permutation_in _ (Permutation_sym (insertBy_perm byScoreDesc x ys))) in Hz.
      destruct Hz as [<- | Hz].
      * unfold scoreDesc. lra.
      * rewrite Forall_forall in Hall. apply Hall, Hz.
    + apply Qlt_bool_false in E. unfold byScoreDesc in E.
      assert (L : score y <= score x).
      { apply Qnot_lt_le. intros C. apply (fsub_pos _ _ Hx Hy) in C. lra. }
      constructor; [constructor; assumption|].
      constructor; [exact L|].
      rewrite Forall_forall in Hall |- *. intros z Hz.
      specialize (Hall z Hz). unfold scoreDesc in *. lra.
Qed.

Lemma jsSort_sorted64 (l : list Scored) :
  Forall (fun c => isDouble (score c) = true) l ->
  StronglySorted scoreDesc (jsSort byScoreDesc l).
Proof.
  induction l as [|x xs IH]; intros Hd; cbn [jsSort]; [constructor|].
  apply Forall_cons_iff in Hd. destruct Hd as [Hx Hd].
  apply insertBy_sorted64; [exact Hx | | apply IH, Hd].
  apply Forall_forall. intros c Hc. apply jsSort_In in Hc.
  rewrite Forall_forall in Hd. apply Hd, Hc.
Qed.

Lemma withinHalf64_iff (top c : Scored) :
  withinHalf top c = true <-> fsub (score top) 0.5 <= score c.
Proof. unfold withinHalf. apply Qge_bool_iff. Qed.

Lemma withinHalf64_self (top : Scored) :
  isDouble (score top) = true -> withinHalf top top = true.
Proof.
  intros H. apply withinHalf64_iff. rewrite fsub_half. apply fsub_half_le, H.
Qed.

Lemma eligible64_single (top second : Scored) (rest : list Scored) :
  isDouble (score top) = true ->
  StronglySorted scoreDesc (top :: second :: rest) ->
  withinHalf top second = false ->
  filter (withinHalf top) (top :: second :: rest) = [top].
Proof.
  intros Hd Hs Hsec. cbn [filter]. rewrite (withinHalf64_self top Hd), Hsec. f_equal.
  apply filter_none. intros z Hz.
  apply StronglySorted_inv in Hs. destruct Hs as [Hs _].
  apply StronglySorted_inv in Hs. destruct Hs as [_ Hall].
  rewrite Forall_forall in Hall. specialize (Hall z Hz).
  unfold withinHalf in *. apply Qge_bool_false in Hsec. apply Qge_bool_false.
  unfold scoreDesc in Hall. lra.
Qed.

Lemma selectWinner64_eligible (scored : list Scored) (top : Scored) (rest : list Scored)
    (r : Q) :
  Forall (fun c => isDouble (score c) = true) scored ->
  jsSort byScoreDesc scored = top :: rest ->
  let eligible := filter (withinHalf top) (top :: rest) in
  (1 <= List.length eligible)%nat /\
  ((1 < List.length eligible)%nat ->
     selectWinner scored r = arrayAt eligible (randomIndex r (List.length eligible))) /\
  ((List.length eligible <= 1)%nat ->
     eligible = [top] /\ selectWinner scored r = Some top).
Proof.
  intros Hd Hsort eligible.
  pose proof (jsSort_sorted64 scored Hd) as Hs. rewrite Hsort in Hs.
  assert (Htop : isDouble (score top) = true).
  { rewrite Forall_forall in Hd. apply Hd. apply (jsSort_In byScoreDesc).
    rewrite Hsort. left. reflexivity. }
  unfold selectWinner. rewrite Hsort.
  destruct rest as [|second rest'].
  - subst eligible. cbn [filter]. rewrite (withinHalf64_self top Htop). cbn [List.length].
    repeat split; try lia; reflexivity.
  - destruct (withinHalf top second) eqn:E.
    + subst eligible. cbn [filter]. rewrite (withinHalf64_self top Htop), E.
      cbn [List.length]. repeat split; try lia; reflexivity.
    + subst eligible. rewrite (eligible64_single top second rest' Htop Hs E).
      cbn [List.length]. repeat split; try lia; reflexivity.
Qed.

(** The random index is an index of the array, whatever the rounding of
    the product. *)
Lemma randomIndex64_range (r : Q) (n : nat) :
  (0 < n)%nat -> isDouble r = true -> 0 <= r -> r < 1 ->
  (0 <= randomIndex r n < Z.of_nat n)%Z.
Proof.
  intros Hn Hd H0 H1. unfold randomIndex, fmul.
  set (m := inject_Z (Z.of_nat n)).
  assert (Hm : 1 <= m).
  { unfold m. change 1 with (inject_Z 1). rewrite <- Zle_Qle. lia. }
  pose proof (isDouble_below_one r Hd H1) as Hr.
  pose proof (pow2_pos (-53)) as P.
  split.
  - rewrite <- (Qfloor_Z 0). apply Qfloor_resp_le.
    change (inject_Z 0) with 0. rewrite <- round64_zero.
    apply round64_mono. apply Qmult_le_0_compat; lra.
  - assert (U : round64 (r * m) < m).
    { apply fmul_below; [apply Qmult_le_0_compat; lra | exact Hm |].
      apply Qmult_le_compat_r; lra. }
    rewrite Zlt_Qlt. eapply Qle_lt_trans; [apply Qfloor_le | exact U].
Qed.

(** Every random number from [k / n] up to [(k + 1) / n], less one part in
    [2 ^ 53], selects the index [k]. *)
Lemma randomIndex64_slot (r : Q) (n k : nat) :
  (0 < n)%nat -> (Z.of_nat k < 2 ^ 53)%Z ->
  inject_Z (Z.of_nat k) / inject_Z (Z.of_nat n) <= r ->
  r <= (1 - pow2 (-53)) * (inject_Z (Z.of_nat k + 1) / inject_Z (Z.of_nat n)) ->
  randomIndex r n = Z.of_nat k.
Proof.
  intros Hn Hk Hlo Hhi. unfold randomIndex, fmul.
  set (m := inject_Z (Z.of_nat n)) in *.
  assert (Hm : 0 < m) by (apply inject_nat_pos, Hn).
  pose proof (pow2_pos (-53)) as P.
  assert (K0 : 0 <= inject_Z (Z.of_nat k)).
  { change 0 with (inject_Z 0). rewrite <- Zle_Qle. lia. }
  assert (L : inject_Z (Z.of_nat k) <= r * m).
  { setoid_replace (inject_Z (Z.of_nat k))
      with (inject_Z (Z.of_nat k) / m * m) by (field; lra).
    apply Qmult_le_compat_r; lra. }
  assert (U : r * m <= (1 - pow2 (-53)) * inject_Z (Z.of_nat k + 1)).
  { setoid_replace ((1 - pow2 (-53)) * inject_Z (Z.of_nat k + 1))
      with ((1 - pow2 (-53)) * (inject_Z (Z.of_nat k + 1) / m) * m) by (field; lra).
    apply Qmult_le_compat_r; lra. }
  assert (R1 : inject_Z (Z.of_nat k) <= round64 (r * m)).
  { rewrite <- (round64_Z (Z.of_nat k)) by lia. apply round64_mono, L. }
  assert (R2 : round64 (r * m) < inject_Z (Z.of_nat k + 1)).
  { apply fmul_below; [lra | | exact U].
    change 1 with (inject_Z 1). rewrite <- Zle_Qle. lia. }
  assert (F1 : (Z.of_nat k <= Qfloor (round64 (r * m)))%Z).
  { rewrite <- (Qfloor_Z (Z.of_nat k)). apply Qfloor_resp_le, R1. }
  assert (F2 : (Qfloor (round64 (r * m)) < Z.of_nat k + 1)%Z).
  { rewrite Zlt_Qlt. eapply Qle_lt_trans; [apply Qfloor_le | exact R2]. }
  lia.
Qed.

(** The scores the engine computes from binary64 ratings are binary64
    numbers. *)
Lemma isDouble_orZero (x : Q) : isDouble x = true -> isDouble (orZero x) = true.
Proof.
  intros H. unfold orZero. destruct (Qeq_bool x 0); [reflexivity | exact H].
Qed.

Lemma calculateFinalScore_double dateMs now s (b : Book) :
  isDouble (averageRating b) = true ->
  isDouble (calculateFinalScore dateMs now s b) = true.
Proof.
  intros H. apply isDouble_orZero in H. unfold calculateFinalScore.
  set (s0 := orZero (averageRating b)) in *.
  set (s1 := match behaviourProfile s with
             | Some p => if truthy (behaviourPreference (selections s))
                         then fadd s0 (applyBehaviourScoring b p
                                         (behaviourPreference (selections s)))
                         else s0
             | None => s0
             end).
  assert (H1 : isDouble s1 = true).
  { unfold s1, fadd. destruct (behaviourProfile s); [|exact H].
    destruct (truthy _); [apply isDouble_round64 | exact H]. }
  clearbody s1.
  destruct (truthy (backlogPreference (selections s)));
    destruct (truthy (riskPreference (selections s)));
    unfold fadd; try apply isDouble_round64; exact H1.
Qed.

End NearTie64.

Section Bonuses64.
Local Open Scope Q_scope.

(** The bonuses of [applyBehaviourScoring] are sums of 1.5, 1 and 0.5:
    binary64 computes them without rounding. *)
Lemma applyBehaviourScoring64_exact (b : Book) (p : Profile) (preference : string) :
  Binary64.applyBehaviourScoring b p preference == applyBehaviourScoring b p preference.
Proof.
  unfold Binary64.applyBehaviourScoring, applyBehaviourScoring, Binary64.fadd.
  destruct (negb (truthyO (dominantLength p)) && negb (truthyO (dominantEra p)));
    [reflexivity|].
  destruct (streq preference "familiar"); [|destruct (streq preference "different")].
  - destruct (truthyO (dominantLength p) && (0 <? pages b))%bool;
      destruct (sameAs (lengthOf (pages b)) (dominantLength p));
      destruct (truthyO (dominantEra p) && (0 <? publicationYear b))%bool;
      destruct (sameAs (eraOf (publicationYear b)) (dominantEra p));
      destruct (includesAuthor (topAuthors p) (author b)); reflexivity.
  - destruct (truthyO (dominantLength p) && (0 <? pages b))%bool;
      destruct (sameAs (lengthOf (pages b)) (dominantLength p));
      destruct (truthyO (dominantEra p) && (0 <? publicationYear b))%bool;
      destruct (sameAs (eraOf (publicationYear b)) (dominantEra p));
      destruct (includesAuthor (topAuthors p) (author b)); reflexivity.
  - reflexivity.
Qed.

(** Rounding the age of a book in years does not move it across a whole
    number of years. *)
Lemma yearsBetween64_ge (now added k : Z) :
  (1 <= k <= 3)%Z ->
  (inject_Z k <= Binary64.yearsBetween now added <-> inject_Z k <= yearsBetween now added).
Proof.
  intros Hk. unfold Binary64.yearsBetween, yearsBetween, Binary64.fdiv, Binary64.fsub.
  assert (Hc : msPerYear = 31536000000%Z) by reflexivity.
  set (C := inject_Z msPerYear).
  assert (HC : 0 < C) by reflexivity.
  assert (D : inject_Z now - inject_Z added == inject_Z (now - added)).
  { unfold Z.sub. rewrite inject_Z_plus, inject_Z_opp. reflexivity. }
  rewrite D. set (d := (now - added)%Z).
  assert (Fk : Binary64.round64 (inject_Z k) == inject_Z k) by (apply round64_Z; lia).
  assert (Scale : forall x, x == x / C * C) by (intros x; field; lra).
  split.
  - intros H. apply Qnot_lt_le. intros Hlt.
    assert (Hd : (d <= k * msPerYear - 1)%Z).
    { assert (d < k * msPerYear)%Z; [|lia].
      rewrite Zlt_Qlt, inject_Z_mult. fold C. rewrite (Scale (inject_Z d)).
      apply Qmult_lt_compat_r; assumption. }
    assert (F1 : Binary64.round64 (inject_Z d) <= inject_Z (k * msPerYear - 1)).
    { rewrite <- (round64_Z (k * msPerYear - 1)) by lia.
      apply round64_mono. rewrite <- Zle_Qle. exact Hd. }
    set (F := Binary64.round64 (inject_Z d)) in *.
    assert (F2 : F / C <= inject_Z k - 1 / C).
    { apply Qle_shift_div_r; [exact HC|].
      setoid_replace ((inject_Z k - 1 / C) * C) with (inject_Z k * C - 1) by (field; lra).
      unfold Z.sub in F1. rewrite inject_Z_plus, inject_Z_opp, inject_Z_mult in F1.
      exact F1. }
    assert (Small : inject_Z k * Binary64.pow2 (-53) <= 1 / C).
    { apply Qle_trans with (3 * Binary64.pow2 (-53)).
      - apply Qmult_le_compat_r; [|apply Qlt_le_weak, pow2_pos].
        change 3 with (inject_Z 3). rewrite <- Zle_Qle. lia.
      - vm_compute. discriminate. }
    assert (U : Binary64.round64 (F / C) < inject_Z k).
    { destruct (Qlt_le_dec (F / C) 0) as [Neg | Pos].
      - apply Qle_lt_trans with 0.
        + rewrite <- round64_zero. apply round64_mono. lra.
        + change 0 with (inject_Z 0). rewrite <- Zlt_Qlt. lia.
      - apply fmul_below; [exact Pos | change 1 with (inject_Z 1); rewrite <- Zle_Qle; lia |].
        lra. }
    lra.
  - intros H.
    assert (Hd : (k * msPerYear <= d)%Z).
    { rewrite Zle_Qle, inject_Z_mult. fold C. rewrite (Scale (inject_Z d)).
      apply Qmult_le_compat_r; [exact H | lra]. }
    rewrite <- Fk. apply round64_mono.
    apply Qle_shift_div_l; [exact HC|].
    unfold C. rewrite <- inject_Z_mult.
    rewrite <- (round64_Z (k * msPerYear)) by lia.
    apply round64_mono. rewrite <- Zle_Qle. exact Hd.
Qed.

Lemma applyBacklogScoring64_exact dateMs now (b : Book) (preference : string) :
  Binary64.applyBacklogScoring dateMs now b preference
  = applyBacklogScoring dateMs now b preference.
Proof.
  unfold Binary64.applyBacklogScoring, applyBacklogScoring.
  destruct (negb (truthyO (dateAdded b))); [reflexivity|].
  destruct (dateAdded b) as [d|]; [|reflexivity].
  destruct (dateMs d) as [added|]; [|reflexivity].
  assert (G : forall k, (k = 1 \/ k = 3)%Z ->
            Qge_bool (Binary64.yearsBetween now added) (inject_Z k)
            = Qge_bool (yearsBetween now added) (inject_Z k)).
  { intros k Hk.
    pose proof (yearsBetween64_ge now added k) as H.
    destruct (Qge_bool (yearsBetween now added) (inject_Z k)) eqn:E.
    - apply Qge_bool_iff. apply Qge_bool_iff in E. apply H; [lia | exact E].
    - apply Qge_bool_false. apply Qge_bool_false in E.
      apply Qnot_le_lt. intros C. apply H in C; [lra | lia]. }
  assert (L : forall k, (k = 1 \/ k = 3)%Z ->
            Qlt_bool (Binary64.yearsBetween now added) (inject_Z k)
            = Qlt_bool (yearsBetween now added) (inject_Z k)).
  { intros k Hk. specialize (G k Hk). unfold Qlt_bool, Qge_bool in *.
    rewrite G. reflexivity. }
  change 3 with (inject_Z 3). change 1 with (inject_Z 1).
  rewrite !G, !L by (left + right; reflexivity). reflexivity.
Qed.

End Bonuses64.

(** C1.  For every non-empty list of scored candidates, whose scores are
    binary64 numbers, the recommendation sorts it by score descending (the
    sorted array is a permutation of the input, in descending order, and its
    first element [top] has the greatest score); the eligible set is exactly
    the candidates whose score is at least [score top - 0.5], a difference
    that binary64 computes without rounding when the top score is between
    0.5 and [2 ^ 52], and [top] is one of them; when more than one candidate
    is eligible the winner is the eligible candidate at the index
    [floor (r * n)] for the random number [r], with the product rounded, an
    index of the array for every binary64 [r] in [0, 1), and each of the [n]
    eligible candidates is the winner for every random number from [k / n]
    up to [(k + 1) / n] less one part in [2 ^ 53]: intervals of the same
    length, a uniform draw; otherwise the winner is [top] whatever the random
    number; and whoever wins has a score of at least [score top - 0.5].
    With scores 5.0, 4.6 and 3.0 the eligible set is the candidates scored
    5.0 and 4.6 and the one scored 3.0 never wins; with scores 4.4 and 3.9
    the candidate scored 3.9 is not eligible, since the binary64 numbers of
    4.4 and 3.9 are more than 0.5 apart (4.4 - 0.5 is 3.9000000000000004).
    The recommendation of a state is the winner so selected among its scored
    candidates, whose scores are binary64 numbers when the ratings are, and
    the no-match message when it has no candidate: with at least one
    candidate a recommendation is rendered, of one of the candidates. *)
Theorem selectWinner_near_tie :
  (forall scored : list Scored,
     scored <> [] ->
     Forall (fun c => Binary64.isDouble (score c) = true) scored ->
     exists top rest,
       jsSort Binary64.byScoreDesc scored = top :: rest /\
       Permutation scored (top :: rest) /\
       StronglySorted scoreDesc (top :: rest) /\
       (forall c, In c scored -> (score c <= score top)%Q) /\
       let eligible := filter (Binary64.withinHalf top) (top :: rest) in
       let n := List.length eligible in
       (forall c, In c eligible <->
                  In c scored /\ (Binary64.fsub (score top) 0.5 <= score c)%Q) /\
       ((0.5 <= score top)%Q -> (score top <= Binary64.pow2 52)%Q ->
          (Binary64.fsub (score top) 0.5 == score top - 0.5)%Q) /\
       In top eligible /\
       ((1 < n)%nat ->
          (forall r, Binary64.selectWinner scored r
                     = arrayAt eligible
                         (Qfloor (Binary64.fmul r (inject_Z (Z.of_nat n))))) /\
          (forall r, Binary64.isDouble r = true -> (0 <= r)%Q -> (r < 1)%Q ->
             exists w, Binary64.selectWinner scored r = Some w /\ In w eligible) /\
          (forall (k : nat) r, (k < n)%nat -> (Z.of_nat n <= 2 ^ 53)%Z ->
             (inject_Z (Z.of_nat k) / inject_Z (Z.of_nat n) <= r)%Q ->
             (r <= (1 - Binary64.pow2 (-53))
                   * (inject_Z (Z.of_nat k + 1) / inject_Z (Z.of_nat n)))%Q ->
             Binary64.selectWinner scored r = nth_error eligible k)) /\
       ((n <= 1)%nat ->
          eligible = [top] /\ forall r, Binary64.selectWinner scored r = Some top) /\
       (forall r w, Binary64.selectWinner scored r = Some w ->
          In w scored /\ (Binary64.fsub (score top) 0.5 <= score w)%Q)) /\
  filter (Binary64.withinHalf scored50)
         (jsSort Binary64.byScoreDesc [scored30; scored50; scored46])
    = [scored50; scored46] /\
  (forall r, Binary64.selectWinner [scored30; scored50; scored46] r <> Some scored30) /\
  score scored44 = 2476979795053773 # 562949953421312 /\
  score scored39 = 8782019273372467 # 2251799813685248 /\
  Binary64.fsub (score scored44) 0.5 = 2195504818343117 # 562949953421312 /\
  (score scored39 < Binary64.fsub (score scored44) 0.5)%Q /\
  (forall r, Binary64.selectWinner [scored39; scored44] r = Some scored44) /\
  (forall dateMs now r s,
     (candidates s = [] -> Binary64.runRecommendation dateMs now r s = None) /\
     (candidates s <> [] ->
        Binary64.runRecommendation dateMs now r s
        = option_map
            (fun w => {| recBook := book w; recScore := score w;
                         totalCandidates := List.length (candidates s) |})
            (Binary64.selectWinner
               (map (fun c => {| book := c;
                                 score := Binary64.calculateFinalScore dateMs now s c |})
                    (candidates s)) r)) /\
     (forall c, Binary64.isDouble (averageRating c) = true ->
        Binary64.isDouble (Binary64.calculateFinalScore dateMs now s c) = true) /\
     (candidates s <> [] ->
      Forall (fun c => Binary64.isDouble (averageRating c) = true) (candidates s) ->
      Binary64.isDouble r = true -> (0 <= r)%Q -> (r < 1)%Q ->
      exists rec,
        Binary64.runRecommendation dateMs now r s = Some rec /\
        In (recBook rec) (candidates s) /\
        recScore rec = Binary64.calculateFinalScore dateMs now s (recBook rec) /\
        totalCandidates rec = List.length (candidates s))).
Proof.
  assert (General : forall scored : list Scored,
     scored <> [] ->
     Forall (fun c => Binary64.isDouble (score c) = true) scored ->
     exists top rest,
       jsSort Binary64.byScoreDesc scored = top :: rest /\
       Permutation scored (top :: rest) /\
       StronglySorted scoreDesc (top :: rest) /\
       (forall c, In c scored -> (score c <= score top)%Q) /\
       let eligible := filter (Binary64.withinHalf top) (top :: rest) in
       let n := List.length eligible in
       (forall c, In c eligible <->
                  In c scored /\ (Binary64.fsub (score top) 0.5 <= score c)%Q) /\
       ((0.5 <= score top)%Q -> (score top <= Binary64.pow2 52)%Q ->
          (Binary64.fsub (score top) 0.5 == score top - 0.5)%Q) /\
       In top eligible /\
       ((1 < n)%nat ->
          (forall r, Binary64.selectWinner scored r
                     = arrayAt eligible
                         (Qfloor (Binary64.fmul r (inject_Z (Z.of_nat n))))) /\
          (forall r, Binary64.isDouble r = true -> (0 <= r)%Q -> (r < 1)%Q ->
             exists w, Binary64.selectWinner scored r = Some w /\ In w eligible) /\
          (forall (k : nat) r, (k < n)%nat -> (Z.of_nat n <= 2 ^ 53)%Z ->
             (inject_Z (Z.of_nat k) / inject_Z (Z.of_nat n) <= r)%Q ->
             (r <= (1 - Binary64.pow2 (-53))
                   * (inject_Z (Z.of_nat k + 1) / inject_Z (Z.of_nat n)))%Q ->
             Binary64.selectWinner scored r = nth_error eligible k)) /\
       ((n <= 1)%nat ->
          eligible = [top] /\ forall r, Binary64.selectWinner scored r = Some top) /\
       (forall r w, Binary64.selectWinner scored r = Some w ->
          In w scored /\ (Binary64.fsub (score top) 0.5 <= score w)%Q)).
  { intros scored Hne Hd.
    destruct (jsSort Binary64.byScoreDesc scored) as [|top rest] eqn:Hsort.
    { pose proof (jsSort_length Binary64.byScoreDesc scored) as HL. rewrite Hsort in HL.
      destruct scored; [congruence | discriminate]. }
    exists top, rest.
    pose proof (jsSort_perm Binary64.byScoreDesc scored) as Hperm. rewrite Hsort in Hperm.
    pose proof (jsSort_sorted64 scored Hd) as Hs. rewrite Hsort in Hs.
    assert (Hin : forall c, In c (top :: rest) <-> In c scored).
    { intros c. rewrite <- Hsort. apply jsSort_In. }
    assert (Htop : Binary64.isDouble (score top) = true).
    { rewrite Forall_forall in Hd. apply Hd, Hin. left. reflexivity. }
    assert (Hel : forall c, In c (filter (Binary64.withinHalf top) (top :: rest))
                            <-> In c scored
                                /\ (Binary64.fsub (score top) 0.5 <= score c)%Q).
    { intros c. rewrite filter_In, Hin, withinHalf64_iff. reflexivity. }
    split; [reflexivity|]. split; [exact Hperm|]. split; [exact Hs|].
    split.
    { intros c Hc. apply Hin in Hc. destruct Hc as [<- | Hc]; [lra|].
      apply StronglySorted_inv in Hs. destruct Hs as [_ Hall].
      rewrite Forall_forall in Hall. apply (Hall c Hc). }
    intros eligible n.
    split; [exact Hel|].
    split.
    { intros Lo Hi. rewrite fsub_half.
      setoid_replace 0.5%Q with (1 # 2)%Q by reflexivity.
      apply fsub_half_exact; [exact Htop | | exact Hi].
      setoid_replace (1 # 2)%Q with 0.5%Q by reflexivity. exact Lo. }
    split.
    { apply Hel. split; [apply Hin; left; reflexivity|].
      apply withinHalf64_iff, withinHalf64_self, Htop. }
    split; [|split].
    - intros Hn.
      assert (Hsel : forall r, Binary64.selectWinner scored r
                               = arrayAt eligible (Binary64.randomIndex r n)).
      { intros r.
        destruct (selectWinner64_eligible scored top rest r Hd Hsort) as (_ & Hmany & _).
        apply (Hmany Hn). }
      split; [exact Hsel|]. split.
      + intros r Hr H0 H1. rewrite Hsel.
        destruct (arrayAt_in_range eligible (Binary64.randomIndex r n)) as [w Hw].
        { apply randomIndex64_range; [lia | assumption | assumption | assumption]. }
        exists w. split; [exact Hw|]. apply (arrayAt_In _ _ _ Hw).
      + intros k r Hk Hbig Hlo Hhi. rewrite Hsel.
        rewrite (randomIndex64_slot r n k); [apply arrayAt_nat | lia | lia | exact Hlo | exact Hhi].
    - intros Hn. split.
      + destruct (selectWinner64_eligible scored top rest 0 Hd Hsort) as (_ & _ & Hone).
        apply (Hone Hn).
      + intros r.
        destruct (selectWinner64_eligible scored top rest r Hd Hsort) as (_ & _ & Hone).
        apply (Hone Hn).
    - intros r w Hw. apply Hel.
      destruct (selectWinner64_eligible scored top rest r Hd Hsort) as (_ & Hmany & Hone).
      fold eligible in Hmany, Hone. fold n in Hmany, Hone.
      destruct (Nat.lt_ge_cases 1 n) as [Hn | Hn].
      + rewrite (Hmany Hn) in Hw. apply (arrayAt_In _ _ _ Hw).
      + destruct (Hone Hn) as [He Hsel]. rewrite Hsel in Hw.
        injection Hw as <-. fold eligible. rewrite He. left. reflexivity. }
  split; [exact General|]. split; [vm_compute; reflexivity|]. split.
  { intros r Hsel.
    destruct (General [scored30; scored50; scored46])
      as (top & rest & Hsort & _ & _ & _ & H); [discriminate | |].
    { repeat constructor. }
    vm_compute in Hsort. injection Hsort as <- <-.
    destruct H as (_ & _ & _ & _ & _ & Hnever).
    destruct (Hnever r _ Hsel) as [_ Hlow].
    vm_compute in Hlow. apply Hlow. reflexivity. }
  split; [vm_compute; reflexivity|]. split; [vm_compute; reflexivity|].
  split; [vm_compute; reflexivity|]. split; [vm_compute; reflexivity|].
  split; [intros r; vm_compute; reflexivity|].
  intros dateMs now r s.
  assert (Hrun : candidates s <> [] ->
     Binary64.runRecommendation dateMs now r s
     = option_map
         (fun w => {| recBook := book w; recScore := score w;
                      totalCandidates := List.length (candidates s) |})
         (Binary64.selectWinner
            (map (fun c => {| book := c;
                              score := Binary64.calculateFinalScore dateMs now s c |})
                 (candidates s)) r)).
  { intros Hne. unfold Binary64.runRecommendation.
    destruct (List.length (candidates s) =? 0)%nat eqn:E.
    { apply Nat.eqb_eq, length_zero_iff_nil in E. contradiction. }
    rewrite length_map.
    destruct (Binary64.selectWinner _ r); reflexivity. }
  split; [|split; [exact Hrun|split]].
  - intros He. unfold Binary64.runRecommendation. rewrite He. reflexivity.
  - intros c Hc. apply calculateFinalScore_double, Hc.
  - intros Hne Hd Hr H0 H1. rewrite (Hrun Hne).
    set (scored := map (fun c => {| book := c;
                                    score := Binary64.calculateFinalScore dateMs now s c |})
                       (candidates s)).
    assert (Hsc : scored <> []).
    { unfold scored. destruct (candidates s); [contradiction | discriminate]. }
    assert (Hds : Forall (fun c => Binary64.isDouble (score c) = true) scored).
    { unfold scored. apply Forall_forall. intros c Hc. apply in_map_iff in Hc.
      destruct Hc as (c0 & <- & Hc0). cbn [score].
      apply calculateFinalScore_double.
      rewrite Forall_forall in Hd. apply Hd, Hc0. }
    destruct (General scored Hsc Hds)
      as (top & rest & _ & _ & _ & _ & Hel & _ & _ & Hmany & Hone & _).
    assert (Hw : exists w, Binary64.selectWinner scored r = Some w /\ In w scored).
    { destruct (Nat.lt_ge_cases 1
                  (List.length (filter (Binary64.withinHalf top) (top :: rest))))
        as [Hn | Hn].
      - destruct (Hmany Hn) as (_ & Hex & _).
        destruct (Hex r Hr H0 H1) as (w & Hsel & Hin).
        exists w. split; [exact Hsel|]. apply Hel in Hin. apply Hin.
      - destruct (Hone Hn) as [He Hsel]. exists top. split; [apply Hsel|].
        assert (Hin : In top (filter (Binary64.withinHalf top) (top :: rest))).
        { rewrite He. left. reflexivity. }
        apply Hel in Hin. apply Hin. }
    destruct Hw as (w & Hsel & Hin). rewrite Hsel. cbn [option_map].
    eexists. split; [reflexivity|]. cbn [recBook recScore totalCandidates].
    unfold scored in Hin. apply in_map_iff in Hin. destruct Hin as (c0 & <- & Hc0).
    split; [exact Hc0|]. split; reflexivity.
Qed.

Lemma selectWinner_near_tie_witness :
  [scored30; scored50; scored46] <> [] /\
  Forall (fun c => Binary64.isDouble (score c) = true) [scored30; scored50; scored46] /\
  Binary64.isDouble (3 # 4) = true /\ (0 <= 3 # 4)%Q /\ (3 # 4 < 1)%Q /\
  Binary64.selectWinner [scored30; scored50; scored46] (3 # 4) = Some scored46 /\
  (forall r w, Binary64.selectWinner [scored30; scored50; scored46] r = Some w ->
     (Binary64.fsub (score scored50) 0.5 <= score w)%Q).
Proof.
  assert (Hne : [scored30; scored50; scored46] <> []) by discriminate.
  assert (Hd : Forall (fun c => Binary64.isDouble (score c) = true)
                      [scored30; scored50; scored46]).
  { repeat constructor. }
  destruct (proj1 selectWinner_near_tie [scored30; scored50; scored46] Hne Hd)
    as (top & rest & Hsort & _ & _ & _ & _ & _ & _ & Hmany & _ & Hnever).
  vm_compute in Hsort. injection Hsort as <- <-.
  split; [exact Hne|]. split; [exact Hd|]. split; [vm_compute; reflexivity|].
  split; [vm_compute; discriminate|]. split; [reflexivity|]. split.
  - destruct Hmany as (_ & _ & Hslot); [vm_compute; lia|].
    rewrite (Hslot 1%nat (3 # 4)%Q).
    + vm_compute. reflexivity.
    + vm_compute; lia.
    + vm_compute. discriminate.
    + vm_compute; discriminate.
    + vm_compute; discriminate.
  - intros r w Hw. destruct (Hnever r w Hw) as [_ H]. exact H.
Defined.

(** ** The funnel: what no event changes *)

Lemma handle_allBooks (s : DecisionState) (e : Event) : allBooks (handle s e) = allBooks s.
Proof.
  destruct e as [step value | targetStep | |]; simpl; try reflexivity.
  - unfold stepButtonClick; simpl.
    destruct (currentStep s =? 1).
    + destruct (List.length _ =? 0)%nat; reflexivity.
    + destruct (currentStep s =? 2); [reflexivity|].
      destruct (currentStep s =? 3); [reflexivity|].
      destruct (currentStep s =? 4); reflexivity.
  - unfold backButtonClick; simpl. destruct (targetStep =? 1); reflexivity.
  - unfold relaxConstraint; simpl. destruct (currentStep s =? 2); reflexivity.
Qed.

Lemma handle_behaviourProfile (s : DecisionState) (e : Event) :
  behaviourProfile (handle s e) = behaviourProfile s.
Proof.
  destruct e as [step value | targetStep | |]; simpl; try reflexivity.
  - unfold stepButtonClick; simpl.
    destruct (currentStep s =? 1).
    + destruct (List.length _ =? 0)%nat; reflexivity.
    + destruct (currentStep s =? 2); [reflexivity|].
      destruct (currentStep s =? 3); [reflexivity|].
      destruct (currentStep s =? 4); reflexivity.
  - unfold backButtonClick; simpl. destruct (targetStep =? 1); reflexivity.
  - unfold relaxConstraint; simpl. destruct (currentStep s =? 2); reflexivity.
Qed.

Lemma run_allBooks (events : list Event) (s : DecisionState) :
  allBooks (run s events) = allBooks s.
Proof.
  unfold run. revert s.
  induction events as [|e events IH]; intros s; simpl; [reflexivity|].
  rewrite IH. apply handle_allBooks.
Qed.

Lemma run_behaviourProfile (events : list Event) (s : DecisionState) :
  behaviourProfile (run s events) = behaviourProfile s.
Proof.
  unfold run. revert s.
  induction events as [|e events IH]; intros s; simpl; [reflexivity|].
  rewrite IH. apply handle_behaviourProfile.
Qed.

(** Start over after any session gives the state of the first construction
    again. *)
Lemma reset_after_session (books wantToReadBooks : list Book) (events : list Event) :
  resetDecisionFlow (run (initDecisionEngine books wantToReadBooks) events)
  = initDecisionEngine books wantToReadBooks.
Proof.
  unfold resetDecisionFlow. rewrite run_allBooks, run_behaviourProfile. reflexivity.
Qed.

(** C9.  After every sequence of forward advances from a freshly initialised
    funnel, [resetDecisionFlow] restores the state of the first
    construction: the step is 1, the candidates are the original backlog
    [allBooks], the four selections are empty and the profile is the one
    derived at initialisation, not a recomputed one; Step 1 with the filter
    [any] then sees the original number of books. *)
Theorem resetDecisionFlow_restores :
  forall (books wantToReadBooks : list Book) (clicks : list (string * string)),
    let s0 := initDecisionEngine books wantToReadBooks in
    let s := resetDecisionFlow (run s0 (forwardClicks clicks)) in
    s = s0 /\
    currentStep s = 1 /\
    candidates s = wantToReadBooks /\
    allBooks s = wantToReadBooks /\
    selections s = emptySelections /\
    behaviourProfile s = behaviourProfile (run s0 (forwardClicks clicks)) /\
    behaviourProfile s = Some (deriveBehaviourProfile books) /\
    List.length (applyTimeFilter (candidates s) "any") = List.length wantToReadBooks.
Proof.
  intros books wantToReadBooks clicks s0 s.
  assert (E : s = s0) by apply reset_after_session.
  split; [exact E|]. rewrite E.
  repeat apply conj; try reflexivity.
  symmetry. apply (run_behaviourProfile (forwardClicks clicks) s0).
Qed.

(** ** The funnel: candidates stay within the backlog *)

Lemma Subseq_refl {A} (l : list A) : Subseq l l.
Proof. induction l; constructor; assumption. Qed.

Lemma Subseq_trans {A} (l1 l2 l3 : list A) : Subseq l1 l2 -> Subseq l2 l3 -> Subseq l1 l3.
Proof.
  intros H12 H23. revert l1 H12.
  induction H23 as [|x l2 l3 H IH|x l2 l3 H IH]; intros l1 H12.
  - exact H12.
  - apply subseq_skip, IH, H12.
  - inversion H12; subst.
    + apply subseq_skip, IH. assumption.
    + apply subseq_keep, IH. assumption.
Qed.

Lemma Subseq_filter {A} (f : A -> bool) (l : list A) : Subseq (filter f l) l.
Proof.
  induction l as [|x l IH]; simpl; [constructor|].
  destruct (f x); constructor; assumption.
Qed.

Lemma Subseq_length {A} (l1 l2 : list A) : Subseq l1 l2 -> (List.length l1 <= List.length l2)%nat.
Proof. induction 1; simpl; lia. Qed.

Lemma Subseq_In {A} (l1 l2 : list A) (x : A) : Subseq l1 l2 -> In x l1 -> In x l2.
Proof.
  induction 1 as [|y l1 l2 H IH|y l1 l2 H IH]; simpl; intros Hin.
  - exact Hin.
  - right. apply IH, Hin.
  - destruct Hin as [-> | Hin]; [left; reflexivity | right; apply IH, Hin].
Qed.

Lemma applyTimeFilter_Subseq (books : list Book) (selection : string) :
  Subseq (applyTimeFilter books selection) books.
Proof.
  unfold applyTimeFilter.
  destruct (negb (truthy selection) || streq selection "any").
  - apply Subseq_refl.
  - apply Subseq_filter.
Qed.

Lemma handle_candidates (s : DecisionState) (e : Event) :
  Subseq (candidates s) (allBooks s) -> Subseq (candidates (handle s e)) (allBooks s).
Proof.
  intros H. destruct e as [step value | targetStep | |]; simpl.
  - unfold stepButtonClick; simpl.
    destruct (currentStep s =? 1).
    + destruct (List.length _ =? 0)%nat; simpl; [exact H|].
      eapply Subseq_trans; [apply applyTimeFilter_Subseq | exact H].
    + destruct (currentStep s =? 2); [exact H|].
      destruct (currentStep s =? 3); [exact H|].
      destruct (currentStep s =? 4); exact H.
  - unfold backButtonClick; simpl.
    destruct (targetStep =? 1); simpl; [apply Subseq_refl | exact H].
  - unfold relaxConstraint; simpl.
    destruct (currentStep s =? 2); simpl; apply Subseq_refl.
  - apply Subseq_refl.
Qed.

Lemma run_candidates (events : list Event) (s : DecisionState) :
  Subseq (candidates s) (allBooks s) ->
  Subseq (candidates (run s events)) (allBooks s).
Proof.
  unfold run. revert s.
  induction events as [|e events IH]; intros s H; simpl; [exact H|].
  rewrite <- (handle_allBooks s e). apply IH.
  rewrite handle_allBooks. apply handle_candidates, H.
Qed.

Lemma selectWinner_In (scored : list Scored) (r : Q) (w : Scored) :
  selectWinner scored r = Some w -> In w scored.
Proof.
  intros H. apply (jsSort_In byScoreDesc). unfold selectWinner in H.
  destruct (jsSort byScoreDesc scored) as [|top rest]; [discriminate|].
  destruct rest as [|second rest'].
  - injection H as <-. left. reflexivity.
  - destruct (withinHalf top second).
    + apply arrayAt_In in H. apply filter_In in H. apply H.
    + injection H as <-. left. reflexivity.
Qed.

(** C10.  In every state a session reaches from the initialised funnel,
    by any sequence of step clicks, back clicks, relax-constraint recoveries
    and start-overs, [allBooks] is still the original backlog and
    [candidates] is an order-preserving subsequence of it; so the number of
    candidates never exceeds the size of the backlog, every book that is
    scored is a book of the backlog, and so is the recommended book. *)
Theorem candidates_within_backlog :
  forall (books wantToReadBooks : list Book) (events : list Event),
    let s := run (initDecisionEngine books wantToReadBooks) events in
    allBooks s = wantToReadBooks /\
    Subseq (candidates s) wantToReadBooks /\
    (List.length (candidates s) <= List.length wantToReadBooks)%nat /\
    (forall dateMs now c, In c (scoredCandidates dateMs now s) ->
       In (book c) wantToReadBooks) /\
    (forall dateMs now r rec, runRecommendation dateMs now r s = Some rec ->
       In (recBook rec) wantToReadBooks).
Proof.
  intros books wantToReadBooks events s.
  assert (HA : allBooks s = wantToReadBooks).
  { unfold s. rewrite run_allBooks. reflexivity. }
  assert (HS : Subseq (candidates s) wantToReadBooks).
  { unfold s. apply (run_candidates events (initDecisionEngine books wantToReadBooks)).
    apply Subseq_refl. }
  assert (HSc : forall dateMs now c, In c (scoredCandidates dateMs now s) ->
                In (book c) wantToReadBooks).
  { intros dateMs now c Hc. unfold scoredCandidates in Hc.
    apply in_map_iff in Hc. destruct Hc as (b & <- & Hb). simpl.
    apply (Subseq_In _ _ _ HS Hb). }
  repeat apply conj; try assumption.
  - apply Subseq_length, HS.
  - intros dateMs now r rec Hrec. unfold runRecommendation in Hrec.
    destruct (List.length (candidates s) =? 0)%nat; [discriminate|].
    fold (scoredCandidates dateMs now s) in Hrec.
    destruct (selectWinner (scoredCandidates dateMs now s) r) as [w|] eqn:Hw;
      [|discriminate].
    injection Hrec as <-. simpl.
    apply (HSc dateMs now w). apply (selectWinner_In _ _ _ Hw).
Qed.

(** ** The funnel: going back *)

Ltac step_cases k :=
  assert (k = 2 \/ k = 3 \/ k = 4) as [-> | [-> | ->]] by lia.

Lemma stepButtonClick_step1 (s : DecisionState) (step value : string) :
  currentStep s = 1 ->
  stepButtonClick s step value
  = let s1 := withSelections s (setSelection (selections s) step value) in
    let filtered := applyTimeFilter (candidates s) value in
    if (List.length filtered =? 0)%nat then (s1, NoCandidates)
    else (advanceStep (withCandidates s1 filtered) 2, Advanced 2).
Proof. intros H. unfold stepButtonClick; simpl. rewrite H. reflexivity. Qed.

Lemma stepButtonClick_step2 (s : DecisionState) (step value : string) :
  currentStep s = 2 ->
  stepButtonClick s step value
  = (advanceStep (withSelections s (setSelection (selections s) step value)) 3,
     Advanced 3).
Proof. intros H. unfold stepButtonClick; simpl. rewrite H. reflexivity. Qed.

Lemma stepButtonClick_step3 (s : DecisionState) (step value : string) :
  currentStep s = 3 ->
  stepButtonClick s step value
  = (advanceStep (withSelections s (setSelection (selections s) step value)) 4,
     Advanced 4).
Proof. intros H. unfold stepButtonClick; simpl. rewrite H. reflexivity. Qed.

Lemma stepButtonClick_step4 (s : DecisionState) (step value : string) :
  currentStep s = 4 ->
  stepButtonClick s step value
  = (withSelections s (setSelection (selections s) step value), Recommended).
Proof. intros H. unfold stepButtonClick; simpl. rewrite H. reflexivity. Qed.

(** Going back from step [cur] to an earlier step empties the selections of
    steps 2 to [cur]. *)
Lemma backButtonClick_selections (s : DecisionState) (targetStep : Z) :
  targetStep < currentStep s ->
  forall k, 2 <= k <= 4 -> k <= currentStep s ->
    selectionAt (selections (backButtonClick s targetStep)) k = "".
Proof.
  intros Hlt k Hk Hkc. unfold backButtonClick.
  apply Z.ltb_lt in Hlt. rewrite Hlt.
  destruct (Z.ltb_spec 3 (currentStep s)) as [H3|H3];
    destruct (Z.ltb_spec 2 (currentStep s)) as [H2|H2];
    destruct (Z.ltb_spec 1 (currentStep s)) as [H1|H1]; try lia;
    destruct (targetStep =? 1); step_cases k; try lia; reflexivity.
Qed.

Lemma backButtonClick_later (s : DecisionState) (targetStep : Z) :
  forall k, 2 <= k <= 4 -> currentStep s < k ->
    selectionAt (selections (backButtonClick s targetStep)) k
    = selectionAt (selections s) k.
Proof.
  intros k Hk Hkc. unfold backButtonClick.
  destruct (targetStep <? currentStep s);
    destruct (Z.ltb_spec 3 (currentStep s)) as [H3|H3];
    destruct (Z.ltb_spec 2 (currentStep s)) as [H2|H2];
    destruct (Z.ltb_spec 1 (currentStep s)) as [H1|H1]; try lia;
    destruct (targetStep =? 1); step_cases k; try lia; reflexivity.
Qed.

Lemma backButtonClick_step (s : DecisionState) (targetStep : Z) :
  currentStep (backButtonClick s targetStep) = targetStep.
Proof. reflexivity. Qed.

Lemma laterEmpty_handle (s : DecisionState) (e : Event) :
  laterEmpty s -> offered s e -> laterEmpty (handle s e).
Proof.
  intros [Hstep Hlater] Hoff.
  destruct e as [step value | targetStep | |]; simpl in *.
  - destruct Hoff as [_ ->].
    assert (Hc : currentStep s = 1 \/ currentStep s = 2 \/ currentStep s = 3
                 \/ currentStep s = 4) by lia.
    unfold laterEmpty.
    destruct Hc as [Hc | [Hc | [Hc | Hc]]].
    + rewrite (stepButtonClick_step1 _ _ _ Hc); cbv zeta.
      rewrite Hc in *.
      destruct (List.length _ =? 0)%nat; simpl; rewrite ?Hc; (split; [lia|]);
        intros k Hk Hr; step_cases k; simpl;
        first [apply (Hlater 2) | apply (Hlater 3) | apply (Hlater 4) | lia]; lia.
    + rewrite (stepButtonClick_step2 _ _ _ Hc). rewrite Hc in *. simpl.
      split; [lia|]. intros k Hk Hr. step_cases k; simpl;
        first [lia | apply (Hlater 4); lia].
    + rewrite (stepButtonClick_step3 _ _ _ Hc). simpl.
      split; [lia|]. intros k Hk Hr. lia.
    + rewrite (stepButtonClick_step4 _ _ _ Hc). simpl. rewrite Hc.
      split; [lia|]. intros k Hk Hr. lia.
  - unfold laterEmpty. rewrite backButtonClick_step. split; [lia|].
    intros k Hk Hr.
    destruct (Z.le_gt_cases k (currentStep s)) as [Hle | Hgt].
    + apply backButtonClick_selections; lia.
    + rewrite backButtonClick_later by lia. apply Hlater; lia.
  - unfold relaxConstraint, laterEmpty; simpl.
    destruct (currentStep s =? 2); simpl; (split; [lia|]);
      intros k Hk Hr; step_cases k; simpl;
      first [apply (Hlater 2) | apply (Hlater 3) | apply (Hlater 4)]; lia.
  - unfold laterEmpty; simpl. split; [lia|].
    intros k Hk Hr. step_cases k; reflexivity.
Qed.

Lemma laterEmpty_init (books wantToReadBooks : list Book) :
  laterEmpty (initDecisionEngine books wantToReadBooks).
Proof.
  unfold laterEmpty; simpl. split; [lia|].
  intros k Hk Hr. step_cases k; reflexivity.
Qed.

Lemma reachable_laterEmpty (s0 s : DecisionState) :
  laterEmpty s0 -> reachable s0 s -> laterEmpty s.
Proof.
  intros H0 Hreach. induction Hreach as [|s e Hreach IH Hoff]; [exact H0|].
  apply laterEmpty_handle; assumption.
Qed.

Lemma reachable_allBooks (s0 s : DecisionState) : reachable s0 s -> allBooks s = allBooks s0.
Proof.
  induction 1 as [|s e Hreach IH Hoff]; [reflexivity|].
  rewrite handle_allBooks. exact IH.
Qed.

Lemma sessionAtStep3_reachable :
  reachable (initDecisionEngine [] oneBookBacklog) sessionAtStep3.
Proof.
  change (reachable (initDecisionEngine [] oneBookBacklog)
            (handle (handle (initDecisionEngine [] oneBookBacklog)
                            (StepClick "timeInvestment" "moderate"))
                    (StepClick "behaviourPreference" "familiar"))).
  apply reach_event; [apply reach_event; [apply reach_start|]|];
    simpl; (split; [lia | reflexivity]).
Qed.

Lemma sessionAtStep4_reachable :
  reachable (initDecisionEngine [] oneBookBacklog) sessionAtStep4.
Proof.
  change (reachable (initDecisionEngine [] oneBookBacklog)
            (handle sessionAtStep3 (StepClick "backlogPreference" "old"))).
  apply reach_event; [apply sessionAtStep3_reachable|].
  simpl; (split; [lia | reflexivity]).
Qed.

(** C2, as stated, fails: a backward transition also empties selections
    that belong to steps at or before the target.  Going back from Step 3
    to Step 2 empties the Step-2 selection, and going back from Step 4 to
    Step 3 empties the Step-2 and Step-3 selections. *)
Lemma backButtonClick_clears_up_to_current :
  reachable (initDecisionEngine [] oneBookBacklog) sessionAtStep3 /\
  currentStep sessionAtStep3 = 3 /\
  selectionAt (selections sessionAtStep3) 2 = "familiar" /\
  selectionAt (selections (backButtonClick sessionAtStep3 2)) 2 = "" /\
  selectionAt (selections (backButtonClick sessionAtStep3 2)) 2
    <> selectionAt (selections sessionAtStep3) 2 /\
  reachable (initDecisionEngine [] oneBookBacklog) sessionAtStep4 /\
  currentStep sessionAtStep4 = 4 /\
  selectionAt (selections sessionAtStep4) 2 = "familiar" /\
  selectionAt (selections sessionAtStep4) 3 = "old" /\
  selectionAt (selections (backButtonClick sessionAtStep4 3)) 2 = "" /\
  selectionAt (selections (backButtonClick sessionAtStep4 3)) 3 = "".
Proof.
  split; [apply sessionAtStep3_reachable|].
  do 4 (split; [first [reflexivity | discriminate]|]).
  split; [apply sessionAtStep4_reachable|].
  repeat apply conj; reflexivity.
Qed.

(** C2, amended.  For every backward transition of a session from the
    current step to a target step strictly less than it, the step pointer
    becomes the target and the selections of the target step and of every
    later step among Steps 2 to 4 are empty afterwards; when the target is
    not Step 1 the Step-1 selection and the candidates are left unchanged;
    when the target is Step 1, [candidates] is reset to [allBooks] and the
    Step-1 selection is emptied too; the backlog and the profile are never
    touched.  In particular, going back from Step 3 to Step 1 empties the
    Step-2 and Step-3 selections and restores the full backlog as
    candidates. *)
Theorem backButtonClick_clears_downstream :
  forall (books wantToReadBooks : list Book) (s : DecisionState) (targetStep : Z),
    reachable (initDecisionEngine books wantToReadBooks) s ->
    1 <= targetStep < currentStep s ->
    let s' := backButtonClick s targetStep in
    currentStep s' = targetStep /\
    (forall k, targetStep <= k -> 2 <= k <= 4 -> selectionAt (selections s') k = "") /\
    (targetStep <> 1 ->
       timeInvestment (selections s') = timeInvestment (selections s) /\
       candidates s' = candidates s) /\
    (targetStep = 1 ->
       candidates s' = allBooks s /\ timeInvestment (selections s') = "") /\
    (currentStep s = 3 -> targetStep = 1 ->
       behaviourPreference (selections s') = "" /\
       backlogPreference (selections s') = "" /\
       candidates s' = wantToReadBooks) /\
    allBooks s' = allBooks s /\
    behaviourProfile s' = behaviourProfile s.
Proof.
  intros books wantToReadBooks s targetStep Hreach Ht s'.
  pose proof (reachable_laterEmpty _ _ (laterEmpty_init books wantToReadBooks) Hreach)
    as [Hstep Hlater].
  pose proof (reachable_allBooks _ _ Hreach) as Hall. simpl in Hall.
  assert (Hdown : forall k, targetStep <= k -> 2 <= k <= 4 ->
                  selectionAt (selections s') k = "").
  { intros k Hk Hr. unfold s'.
    destruct (Z.le_gt_cases k (currentStep s)) as [Hle | Hgt].
    - apply backButtonClick_selections; lia.
    - rewrite backButtonClick_later by lia. apply Hlater; lia. }
  assert (Hone : targetStep = 1 ->
                 candidates s' = allBooks s /\ timeInvestment (selections s') = "").
  { intros ->. unfold s', backButtonClick. simpl. split; reflexivity. }
  split; [reflexivity|]. split; [exact Hdown|]. split; [|split; [exact Hone|split]].
  - intros Hne. unfold s', backButtonClick.
    destruct (Z.eqb_spec targetStep 1) as [E|E]; [contradiction|].
    destruct (targetStep <? currentStep s), (3 <? currentStep s),
      (2 <? currentStep s), (1 <? currentStep s); split; reflexivity.
  - intros Hc Ht1.
    split; [apply (Hdown 2); lia|]. split; [apply (Hdown 3); lia|].
    rewrite <- Hall. apply (Hone Ht1).
  - unfold s', backButtonClick. split; destruct (targetStep =? 1); reflexivity.
Qed.

Lemma backButtonClick_clears_downstream_witness :
  reachable (initDecisionEngine [] oneBookBacklog) sessionAtStep3 /\
  1 <= 1 < currentStep sessionAtStep3 /\
  behaviourPreference (selections (backButtonClick sessionAtStep3 1)) = "" /\
  backlogPreference (selections (backButtonClick sessionAtStep3 1)) = "" /\
  candidates (backButtonClick sessionAtStep3 1) = oneBookBacklog.
Proof.
  assert (Hb : 1 <= 1 < currentStep sessionAtStep3) by (simpl; lia).
  split; [apply sessionAtStep3_reachable|]. split; [exact Hb|].
  destruct (backButtonClick_clears_downstream [] oneBookBacklog sessionAtStep3 1
              sessionAtStep3_reachable Hb) as (_ & _ & _ & _ & H31 & _).
  apply H31; reflexivity.
Defined.

(** ** The funnel: a rejected Step-1 attempt *)

(** C3, as stated, fails: the rejected attempt is not without effect, since
    its value stays recorded as the Step-1 selection, and the relax action
    taken in the rejected state, which is still at Step 1, leaves that
    selection in place.  The backlog is one 400-page book and the attempt is
    [quick]. *)
Lemma rejected_attempt_keeps_selection :
  currentStep (initDecisionEngine [] oneBookBacklog) = 1 /\
  applyTimeFilter (candidates (initDecisionEngine [] oneBookBacklog)) "quick" = [] /\
  snd (stepButtonClick (initDecisionEngine [] oneBookBacklog) "timeInvestment" "quick")
    = NoCandidates /\
  timeInvestment (selections (initDecisionEngine [] oneBookBacklog)) = "" /\
  timeInvestment
    (selections
       (fst (stepButtonClick (initDecisionEngine [] oneBookBacklog)
                             "timeInvestment" "quick"))) = "quick" /\
  fst (stepButtonClick (initDecisionEngine [] oneBookBacklog) "timeInvestment" "quick")
    <> initDecisionEngine [] oneBookBacklog /\
  timeInvestment
    (selections
       (relaxConstraint
          (fst (stepButtonClick (initDecisionEngine [] oneBookBacklog)
                                "timeInvestment" "quick")))) = "quick".
Proof.
  repeat apply conj; try reflexivity.
  intros H. apply (f_equal (fun s => timeInvestment (selections s))) in H.
  discriminate H.
Qed.

(** C3, amended.  For every Step-1 forward attempt whose page-count filter
    produces an empty candidate set the transition is rejected: the page
    shows the no-candidates message with the relax action, the funnel stays
    at Step 1, and [candidates], [allBooks] and the profile are unchanged,
    while the attempted value is recorded as the Step-1 selection (the other
    selections are unchanged); the relax action then resets [candidates] to
    [allBooks] and leaves the funnel at Step 1. *)
Theorem step1_rejection :
  forall (s : DecisionState) (value : string),
    currentStep s = 1 ->
    applyTimeFilter (candidates s) value = [] ->
    let s' := fst (stepButtonClick s "timeInvestment" value) in
    snd (stepButtonClick s "timeInvestment" value) = NoCandidates /\
    currentStep s' = 1 /\
    candidates s' = candidates s /\
    allBooks s' = allBooks s /\
    behaviourProfile s' = behaviourProfile s /\
    timeInvestment (selections s') = value /\
    behaviourPreference (selections s') = behaviourPreference (selections s) /\
    backlogPreference (selections s') = backlogPreference (selections s) /\
    riskPreference (selections s') = riskPreference (selections s) /\
    candidates (relaxConstraint s') = allBooks s /\
    currentStep (relaxConstraint s') = 1 /\
    allBooks (relaxConstraint s') = allBooks s /\
    behaviourProfile (relaxConstraint s') = behaviourProfile s.
Proof.
  intros s value Hc Hempty s'. unfold s'.
  rewrite (stepButtonClick_step1 _ _ _ Hc). cbv zeta. rewrite Hempty. simpl.
  unfold relaxConstraint. simpl. rewrite Hc. simpl.
  repeat apply conj; first [reflexivity | exact Hc].
Qed.

Lemma step1_rejection_witness :
  currentStep (initDecisionEngine [] oneBookBacklog) = 1 /\
  applyTimeFilter (candidates (initDecisionEngine [] oneBookBacklog)) "quick" = [] /\
  snd (stepButtonClick (initDecisionEngine [] oneBookBacklog) "timeInvestment" "quick")
    = NoCandidates /\
  candidates
    (relaxConstraint
       (fst (stepButtonClick (initDecisionEngine [] oneBookBacklog)
                             "timeInvestment" "quick"))) = oneBookBacklog.
Proof.
  assert (H1 : currentStep (initDecisionEngine [] oneBookBacklog) = 1) by reflexivity.
  assert (H2 : applyTimeFilter (candidates (initDecisionEngine [] oneBookBacklog)) "quick"
               = []) by reflexivity.
  split; [exact H1|]. split; [exact H2|].
  destruct (step1_rejection (initDecisionEngine [] oneBookBacklog) "quick" H1 H2)
    as (Hout & _ & _ & _ & _ & _ & _ & _ & _ & Hrelax & _).
  split; [exact Hout | exact Hrelax].
Defined.

(** ** Risk preference *)

Lemma orZero_eq (x : Q) : (orZero x == x)%Q.
Proof.
  unfold orZero. destruct (Qeq_bool x 0) eqn:E; [|reflexivity].
  apply Qeq_bool_iff in E. symmetry. exact E.
Qed.

(** C4.  For every book and profile whose ratings are binary64 numbers,
    with [rating] the book's average rating ([0] when it has none): under
    [safe] the risk bonus is [rating * 0.5], a product that binary64
    computes without rounding for a rating that is 0 or of the normal
    range; under [risky] it is [1.5 - 0.3 * |rating - avgRating|] when the
    profile has a positive average rating, [rating < avgRating * 1.1] and
    [3.7 <= rating <= 4.1], and it is [0] in every other case: outside that
    window, when the profile has no average rating, when there is no
    profile, and under any other selection.  The arithmetic is that of
    binary64: 1.1, 3.7, 4.1 and 0.3 are the binary64 numbers of these
    literals and each operation rounds, so that a rating of 3.85 against an
    average of 3.5 is inside the window (the product 3.5 * 1.1 rounds to
    3.8500000000000005) and earns 1.395, although 3.85 is not below the
    exact product 3.85. *)
Theorem applyRiskScoring_cases :
  (forall (b : Book) (profile : option Profile),
     Binary64.isDouble (averageRating b) = true ->
     (forall p avg, profile = Some p -> avgRating p = Some avg ->
        Binary64.isDouble avg = true) ->
     let rating := orZero (averageRating b) in
     (rating == averageRating b)%Q /\
     Binary64.applyRiskScoring b "safe" profile = Binary64.fmul rating 0.5 /\
     ((rating == 0 \/ Binary64.pow2 (-1021) <= rating)%Q ->
      (Binary64.applyRiskScoring b "safe" profile == rating * 0.5)%Q) /\
     (forall p avg, profile = Some p -> avgRating p = Some avg ->
        inRiskyWindow rating avg ->
        Binary64.applyRiskScoring b "risky" profile
        = Binary64.fsub 1.5
            (Binary64.fmul (Binary64.double 0.3) (Qabs (Binary64.fsub rating avg)))) /\
     (forall p avg, profile = Some p -> avgRating p = Some avg ->
        ~ inRiskyWindow rating avg ->
        Binary64.applyRiskScoring b "risky" profile = 0%Q) /\
     (forall p, profile = Some p -> avgRating p = None ->
        Binary64.applyRiskScoring b "risky" profile = 0%Q) /\
     (profile = None -> Binary64.applyRiskScoring b "risky" profile = 0%Q) /\
     (forall preference, preference <> "safe" -> preference <> "risky" ->
        Binary64.applyRiskScoring b preference profile = 0%Q)) /\
  Binary64.double 1.1 = 2476979795053773 # 2251799813685248 /\
  Binary64.double 3.7 = 4165829655317709 # 1125899906842624 /\
  Binary64.double 4.1 = 2308094809027379 # 562949953421312 /\
  Binary64.double 0.3 = 5404319552844595 # 18014398509481984 /\
  Binary64.double 3.85 = 8669429282688205 # 2251799813685248 /\
  Binary64.fmul 3.5 (Binary64.double 1.1) = 4334714641344103 # 1125899906842624 /\
  ~ (3.85 < 3.5 * 1.1)%Q /\
  inRiskyWindow (Binary64.double 3.85) 3.5 /\
  Binary64.applyRiskScoring (bookRated (Binary64.double 3.85)) "risky"
                            (Some (profileWithAvg 3.5))
  = 3141260740090921 # 2251799813685248 /\
  Binary64.double 1.395 = 3141260740090921 # 2251799813685248.
Proof.
  split.
  - intros b profile Hd Havgd rating.
    split; [apply orZero_eq|]. split; [reflexivity|].
    split; [|split; [|split; [|split; [|split]]]].
    + intros Hr. unfold Binary64.applyRiskScoring. cbn [streq String.eqb Ascii.eqb Bool.eqb].
      fold rating. apply fmul_half_exact; [apply isDouble_orZero, Hd | exact Hr].
    + intros p avg -> Havg (H0 & H1 & H2 & H3).
      unfold Binary64.applyRiskScoring. cbn [streq String.eqb Ascii.eqb Bool.eqb].
      rewrite Havg. fold rating.
      apply Qlt_bool_iff in H0, H1. apply Qge_bool_iff in H2. apply Qle_bool_iff in H3.
      rewrite H0, H1, H2, H3. cbn [andb].
      rewrite (fmul_comm (Binary64.double 0.3)). reflexivity.
    + intros p avg -> Havg Hout.
      unfold Binary64.applyRiskScoring. cbn [streq String.eqb Ascii.eqb Bool.eqb].
      rewrite Havg. fold rating.
      destruct (Qlt_bool 0 avg) eqn:E0; [|reflexivity].
      destruct (Qlt_bool rating (Binary64.fmul avg (Binary64.double 1.1))) eqn:E1;
        [|reflexivity].
      destruct (Qge_bool rating (Binary64.double 3.7)) eqn:E2; [|reflexivity].
      destruct (Qle_bool rating (Binary64.double 4.1)) eqn:E3; [|reflexivity].
      exfalso. apply Hout. unfold inRiskyWindow.
      apply Qlt_bool_iff in E0, E1. apply Qge_bool_iff in E2. apply Qle_bool_iff in E3.
      repeat split; assumption.
    + intros p -> Havg. unfold Binary64.applyRiskScoring.
      cbn [streq String.eqb Ascii.eqb Bool.eqb]. rewrite Havg. reflexivity.
    + intros ->. reflexivity.
    + intros preference Hs Hr. unfold Binary64.applyRiskScoring, streq.
      destruct (String.eqb_spec preference "safe"); [contradiction|].
      destruct (String.eqb_spec preference "risky"); [contradiction|].
      reflexivity.
  - repeat apply conj; try (vm_compute; reflexivity).
    + vm_compute. discriminate.
    + vm_compute. discriminate.
    + vm_compute. discriminate.
Qed.

Lemma applyRiskScoring_cases_witness :
  Binary64.isDouble (averageRating (bookRated 4)) = true /\
  Binary64.isDouble (Binary64.double 4.2) = true /\
  inRiskyWindow (orZero (averageRating (bookRated 4))) (Binary64.double 4.2) /\
  Binary64.applyRiskScoring (bookRated 4) "risky"
                            (Some (profileWithAvg (Binary64.double 4.2)))
  = Binary64.double 1.44 /\
  Binary64.applyRiskScoring (bookRated 4) "risky" None = 0%Q.
Proof.
  assert (Hb : Binary64.isDouble (averageRating (bookRated 4)) = true)
    by (vm_compute; reflexivity).
  assert (Ha : Binary64.isDouble (Binary64.double 4.2) = true)
    by (vm_compute; reflexivity).
  assert (W : inRiskyWindow (orZero (averageRating (bookRated 4))) (Binary64.double 4.2)).
  { unfold inRiskyWindow. repeat apply conj; vm_compute; first [reflexivity | discriminate]. }
  destruct applyRiskScoring_cases as [General _].
  destruct (General (bookRated 4) (Some (profileWithAvg (Binary64.double 4.2))) Hb)
    as (_ & _ & _ & Hin & _).
  { intros p avg Hp Havg. injection Hp as <-. injection Havg as <-. exact Ha. }
  destruct (General (bookRated 4) None Hb) as (_ & _ & _ & _ & _ & _ & Hnone & _).
  { intros p avg Hp. discriminate Hp. }
  split; [exact Hb|]. split; [exact Ha|]. split; [exact W|]. split.
  - rewrite (Hin (profileWithAvg (Binary64.double 4.2)) (Binary64.double 4.2)
                 eq_refl eq_refl W).
    vm_compute. reflexivity.
  - apply Hnone. reflexivity.
Defined.

(** ** Behaviour alignment *)

Lemma includesAuthor_authorInTop (b : Book) (p : Profile) :
  includesAuthor (topAuthors p) (author b) = authorInTop b p.
Proof.
  unfold includesAuthor, authorInTop. destruct (author b) as [a|]; [|reflexivity].
  destruct (in_dec string_dec a (topAuthors p)) as [Hin | Hnin].
  - apply existsb_exists. exists a. split; [exact Hin|]. apply String.eqb_refl.
  - destruct (existsb (streq a) (topAuthors p)) eqn:E; [|reflexivity].
    apply existsb_exists in E. destruct E as (x & Hx & Heq).
    apply String.eqb_eq in Heq. subst x. contradiction.
Qed.

Lemma inLengthBucket_lengthOf (b : Book) (d : string) :
  0 < pages b -> streq (lengthOf (pages b)) d = inLengthBucket d b.
Proof.
  intros Hp. unfold lengthOf, inLengthBucket, isQuick, isModerate, isLong, streq.
  destruct (Z.ltb_spec 0 (pages b)); [|lia].
  destruct (Z.ltb_spec (pages b) 300); destruct (Z.leb_spec 300 (pages b)); try lia;
    destruct (Z.leb_spec (pages b) 500); destruct (Z.ltb_spec 500 (pages b)); try lia;
    cbn [andb]; rewrite ?andb_true_r, ?andb_false_r, ?orb_false_r; cbn [orb];
    apply String.eqb_sym.
Qed.

Lemma inLengthBucket_unknown (b : Book) (d : string) :
  pages b <= 0 -> inLengthBucket d b = false.
Proof.
  intros Hp. unfold inLengthBucket, isQuick, isModerate, isLong.
  destruct (Z.ltb_spec 0 (pages b)); [lia|].
  destruct (Z.leb_spec 300 (pages b)); [lia|].
  destruct (Z.ltb_spec 500 (pages b)); [lia|].
  cbn [andb]. rewrite !andb_false_r. reflexivity.
Qed.

Lemma inEraBucket_eraOf (b : Book) (d : string) :
  0 < publicationYear b -> streq (eraOf (publicationYear b)) d = inEraBucket d b.
Proof.
  intros Hp. unfold eraOf, inEraBucket, isClassic, isLate20th, isModern, streq.
  destruct (Z.ltb_spec 0 (publicationYear b)); [|lia].
  destruct (Z.ltb_spec (publicationYear b) 1950);
    destruct (Z.leb_spec 1950 (publicationYear b)); try lia;
    destruct (Z.leb_spec (publicationYear b) 1999);
    destruct (Z.ltb_spec 1999 (publicationYear b)); try lia;
    cbn [andb]; rewrite ?andb_true_r, ?andb_false_r, ?orb_false_r; cbn [orb];
    apply String.eqb_sym.
Qed.

Lemma inEraBucket_unknown (b : Book) (d : string) :
  publicationYear b <= 0 -> inEraBucket d b = false.
Proof.
  intros Hp. unfold inEraBucket, isClassic, isLate20th, isModern.
  destruct (Z.ltb_spec 0 (publicationYear b)); [lia|].
  destruct (Z.leb_spec 1950 (publicationYear b)); [lia|].
  destruct (Z.ltb_spec 1999 (publicationYear b)); [lia|].
  cbn [andb]. rewrite !andb_false_r. reflexivity.
Qed.

(** The tests of [applyBehaviourScoring] in terms of the buckets. *)
Lemma familiar_length {A} (b : Book) (dl : option string) (x y : A) :
  (if truthyO dl && (0 <? pages b)
   then if sameAs (lengthOf (pages b)) dl then x else y
   else y)
  = if inDominant inLengthBucket dl b then x else y.
Proof.
  unfold inDominant, sameAs, truthyO. destruct dl as [d|]; [|reflexivity].
  destruct (truthy d); [|reflexivity]. cbn [andb].
  destruct (Z.ltb_spec 0 (pages b)) as [Hp | Hp].
  - rewrite (inLengthBucket_lengthOf b d Hp). reflexivity.
  - rewrite (inLengthBucket_unknown b d Hp). reflexivity.
Qed.

Lemma different_length {A} (b : Book) (dl : option string) (x y : A) :
  (if truthyO dl && (0 <? pages b)
   then if negb (sameAs (lengthOf (pages b)) dl) then x else y
   else y)
  = if outsideDominant inLengthBucket (0 <? pages b) dl b then x else y.
Proof.
  unfold outsideDominant, sameAs, truthyO. destruct dl as [d|]; [|reflexivity].
  destruct (truthy d); [|reflexivity]. cbn [andb].
  destruct (Z.ltb_spec 0 (pages b)) as [Hp | Hp]; [|reflexivity].
  rewrite (inLengthBucket_lengthOf b d Hp). reflexivity.
Qed.

Lemma familiar_era {A} (b : Book) (de : option string) (x y : A) :
  (if truthyO de && (0 <? publicationYear b)
   then if sameAs (eraOf (publicationYear b)) de then x else y
   else y)
  = if inDominant inEraBucket de b then x else y.
Proof.
  unfold inDominant, sameAs, truthyO. destruct de as [d|]; [|reflexivity].
  destruct (truthy d); [|reflexivity]. cbn [andb].
  destruct (Z.ltb_spec 0 (publicationYear b)) as [Hp | Hp].
  - rewrite (inEraBucket_eraOf b d Hp). reflexivity.
  - rewrite (inEraBucket_unknown b d Hp). reflexivity.
Qed.

Lemma different_era {A} (b : Book) (de : option string) (x y : A) :
  (if truthyO de && (0 <? publicationYear b)
   then if negb (sameAs (eraOf (publicationYear b)) de) then x else y
   else y)
  = if outsideDominant inEraBucket (0 <? publicationYear b) de b then x else y.
Proof.
  unfold outsideDominant, sameAs, truthyO. destruct de as [d|]; [|reflexivity].
  destruct (truthy d); [|reflexivity]. cbn [andb].
  destruct (Z.ltb_spec 0 (publicationYear b)) as [Hp | Hp]; [|reflexivity].
  rewrite (inEraBucket_eraOf b d Hp). reflexivity.
Qed.

(** C5.  For every book and every profile that is not empty, the
    behaviour-alignment bonus under [familiar] is the sum of 1.5 if the
    book's length bucket is the dominant length, 1.5 if its era bucket is
    the dominant era and 0.5 if its author is one of the top authors, at
    most 3.5; under [different] it is the sum of 1 if the book's length
    bucket is not the dominant length, 1 if its era bucket is not the
    dominant era and 0.5 if its author is not one of the top authors, at
    most 2.5; with an empty profile the bonus is 0 whatever the selection.
    The buckets are those of the page count and of the year: quick below
    300 pages, moderate from 300 to 500 and long above; classic before
    1950, late20th from 1950 to 1999 and modern after.  A book with an
    unknown page count or year is in no bucket: it earns neither the bonus
    of a match nor that of a mismatch.  The sums are those binary64
    computes: none of them is rounded. *)
Theorem applyBehaviourScoring_cases :
  forall (b : Book) (p : Profile),
    (~ emptyProfile p ->
       (applyBehaviourScoring b p "familiar"
        == bonusIf (inDominant inLengthBucket (dominantLength p) b) 1.5
           + bonusIf (inDominant inEraBucket (dominantEra p) b) 1.5
           + bonusIf (authorInTop b p) 0.5)%Q /\
       (applyBehaviourScoring b p "familiar" <= 3.5)%Q /\
       (applyBehaviourScoring b p "different"
        == bonusIf (outsideDominant inLengthBucket (0 <? pages b) (dominantLength p) b) 1
           + bonusIf (outsideDominant inEraBucket (0 <? publicationYear b)
                                      (dominantEra p) b) 1
           + bonusIf (negb (authorInTop b p)) 0.5)%Q /\
       (applyBehaviourScoring b p "different" <= 2.5)%Q) /\
    (emptyProfile p -> forall preference, applyBehaviourScoring b p preference = 0%Q) /\
    (forall preference,
       (Binary64.applyBehaviourScoring b p preference
        == applyBehaviourScoring b p preference)%Q).
Proof.
  intros b p. split; [|split].
  - intros Hne.
    assert (Hguard : negb (truthyO (dominantLength p)) && negb (truthyO (dominantEra p))
                     = false).
    { destruct (truthyO (dominantLength p)) eqn:EL, (truthyO (dominantEra p)) eqn:EE;
        try reflexivity. exfalso. apply Hne. split; assumption. }
    unfold applyBehaviourScoring. rewrite Hguard.
    cbn [streq String.eqb Ascii.eqb Bool.eqb].
    rewrite includesAuthor_authorInTop.
    rewrite !familiar_length, !familiar_era, !different_length, !different_era.
    unfold bonusIf.
    destruct (inDominant inLengthBucket (dominantLength p) b);
      destruct (inDominant inEraBucket (dominantEra p) b);
      destruct (outsideDominant inLengthBucket (0 <? pages b) (dominantLength p) b);
      destruct (outsideDominant inEraBucket (0 <? publicationYear b) (dominantEra p) b);
      destruct (authorInTop b p); cbn [negb];
      repeat split; vm_compute; congruence.
  - intros [HL HE] preference. unfold applyBehaviourScoring.
    rewrite HL, HE. reflexivity.
  - intros preference. apply applyBehaviourScoring64_exact.
Qed.

Lemma applyBehaviourScoring_cases_witness :
  ~ emptyProfile moderateModernProfile /\
  (applyBehaviourScoring familiarBook moderateModernProfile "familiar" == 3.5)%Q /\
  (applyBehaviourScoring familiarBook moderateModernProfile "different" == 0)%Q.
Proof.
  assert (Hne : ~ emptyProfile moderateModernProfile).
  { intros [H _]. discriminate H. }
  destruct (applyBehaviourScoring_cases familiarBook moderateModernProfile) as [H _].
  destruct (H Hne) as (Hf & _ & Hd & _).
  split; [exact Hne|]. split.
  - rewrite Hf. reflexivity.
  - rewrite Hd. reflexivity.
Defined.

(** ** Backlog age *)

(** C6.  For every book whose [dateAdded] is present and parses to the
    timestamp [added], with [age] the time from [added] to now in 365-day
    years, the backlog-age bonus under [old] is 2 if [age >= 3], 1 if
    [1 <= age < 3] and 0 otherwise, and under [new] it is 2 if [age < 1],
    1 if [1 <= age < 3] and 0 otherwise; and when [dateAdded] is missing or
    does not parse the bonus is 0 whatever the selection. *)
Theorem applyBacklogScoring_cases :
  forall (dateMs : string -> option Z) (now : Z) (b : Book),
    (forall d added, dateAdded b = Some d -> d <> "" -> dateMs d = Some added ->
       let age := (inject_Z (now - added) / inject_Z (1000 * 60 * 60 * 24 * 365))%Q in
       ((3 <= age)%Q -> applyBacklogScoring dateMs now b "old" = 2%Q) /\
       ((1 <= age)%Q -> (age < 3)%Q -> applyBacklogScoring dateMs now b "old" = 1%Q) /\
       ((age < 1)%Q -> applyBacklogScoring dateMs now b "old" = 0%Q) /\
       ((age < 1)%Q -> applyBacklogScoring dateMs now b "new" = 2%Q) /\
       ((1 <= age)%Q -> (age < 3)%Q -> applyBacklogScoring dateMs now b "new" = 1%Q) /\
       ((3 <= age)%Q -> applyBacklogScoring dateMs now b "new" = 0%Q)) /\
    (dateAddedMissing b ->
       forall preference, applyBacklogScoring dateMs now b preference = 0%Q) /\
    (forall d, dateAdded b = Some d -> dateMs d = None ->
       forall preference, applyBacklogScoring dateMs now b preference = 0%Q).
Proof.
  intros dateMs now b. split; [|split].
  - intros d added Hd Hne Hms age.
    assert (Ht : truthyO (dateAdded b) = true).
    { rewrite Hd. simpl. unfold truthy. destruct (String.eqb_spec d ""); [contradiction|].
      reflexivity. }
    unfold applyBacklogScoring. rewrite Ht, Hd, Hms. simpl.
    change (yearsBetween now added) with age.
    repeat split.
    + intros H3. apply Qge_bool_iff in H3. rewrite H3. reflexivity.
    + intros H1 H3. apply Qge_bool_false in H3. apply Qge_bool_iff in H1.
      rewrite H3, H1. reflexivity.
    + intros H1. assert (H3 : (age < 3)%Q) by lra.
      apply Qge_bool_false in H1, H3. rewrite H3, H1. reflexivity.
    + intros H1. apply Qlt_bool_iff in H1. rewrite H1. reflexivity.
    + intros H1 H3. apply Qlt_bool_false in H1. apply Qlt_bool_iff in H3.
      rewrite H1, H3. reflexivity.
    + intros H3. assert (H1 : (1 <= age)%Q) by lra.
      apply Qlt_bool_false in H1, H3. rewrite H1, H3. reflexivity.
  - intros [Hd | Hd] preference; unfold applyBacklogScoring; rewrite Hd; reflexivity.
  - intros d Hd Hms preference. unfold applyBacklogScoring. rewrite Hd, Hms.
    destruct (negb (truthyO (Some d))); reflexivity.
Qed.

Lemma applyBacklogScoring_cases_witness :
  (3 <= inject_Z (1704067200000 - 1577836800000)
        / inject_Z (1000 * 60 * 60 * 24 * 365))%Q /\
  applyBacklogScoring parseKnownDate 1704067200000 addedIn2020 "old" = 2%Q /\
  applyBacklogScoring parseKnownDate 1704067200000 addedIn2020 "new" = 0%Q.
Proof.
  assert (Hage : (3 <= inject_Z (1704067200000 - 1577836800000)
                      / inject_Z (1000 * 60 * 60 * 24 * 365))%Q).
  { vm_compute. discriminate. }
  destruct (applyBacklogScoring_cases parseKnownDate 1704067200000 addedIn2020)
    as [H _].
  assert (Hne : "2020/01/01" <> "") by discriminate.
  destruct (H "2020/01/01" 1577836800000 eq_refl Hne eq_refl)
    as (Hold & _ & _ & _ & _ & Hnew).
  split; [exact Hage|]. split; [apply Hold, Hage | apply Hnew, Hage].
Defined.

(** ** Dominant length and era *)

Lemma countIf_cons (f : Book -> bool) (b : Book) (l : list Book) :
  countIf f (b :: l) = (if f b then 1 else 0) + countIf f l.
Proof.
  unfold countIf; simpl. destruct (f b); simpl List.length; lia.
Qed.

Lemma countIf_zero (f : Book -> bool) (l : list Book) :
  (forall b, In b l -> f b = false) -> countIf f l = 0.
Proof. intros H. unfold countIf. rewrite filter_none; [reflexivity | exact H]. Qed.

(** Equality of two counter objects with the same three keys. *)
Ltac counts_eq :=
  apply f_equal2; [apply f_equal; lia|];
  apply f_equal2; [apply f_equal; lia|];
  apply f_equal2; [apply f_equal; lia | reflexivity].

Lemma lengthCounts_from (readBooks : list Book) (q m l : Z) :
  fold_left (fun counts book =>
               if 0 <? pages book then bump (lengthOf (pages book)) counts else counts)
            readBooks [("quick", q); ("moderate", m); ("long", l)]
  = [("quick", q + countIf isQuick readBooks);
     ("moderate", m + countIf isModerate readBooks);
     ("long", l + countIf isLong readBooks)].
Proof.
  revert q m l. induction readBooks as [|b bs IH]; intros q m l.
  - simpl. unfold countIf; simpl. rewrite !Z.add_0_r. reflexivity.
  - rewrite !countIf_cons. simpl fold_left.
    specialize (IH (q + (if isQuick b then 1 else 0))
                   (m + (if isModerate b then 1 else 0))
                   (l + (if isLong b then 1 else 0))).
    rewrite !Z.add_assoc, <- IH. clear IH.
    unfold isQuick, isModerate, isLong, lengthOf.
    destruct (Z.ltb_spec 0 (pages b)) as [H0|H0];
      destruct (Z.ltb_spec (pages b) 300) as [H1|H1];
      destruct (Z.leb_spec (pages b) 500) as [H2|H2];
      destruct (Z.leb_spec 300 (pages b)) as [H3|H3];
      destruct (Z.ltb_spec 500 (pages b)) as [H4|H4]; try lia;
      simpl (bump _ _); cbn [andb]; cbv iota; f_equal; counts_eq.
Qed.

Lemma eraCounts_from (readBooks : list Book) (c t m : Z) :
  fold_left (fun counts book =>
               if 0 <? publicationYear book
               then bump (eraOf (publicationYear book)) counts else counts)
            readBooks [("classic", c); ("late20th", t); ("modern", m)]
  = [("classic", c + countIf isClassic readBooks);
     ("late20th", t + countIf isLate20th readBooks);
     ("modern", m + countIf isModern readBooks)].
Proof.
  revert c t m. induction readBooks as [|b bs IH]; intros c t m.
  - simpl. unfold countIf; simpl. rewrite !Z.add_0_r. reflexivity.
  - rewrite !countIf_cons. simpl fold_left.
    specialize (IH (c + (if isClassic b then 1 else 0))
                   (t + (if isLate20th b then 1 else 0))
                   (m + (if isModern b then 1 else 0))).
    rewrite !Z.add_assoc, <- IH. clear IH.
    unfold isClassic, isLate20th, isModern, eraOf.
    destruct (Z.ltb_spec 0 (publicationYear b)) as [H0|H0];
      destruct (Z.ltb_spec (publicationYear b) 1950) as [H1|H1];
      destruct (Z.leb_spec (publicationYear b) 1999) as [H2|H2];
      destruct (Z.leb_spec 1950 (publicationYear b)) as [H3|H3];
      destruct (Z.ltb_spec 1999 (publicationYear b)) as [H4|H4]; try lia;
      simpl (bump _ _); cbn [andb]; cbv iota; f_equal; counts_eq.
Qed.

Lemma Qlt_bool_inject (z : Z) : Qlt_bool 0 (inject_Z z) = (0 <? z).
Proof.
  destruct (Z.ltb_spec 0 z) as [H|H].
  - apply Qlt_bool_iff. change 0%Q with (inject_Z 0). rewrite <- Zlt_Qlt. exact H.
  - apply Qlt_bool_false. change 0%Q with (inject_Z 0). rewrite <- Zle_Qle. exact H.
Qed.

(** The first key, in the order of the entries, whose count is greatest. *)
Lemma topKey_three (k1 k2 k3 : string) (c1 c2 c3 : Z) :
  topKey [(k1, c1); (k2, c2); (k3, c3)]
  = Some (if (c2 <=? c1) && (c3 <=? c1) then k1
          else if c3 <=? c2 then k2 else k3).
Proof.
  unfold topKey, jsSort, insertBy, byCountDesc. simpl snd.
  rewrite !Qlt_bool_inject.
  destruct (Z.ltb_spec 0 (c3 - c2)) as [H32|H32];
    rewrite ?Qlt_bool_inject; simpl snd;
    destruct (Z.ltb_spec 0 (c3 - c1)) as [H31|H31];
    rewrite ?Qlt_bool_inject; simpl snd;
    destruct (Z.ltb_spec 0 (c2 - c1)) as [H21|H21];
    destruct (Z.leb_spec c2 c1) as [L21|L21];
    destruct (Z.leb_spec c3 c1) as [L31|L31];
    destruct (Z.leb_spec c3 c2) as [L32|L32]; try lia; reflexivity.
Qed.

Lemma topKey_firstGreatest (k1 k2 k3 : string) (c1 c2 c3 : Z) :
  exists k, topKey [(k1, c1); (k2, c2); (k3, c3)] = Some k /\
            firstGreatest k1 k2 k3 c1 c2 c3 k.
Proof.
  rewrite topKey_three. unfold firstGreatest.
  destruct (Z.leb_spec c2 c1) as [L21|L21];
    destruct (Z.leb_spec c3 c1) as [L31|L31];
    destruct (Z.leb_spec c3 c2) as [L32|L32]; simpl;
    eexists; (split; [reflexivity|]);
    first [ left; split; [reflexivity | lia]
          | right; left; split; [reflexivity | lia]
          | right; right; split; [reflexivity | lia] ].
Qed.

(** C8.  For every non-empty set of read books, [dominantLength] is a
    bucket of greatest count among quick, moderate and long, counted over
    the read books with a known page count, and [dominantEra] one of
    greatest count among classic, late20th and modern, counted over the read
    books with a known publication year; among equal counts the first in
    the order quick, moderate, long (classic, late20th, modern) wins; and
    when no read book has a known page count (year), so that every count is
    0, the result is the first bucket, [quick] ([classic]), not [null]. *)
Theorem dominant_bucket_first_greatest :
  forall books : list Book,
    filter isRead books <> [] ->
    let readBooks := filter isRead books in
    let p := deriveBehaviourProfile books in
    (exists k, dominantLength p = Some k /\
       firstGreatest "quick" "moderate" "long"
         (countIf isQuick readBooks) (countIf isModerate readBooks)
         (countIf isLong readBooks) k) /\
    (exists k, dominantEra p = Some k /\
       firstGreatest "classic" "late20th" "modern"
         (countIf isClassic readBooks) (countIf isLate20th readBooks)
         (countIf isModern readBooks) k) /\
    (Forall (fun b => pages b <= 0) readBooks -> dominantLength p = Some "quick") /\
    (Forall (fun b => publicationYear b <= 0) readBooks ->
       dominantEra p = Some "classic").
Proof.
  intros books Hne readBooks p.
  assert (HL : dominantLength p
               = topKey [("quick", countIf isQuick readBooks);
                         ("moderate", countIf isModerate readBooks);
                         ("long", countIf isLong readBooks)]).
  { unfold p, deriveBehaviourProfile. fold readBooks.
    destruct (List.length readBooks =? 0)%nat eqn:E.
    - apply Nat.eqb_eq, length_zero_iff_nil in E. contradiction.
    - simpl. unfold lengthCountsOf. rewrite lengthCounts_from. reflexivity. }
  assert (HE : dominantEra p
               = topKey [("classic", countIf isClassic readBooks);
                         ("late20th", countIf isLate20th readBooks);
                         ("modern", countIf isModern readBooks)]).
  { unfold p, deriveBehaviourProfile. fold readBooks.
    destruct (List.length readBooks =? 0)%nat eqn:E.
    - apply Nat.eqb_eq, length_zero_iff_nil in E. contradiction.
    - simpl. unfold eraCountsOf. rewrite eraCounts_from. reflexivity. }
  split; [rewrite HL; apply topKey_firstGreatest|].
  split; [rewrite HE; apply topKey_firstGreatest|].
  split.
  - intros Hall. rewrite Forall_forall in Hall. rewrite HL, topKey_three.
    rewrite (countIf_zero isQuick), (countIf_zero isModerate), (countIf_zero isLong);
      [reflexivity | | |];
      intros b Hb; specialize (Hall b Hb); unfold isQuick, isModerate, isLong.
    + destruct (Z.ltb_spec 500 (pages b)); [lia | reflexivity].
    + destruct (Z.leb_spec 300 (pages b)); [lia | reflexivity].
    + destruct (Z.ltb_spec 0 (pages b)); [lia | reflexivity].
  - intros Hall. rewrite Forall_forall in Hall. rewrite HE, topKey_three.
    rewrite (countIf_zero isClassic), (countIf_zero isLate20th), (countIf_zero isModern);
      [reflexivity | | |];
      intros b Hb; specialize (Hall b Hb); unfold isClassic, isLate20th, isModern.
    + destruct (Z.ltb_spec 1999 (publicationYear b)); [lia | reflexivity].
    + destruct (Z.leb_spec 1950 (publicationYear b)); [lia | reflexivity].
    + destruct (Z.ltb_spec 0 (publicationYear b)); [lia | reflexivity].
Qed.

Lemma dominant_bucket_first_greatest_witness :
  filter isRead testReadBooks <> [] /\
  dominantLength (deriveBehaviourProfile testReadBooks) = Some "moderate" /\
  dominantEra (deriveBehaviourProfile testReadBooks) = Some "modern" /\
  filter isRead unknownReadBooks <> [] /\
  dominantLength (deriveBehaviourProfile unknownReadBooks) = Some "quick" /\
  dominantEra (deriveBehaviourProfile unknownReadBooks) = Some "classic".
Proof.
  assert (H1 : filter isRead testReadBooks <> []) by discriminate.
  assert (H2 : filter isRead unknownReadBooks <> []) by discriminate.
  destruct (dominant_bucket_first_greatest testReadBooks H1)
    as ((k & Hk & Hfirst) & (e & He & Hefirst) & _).
  destruct (dominant_bucket_first_greatest unknownReadBooks H2)
    as (_ & _ & Hq & Hc).
  split; [exact H1|]. split.
  { rewrite Hk. f_equal. vm_compute in Hfirst.
    destruct Hfirst as [(_ & Hx & _) | [(-> & _) | (_ & _ & Hx)]];
      [exfalso; apply Hx; reflexivity | reflexivity | discriminate Hx]. }
  split.
  { rewrite He. f_equal. vm_compute in Hefirst.
    destruct Hefirst as [(_ & _ & Hx) | [(_ & _ & Hx) | (-> & _)]];
      [exfalso; apply Hx; reflexivity | exfalso; apply Hx; reflexivity | reflexivity]. }
  split; [exact H2|]. split.
  - apply Hq. repeat constructor; simpl; lia.
  - apply Hc. repeat constructor; simpl; lia.
Defined.

(** * Further properties of the application *)

(** ** The funnel: the filter always applies to the full backlog *)

Lemma setSelection_time_other (sel : Selections) (k : Z) (value : string) :
  2 <= k <= 4 -> timeInvestment (setSelection sel (stepKey k) value) = timeInvestment sel.
Proof. intros Hk. step_cases k; reflexivity. Qed.

Lemma backButtonClick_time (s : DecisionState) (targetStep : Z) :
  targetStep <> 1 ->
  timeInvestment (selections (backButtonClick s targetStep)) = timeInvestment (selections s)
  /\ candidates (backButtonClick s targetStep) = candidates s.
Proof.
  intros Hne. unfold backButtonClick.
  destruct (Z.eqb_spec targetStep 1) as [E|E]; [contradiction|].
  destruct (targetStep <? currentStep s), (3 <? currentStep s),
    (2 <? currentStep s), (1 <? currentStep s); split; reflexivity.
Qed.

Lemma backButtonClick_to_1 (s : DecisionState) :
  candidates (backButtonClick s 1) = allBooks s.
Proof. reflexivity. Qed.

Lemma unfiltered_handle (s : DecisionState) (e : Event) :
  1 <= currentStep s <= 4 -> unfiltered s -> offered s e -> unfiltered (handle s e).
Proof.
  intros Hstep [H1 Hc] Hoff. unfold unfiltered. rewrite handle_allBooks.
  destruct e as [step value | targetStep | |];
    cbv beta iota delta [handle offered] in *.
  - destruct Hoff as [_ ->].
    assert (Hcase : currentStep s = 1 \/ currentStep s = 2 \/ currentStep s = 3
                    \/ currentStep s = 4) by lia.
    destruct Hcase as [E | [E | [E | E]]].
    + rewrite (stepButtonClick_step1 _ _ _ E); cbv zeta. rewrite E.
      rewrite (H1 E).
      destruct (List.length _ =? 0)%nat; simpl.
      * split; [intros _; apply (H1 E) | left; apply (H1 E)].
      * split; [intros Habs; discriminate Habs | right; reflexivity].
    + rewrite (stepButtonClick_step2 _ _ _ E). simpl.
      rewrite E, (setSelection_time_other _ 2) by lia.
      split; [intros Habs; discriminate Habs | exact Hc].
    + rewrite (stepButtonClick_step3 _ _ _ E). simpl.
      rewrite E, (setSelection_time_other _ 3) by lia.
      split; [intros Habs; discriminate Habs | exact Hc].
    + rewrite (stepButtonClick_step4 _ _ _ E). simpl.
      rewrite E, (setSelection_time_other _ 4) by lia.
      split; [intros Habs; lia | exact Hc].
  - rewrite ?backButtonClick_step.
    destruct (Z.eq_dec targetStep 1) as [-> | Hne].
    + rewrite backButtonClick_to_1. split; [reflexivity | left; reflexivity].
    + destruct (backButtonClick_time s targetStep Hne) as [Ht Hcand].
      rewrite Ht, Hcand. split; [intros Habs; contradiction | exact Hc].
  - unfold relaxConstraint; simpl.
    destruct (currentStep s =? 2); simpl; split; try (left; reflexivity); reflexivity.
  - split; [reflexivity | left; reflexivity].
Qed.

Lemma reachable_unfiltered (books wantToReadBooks : list Book) (s : DecisionState) :
  reachable (initDecisionEngine books wantToReadBooks) s -> unfiltered s.
Proof.
  intros Hreach.
  induction Hreach as [|s e Hreach IH Hoff].
  - split; [reflexivity | left; reflexivity].
  - apply unfiltered_handle; [|exact IH | exact Hoff].
    apply (reachable_laterEmpty _ _ (laterEmpty_init books wantToReadBooks) Hreach).
Qed.

(** X1.  Filters never compound.  In every state of a session the
    candidates are either the whole backlog or the backlog filtered once by
    the Step-1 selection that is recorded; and whenever the funnel is at
    Step 1, after a rejected attempt, a step back, a relax action or a start
    over, the candidates are the whole backlog, so the next Step-1 attempt
    filters the whole backlog again. *)
Theorem candidates_filtered_once :
  forall (books wantToReadBooks : list Book) (s : DecisionState),
    reachable (initDecisionEngine books wantToReadBooks) s ->
    (currentStep s = 1 -> candidates s = wantToReadBooks) /\
    (candidates s = wantToReadBooks \/
     candidates s = applyTimeFilter wantToReadBooks (timeInvestment (selections s))) /\
    (forall value,
       currentStep s = 1 ->
       candidates (fst (stepButtonClick s "timeInvestment" value)) = wantToReadBooks \/
       candidates (fst (stepButtonClick s "timeInvestment" value))
       = applyTimeFilter wantToReadBooks value).
Proof.
  intros books wantToReadBooks s Hreach.
  pose proof (reachable_unfiltered _ _ _ Hreach) as [H1 Hc].
  pose proof (reachable_allBooks _ _ Hreach) as Hall. simpl in Hall.
  rewrite Hall in H1, Hc.
  split; [exact H1|]. split; [exact Hc|].
  intros value E. rewrite (stepButtonClick_step1 _ _ _ E); cbv zeta.
  rewrite (H1 E). destruct (List.length _ =? 0)%nat; simpl.
  - left. apply (H1 E).
  - right. reflexivity.
Qed.

Lemma candidates_filtered_once_witness :
  reachable (initDecisionEngine [] oneBookBacklog) sessionAtStep3 /\
  (candidates sessionAtStep3 = oneBookBacklog \/
   candidates sessionAtStep3
   = applyTimeFilter oneBookBacklog (timeInvestment (selections sessionAtStep3))).
Proof.
  split; [apply sessionAtStep3_reachable|].
  destruct (candidates_filtered_once [] oneBookBacklog sessionAtStep3
              sessionAtStep3_reachable) as (_ & H & _).
  exact H.
Defined.

(** ** The recommendation *)

Lemma jsSort_nonempty {A} (cmp : A -> A -> Q) (l : list A) :
  l <> [] -> exists top rest, jsSort cmp l = top :: rest.
Proof.
  intros Hne. destruct (jsSort cmp l) as [|top rest] eqn:E; [|eauto].
  pose proof (jsSort_length cmp l) as HL. rewrite E in HL.
  destruct l; [contradiction | discriminate].
Qed.

(** With at least one scored candidate and a random number in [0, 1) there
    is a winner, it is one of the candidates, and no candidate beats it by
    more than 0.5. *)
Lemma selectWinner_some (scored : list Scored) (r : Q) :
  scored <> [] -> (0 <= r)%Q -> (r < 1)%Q ->
  exists w, selectWinner scored r = Some w /\ In w scored /\
            forall c, In c scored -> (score c - 0.5 <= score w)%Q.
Proof.
  intros Hne H0 H1.
  destruct (jsSort_nonempty byScoreDesc scored Hne) as (top & rest & Hsort).
  pose proof (jsSort_score_sorted scored) as Hs. rewrite Hsort in Hs.
  assert (Htop : forall c, In c scored -> (score c <= score top)%Q).
  { intros c Hc. apply (jsSort_In byScoreDesc) in Hc. rewrite Hsort in Hc.
    destruct Hc as [<- | Hc]; [lra|].
    apply StronglySorted_inv in Hs. destruct Hs as [_ Hall].
    rewrite Forall_forall in Hall. apply (Hall c Hc). }
  destruct (selectWinner_eligible scored top rest r Hsort) as (Hlen & Hmany & Hone).
  set (eligible := filter (withinHalf top) (top :: rest)) in *.
  destruct (Nat.lt_ge_cases 1 (List.length eligible)) as [Hn | Hn].
  - destruct (arrayAt_in_range eligible (randomIndex r (List.length eligible))) as [w Hw].
    { apply randomIndex_range; [lia | assumption | assumption]. }
    exists w. rewrite (Hmany Hn). split; [exact Hw|].
    apply arrayAt_In in Hw. unfold eligible in Hw. apply filter_In in Hw.
    destruct Hw as [Hin Hwithin]. apply withinHalf_iff in Hwithin.
    split.
    + apply (jsSort_In byScoreDesc). rewrite Hsort. exact Hin.
    + intros c Hc. specialize (Htop c Hc). lra.
  - destruct (Hone Hn) as [_ Hsel]. exists top. split; [exact Hsel|]. split.
    + apply (jsSort_In byScoreDesc). rewrite Hsort. left. reflexivity.
    + intros c Hc. specialize (Htop c Hc). lra.
Qed.



(** ** The funnel: no dead end after Step 1 *)

Lemma Subseq_nil_r {A} (l : list A) : Subseq l [] -> l = [].
Proof. intros H. inversion H. reflexivity. Qed.

Lemma pastStep1_handle (s : DecisionState) (e : Event) :
  1 <= currentStep s <= 4 ->
  Subseq (candidates s) (allBooks s) ->
  (2 <= currentStep s -> candidates s <> []) ->
  offered s e ->
  2 <= currentStep (handle s e) -> candidates (handle s e) <> [].
Proof.
  intros Hstep Hsub Hne Hoff.
  destruct e as [step value | targetStep | |];
    cbv beta iota delta [handle offered] in *.
  - destruct Hoff as [_ ->].
    assert (Hcase : currentStep s = 1 \/ currentStep s = 2 \/ currentStep s = 3
                    \/ currentStep s = 4) by lia.
    destruct Hcase as [E | [E | [E | E]]].
    + rewrite (stepButtonClick_step1 _ _ _ E); cbv zeta.
      destruct (List.length (applyTimeFilter (candidates s) value) =? 0)%nat eqn:L;
        simpl.
      * rewrite E. lia.
      * intros _ Hnil. rewrite Hnil in L. discriminate L.
    + rewrite (stepButtonClick_step2 _ _ _ E). simpl. intros _. apply Hne. lia.
    + rewrite (stepButtonClick_step3 _ _ _ E). simpl. intros _. apply Hne. lia.
    + rewrite (stepButtonClick_step4 _ _ _ E). simpl. intros _. apply Hne. lia.
  - rewrite ?backButtonClick_step. intros Ht.
    destruct (backButtonClick_time s targetStep) as [_ Hcand]; [lia|].
    rewrite Hcand. apply Hne. lia.
  - unfold relaxConstraint; simpl.
    assert (Hall : 2 <= currentStep s -> allBooks s <> []).
    { intros H2 Hnil. rewrite Hnil in Hsub. apply Subseq_nil_r in Hsub.
      apply (Hne H2 Hsub). }
    destruct (currentStep s =? 2); simpl; exact Hall.
  - simpl. lia.
Qed.

Lemma reachable_pastStep1 (books wantToReadBooks : list Book) (s : DecisionState) :
  reachable (initDecisionEngine books wantToReadBooks) s ->
  Subseq (candidates s) (allBooks s) /\ (2 <= currentStep s -> candidates s <> []).
Proof.
  intros Hreach. induction Hreach as [|s e Hreach [IHs IHn] Hoff].
  - split; [apply Subseq_refl | simpl; lia].
  - split.
    + rewrite handle_allBooks. apply handle_candidates, IHs.
    + apply pastStep1_handle; try assumption.
      apply (reachable_laterEmpty _ _ (laterEmpty_init books wantToReadBooks) Hreach).
Qed.

(** X3.  No dead end after Step 1.  In every state of a session that is
    past Step 1 there is at least one candidate, so the recommendation run
    at Step 4 never ends in the no-match message. *)
Theorem recommendation_after_step1 :
  forall (books wantToReadBooks : list Book) (s : DecisionState),
    reachable (initDecisionEngine books wantToReadBooks) s ->
    2 <= currentStep s ->
    candidates s <> [] /\
    wantToReadBooks <> [] /\
    forall dateMs now r, (0 <= r)%Q -> (r < 1)%Q ->
      runRecommendation dateMs now r s <> None.
Proof.
  intros books wantToReadBooks s Hreach H2.
  destruct (reachable_pastStep1 _ _ _ Hreach) as [Hsub Hne].
  specialize (Hne H2).
  pose proof (reachable_allBooks _ _ Hreach) as Hall. simpl in Hall.
  split; [exact Hne|]. split.
  - intros Hnil. rewrite Hall, Hnil in Hsub. apply Subseq_nil_r in Hsub. contradiction.
  - intros dateMs now r H0 H1 Hnone.
    destruct (selectWinner_some (scoredCandidates dateMs now s) r) as (w & Hsel & _);
      try assumption.
    { unfold scoredCandidates. destruct (candidates s); [contradiction | discriminate]. }
    unfold runRecommendation in Hnone.
    destruct (List.length (candidates s) =? 0)%nat eqn:E.
    { apply Nat.eqb_eq, length_zero_iff_nil in E. contradiction. }
    fold (scoredCandidates dateMs now s) in Hnone. rewrite Hsel in Hnone.
    discriminate Hnone.
Qed.

Lemma quickSessionAtStep4_reachable :
  reachable (initDecisionEngine [] threeBookBacklog) quickSessionAtStep4.
Proof.
  change (reachable (initDecisionEngine [] threeBookBacklog)
            (handle (handle (handle (initDecisionEngine [] threeBookBacklog)
                                    (StepClick "timeInvestment" "quick"))
                            (StepClick "behaviourPreference" "familiar"))
                    (StepClick "backlogPreference" "old"))).
  apply reach_event; [apply reach_event; [apply reach_event; [apply reach_start|]|]|];
    simpl; (split; [lia | reflexivity]).
Qed.

Lemma recommendation_after_step1_witness :
  reachable (initDecisionEngine [] threeBookBacklog) quickSessionAtStep4 /\
  2 <= currentStep quickSessionAtStep4 /\
  candidates quickSessionAtStep4 <> [].
Proof.
  assert (H2 : 2 <= currentStep quickSessionAtStep4) by (simpl; lia).
  split; [apply quickSessionAtStep4_reachable|]. split; [exact H2|].
  apply (recommendation_after_step1 [] threeBookBacklog quickSessionAtStep4
           quickSessionAtStep4_reachable H2).
Defined.

(** ** The final score: bounds *)






(** ** The time filter: buckets *)

Lemma filter_idem {A} (f : A -> bool) (l : list A) : filter f (filter f l) = filter f l.
Proof.
  induction l as [|x l IH]; [reflexivity|].
  simpl. destruct (f x) eqn:E; [|exact IH]. simpl. rewrite E, IH. reflexivity.
Qed.

Lemma applyTimeFilter_In_bucket (books : list Book) (sel : string) (b : Book) :
  sel = "quick" \/ sel = "moderate" \/ sel = "long" ->
  (In b (applyTimeFilter books sel) <-> In b books /\ lengthBucket b = Some sel).
Proof.
  intros Hsel. unfold lengthBucket, lengthOf.
  destruct Hsel as [-> | [-> | ->]]; unfold applyTimeFilter; simpl;
    rewrite filter_In;
    destruct (Z.leb_spec (pages b) 0) as [H0|H0];
    destruct (Z.ltb_spec 0 (pages b)) as [H1|H1]; try lia;
    destruct (Z.ltb_spec (pages b) 300) as [H2|H2];
    destruct (Z.leb_spec (pages b) 500) as [H3|H3];
    try destruct (Z.leb_spec 300 (pages b)) as [H4|H4];
    try destruct (Z.ltb_spec 500 (pages b)) as [H5|H5]; try lia;
    simpl; split; intros [Hin Hb]; split; try assumption; try reflexivity;
    discriminate.
Qed.

(** X5.  The time filter is idempotent; for [quick], [moderate] and
    [long] it keeps exactly the books whose length bucket, as the behaviour
    scoring computes it, is the selection, so a book with a known page count
    passes exactly one of the three filters and a book without passes none,
    and filtering by one bucket after another leaves nothing; and when the
    selection is the reader's dominant length every remaining candidate
    matches it, so that the length bonus of [familiar] goes to all of them
    and that of [different] to none. *)
Theorem applyTimeFilter_buckets_exclusive :
  (forall books sel,
     applyTimeFilter (applyTimeFilter books sel) sel = applyTimeFilter books sel) /\
  (forall books sel b,
     sel = "quick" \/ sel = "moderate" \/ sel = "long" ->
     (In b (applyTimeFilter books sel) <-> In b books /\ lengthBucket b = Some sel)) /\
  (forall books b,
     In b books -> 0 < pages b ->
     exists sel,
       (sel = "quick" \/ sel = "moderate" \/ sel = "long") /\
       In b (applyTimeFilter books sel) /\
       forall sel', (sel' = "quick" \/ sel' = "moderate" \/ sel' = "long") ->
                    In b (applyTimeFilter books sel') -> sel' = sel) /\
  (forall books sel1 sel2,
     sel1 = "quick" \/ sel1 = "moderate" \/ sel1 = "long" ->
     sel2 = "quick" \/ sel2 = "moderate" \/ sel2 = "long" ->
     sel1 <> sel2 ->
     applyTimeFilter (applyTimeFilter books sel1) sel2 = []) /\
  (forall books sel p b,
     sel = "quick" \/ sel = "moderate" \/ sel = "long" ->
     dominantLength p = Some sel ->
     In b (applyTimeFilter books sel) ->
     matches (lengthBucket b) (dominantLength p) = true /\
     mismatches (lengthBucket b) (dominantLength p) = false).
Proof.
  repeat apply conj.
  - intros books sel. unfold applyTimeFilter.
    destruct (negb (truthy sel) || streq sel "any"); [reflexivity|].
    apply filter_idem.
  - apply applyTimeFilter_In_bucket.
  - intros books b Hin Hp.
    assert (Hb : lengthBucket b = Some (lengthOf (pages b))).
    { unfold lengthBucket. destruct (Z.ltb_spec 0 (pages b)); [reflexivity | lia]. }
    assert (Hsel : lengthOf (pages b) = "quick" \/ lengthOf (pages b) = "moderate"
                   \/ lengthOf (pages b) = "long").
    { unfold lengthOf. destruct (pages b <? 300); [auto|].
      destruct (pages b <=? 500); auto. }
    exists (lengthOf (pages b)). split; [exact Hsel|]. split.
    + apply applyTimeFilter_In_bucket; [exact Hsel|]. split; assumption.
    + intros sel' Hsel' Hin'. apply applyTimeFilter_In_bucket in Hin'; [|exact Hsel'].
      destruct Hin' as [_ Hb']. rewrite Hb in Hb'. injection Hb' as ->. reflexivity.
  - intros books sel1 sel2 H1 H2 Hne.
    destruct (applyTimeFilter (applyTimeFilter books sel1) sel2) as [|b rest] eqn:E;
      [reflexivity|].
    assert (Hin : In b (applyTimeFilter (applyTimeFilter books sel1) sel2)).
    { rewrite E. left. reflexivity. }
    apply applyTimeFilter_In_bucket in Hin; [|exact H2].
    destruct Hin as [Hin Hb2].
    apply applyTimeFilter_In_bucket in Hin; [|exact H1].
    destruct Hin as [_ Hb1]. rewrite Hb1 in Hb2. injection Hb2 as ->. contradiction.
  - intros books sel p b Hsel Hdom Hin.
    apply applyTimeFilter_In_bucket in Hin; [|exact Hsel].
    destruct Hin as [_ Hb]. rewrite Hb, Hdom. unfold matches, mismatches, streq.
    rewrite String.eqb_refl.
    destruct Hsel as [-> | [-> | ->]]; split; reflexivity.
Qed.

(** ** Sorting with any comparator that follows an order *)

Section SortedBy.
Context {A : Type} (cmp : A -> A -> Q) (R : A -> A -> Prop).
Hypothesis R_trans : forall x y z, R x y -> R y z -> R x z.
Hypothesis R_swap : forall x y, Qlt_bool 0 (cmp x y) = true -> R y x.
Hypothesis R_keep : forall x y, Qlt_bool 0 (cmp x y) = false -> R x y.

Lemma insertBy_sorted (x : A) (l : list A) :
  StronglySorted R l -> StronglySorted R (insertBy cmp x l).
Proof.
  induction l as [|y ys IH]; intros Hs; simpl.
  - constructor; constructor.
  - apply StronglySorted_inv in Hs. destruct Hs as [Hys Hall].
    destruct (Qlt_bool 0 (cmp x y)) eqn:E.
    + constructor; [apply IH, Hys|].
      apply Forall_forall. intros z Hz.
      apply (Permutation_in _ (Permutation_sym (insertBy_perm cmp x ys))) in Hz.
      destruct Hz as [<- | Hz]; [apply R_swap, E|].
      rewrite Forall_forall in Hall. apply Hall, Hz.
    + constructor; [constructor; assumption|].
      constructor; [apply R_keep, E|].
      rewrite Forall_forall in Hall |- *. intros z Hz.
      apply (R_trans x y z); [apply R_keep, E | apply Hall, Hz].
Qed.

Lemma jsSort_sorted (l : list A) : StronglySorted R (jsSort cmp l).
Proof.
  induction l as [|x xs IH]; simpl; [constructor|].
  apply insertBy_sorted, IH.
Qed.
End SortedBy.

Lemma In_firstn_In {A} (l : list A) (n : nat) (x : A) : In x (firstn n l) -> In x l.
Proof.
  intros H. rewrite <- (firstn_skipn n l). apply in_or_app. left. exact H.
Qed.

Lemma In_skipn_In {A} (l : list A) (n : nat) (x : A) : In x (skipn n l) -> In x l.
Proof.
  intros H. rewrite <- (firstn_skipn n l). apply in_or_app. right. exact H.
Qed.

(** In a sorted list the first [n] elements are before the others. *)
Lemma sorted_firstn_skipn {A} (R : A -> A -> Prop) (l : list A) (n : nat) :
  StronglySorted R l ->
  forall x y, In x (firstn n l) -> In y (skipn n l) -> R x y.
Proof.
  revert n. induction l as [|a l IH]; intros n Hs x y Hx Hy.
  - destruct n; contradiction.
  - destruct n as [|n]; [contradiction|].
    apply StronglySorted_inv in Hs. destruct Hs as [Hl Hall].
    simpl in Hx, Hy. destruct Hx as [<- | Hx].
    + rewrite Forall_forall in Hall. apply Hall.
      apply (In_skipn_In l n). exact Hy.
    + apply (IH n Hl x y Hx Hy).
Qed.

Lemma In_firstn_or_skipn {A} (l : list A) (n : nat) (x : A) :
  In x l -> In x (firstn n l) \/ In x (skipn n l).
Proof.
  intros H. rewrite <- (firstn_skipn n l) in H. apply in_app_or in H. exact H.
Qed.

Lemma jsSort_map {A B} (f : A -> B) (cmpA : A -> A -> Q) (cmpB : B -> B -> Q)
    (l : list A) :
  (forall x y, cmpB (f x) (f y) = cmpA x y) ->
  jsSort cmpB (map f l) = map f (jsSort cmpA l).
Proof.
  intros Hc. induction l as [|x xs IH]; [reflexivity|].
  simpl. rewrite IH. generalize (jsSort cmpA xs). intros s.
  induction s as [|y ys IHs]; [reflexivity|].
  simpl. rewrite Hc. destruct (Qlt_bool 0 (cmpA x y)); [|reflexivity].
  simpl. rewrite IHs. reflexivity.
Qed.

Lemma jsSort_counts_sorted (l : list (string * Z)) :
  StronglySorted countDesc (jsSort byCountDesc l).
Proof.
  apply jsSort_sorted; unfold countDesc, byCountDesc.
  - intros x y z Hxy Hyz. lia.
  - intros x y H. rewrite Qlt_bool_inject in H. apply Z.ltb_lt in H. lia.
  - intros x y H. rewrite Qlt_bool_inject in H. apply Z.ltb_ge in H. lia.
Qed.

(** ** Counter objects *)

Lemma bump_lookup (key k : string) (o : list (string * Z)) :
  lookupCount k (bump key o) = lookupCount k o + (if streq key k then 1 else 0).
Proof.
  unfold streq. induction o as [|[k0 v] rest IH]; simpl.
  - unfold streq. destruct (String.eqb key k); lia.
  - unfold streq in *. destruct (String.eqb_spec k0 key) as [E|Hne]; simpl; unfold streq.
    + subst k0. destruct (String.eqb key k); lia.
    + destruct (String.eqb_spec k0 k) as [E'|Hne'].
      * subst k0. destruct (String.eqb_spec key k) as [E''|_]; [congruence | lia].
      * exact IH.
Qed.

Lemma bump_keys (key : string) (o : list (string * Z)) :
  map fst (bump key o)
  = if in_dec string_dec key (map fst o) then map fst o else (map fst o ++ [key])%list.
Proof.
  induction o as [|[k0 v] rest IH]; simpl; [reflexivity|].
  unfold streq. destruct (String.eqb_spec k0 key) as [E|Hne]; simpl.
  - subst k0. destruct (string_dec key key) as [E|Hn]; [reflexivity | contradiction].
  - rewrite IH. destruct (string_dec k0 key) as [E|Hn]; [contradiction|].
    destruct (in_dec string_dec key (map fst rest)); reflexivity.
Qed.

Lemma bump_NoDup (key : string) (o : list (string * Z)) :
  NoDup (map fst o) -> NoDup (map fst (bump key o)).
Proof.
  intros H. rewrite bump_keys.
  destruct (in_dec string_dec key (map fst o)) as [Hin|Hnin]; [exact H|].
  apply NoDup_app; [exact H | repeat constructor; intros [] | ].
  intros x Hx [<- | []]. contradiction.
Qed.

Lemma bump_positive (key : string) (o : list (string * Z)) :
  Forall (fun e => 1 <= snd e) o -> Forall (fun e => 1 <= snd e) (bump key o).
Proof.
  induction o as [|[k0 v] rest IH]; intros H; simpl.
  - repeat constructor. simpl. lia.
  - inversion H as [|? ? Hv Hrest]; subst. simpl in Hv.
    destruct (streq k0 key); constructor; simpl; try lia; auto.
Qed.

Lemma lookupCount_In (k : string) (c : Z) (o : list (string * Z)) :
  NoDup (map fst o) -> In (k, c) o -> lookupCount k o = c.
Proof.
  induction o as [|[k0 v] rest IH]; intros Hnd Hin; [contradiction|].
  simpl in *. inversion Hnd as [|? ? Hnotin Hnd']; subst.
  unfold streq. destruct Hin as [E | Hin].
  - injection E as -> ->. rewrite String.eqb_refl. reflexivity.
  - destruct (String.eqb_spec k0 k) as [->|Hne].
    + exfalso. apply Hnotin. apply in_map_iff. exists (k, c). split; [reflexivity | exact Hin].
    + apply IH; assumption.
Qed.

Lemma occurrences_snoc (arr : list string) (x k : string) :
  occurrences (arr ++ [x])%list k = occurrences arr k + (if streq x k then 1 else 0).
Proof.
  unfold occurrences, streq. rewrite count_occ_app. simpl.
  destruct (string_dec x k) as [->|Hne].
  - rewrite String.eqb_refl. lia.
  - destruct (String.eqb_spec x k); [contradiction | lia].
Qed.

(** What the counter built from an array holds: each string of the array
    once, in the order of first occurrence, with its number of
    occurrences. *)
Lemma countEntries_spec (arr : list string) :
  NoDup (map fst (countEntries arr)) /\
  Forall (fun e => 1 <= snd e) (countEntries arr) /\
  (forall k, lookupCount k (countEntries arr) = occurrences arr k) /\
  (forall k, In k (map fst (countEntries arr)) <-> In k arr).
Proof.
  unfold countEntries.
  induction arr as [|x arr IH] using rev_ind.
  - simpl. repeat split; try constructor; intros H; contradiction.
  - rewrite fold_left_app. simpl.
    destruct IH as (Hnd & Hpos & Hlook & Hkeys).
    split; [apply bump_NoDup, Hnd|]. split; [apply bump_positive, Hpos|]. split.
    + intros k. rewrite bump_lookup, Hlook, occurrences_snoc. reflexivity.
    + intros k. rewrite bump_keys, in_app_iff.
      destruct (in_dec string_dec x (map fst (fold_left _ arr []))) as [Hin|Hnin].
      * rewrite Hkeys. split; [auto|]. intros [H | [<- | []]]; [exact H|].
        apply Hkeys, Hin.
      * rewrite in_app_iff, Hkeys. reflexivity.
Qed.

Lemma countEntries_In (arr : list string) (k : string) (c : Z) :
  In (k, c) (countEntries arr) -> In k arr /\ c = occurrences arr k /\ 1 <= c.
Proof.
  intros Hin. destruct (countEntries_spec arr) as (Hnd & Hpos & Hlook & Hkeys).
  split; [|split].
  - apply Hkeys. apply in_map_iff. exists (k, c). split; [reflexivity | exact Hin].
  - rewrite <- Hlook. symmetry. apply lookupCount_In; assumption.
  - rewrite Forall_forall in Hpos. apply (Hpos (k, c) Hin).
Qed.

Lemma authorCountsOf_countEntries (readBooks : list Book) :
  authorCountsOf readBooks = countEntries (knownAuthors readBooks).
Proof.
  unfold authorCountsOf, countEntries, knownAuthors.
  generalize (@nil (string * Z)). induction readBooks as [|b bs IH]; intros acc.
  - reflexivity.
  - simpl. rewrite fold_left_app. rewrite IH.
    destruct (author b) as [a|]; [destruct (truthy a)|]; reflexivity.
Qed.

(** ** The most frequent entries of a counter *)

Lemma StronglySorted_firstn {A} (R : A -> A -> Prop) (l : list A) (n : nat) :
  StronglySorted R l -> StronglySorted R (firstn n l).
Proof.
  revert n. induction l as [|a l IH]; intros n Hs.
  - destruct n; constructor.
  - destruct n as [|n]; [constructor|].
    apply StronglySorted_inv in Hs. destruct Hs as [Hl Hall].
    simpl. constructor; [apply IH, Hl|].
    rewrite Forall_forall in Hall |- *. intros x Hx.
    apply Hall. apply (In_firstn_In l n x Hx).
Qed.

Lemma NoDup_firstn {A} (l : list A) (n : nat) : NoDup l -> NoDup (firstn n l).
Proof.
  intros H. rewrite <- (firstn_skipn n l) in H. apply NoDup_app_remove_r in H. exact H.
Qed.

Lemma topEntries_spec (arr : list string) (n : nat) :
  List.length (topEntries arr n)
    = Nat.min n (List.length (countEntries arr)) /\
  NoDup (map fst (topEntries arr n)) /\
  StronglySorted countDesc (topEntries arr n) /\
  (forall a c, In (a, c) (topEntries arr n) ->
     In a arr /\ c = occurrences arr a /\ 1 <= c) /\
  (forall a c a', In (a, c) (topEntries arr n) -> In a' arr ->
     ~ In a' (map fst (topEntries arr n)) -> occurrences arr a' <= c).
Proof.
  unfold topEntries.
  set (sorted := jsSort byCountDesc (countEntries arr)).
  pose proof (jsSort_perm byCountDesc (countEntries arr)) as Hperm. fold sorted in Hperm.
  pose proof (jsSort_counts_sorted (countEntries arr)) as Hs. fold sorted in Hs.
  destruct (countEntries_spec arr) as (Hnd & Hpos & Hlook & Hkeys).
  assert (Hnd' : NoDup (map fst sorted)).
  { apply (Permutation_NoDup (Permutation_map fst Hperm) Hnd). }
  assert (Hin : forall e, In e sorted <-> In e (countEntries arr)).
  { intros e. unfold sorted. apply jsSort_In. }
  split; [|split; [|split; [|split]]].
  - rewrite length_firstn. unfold sorted. rewrite jsSort_length. reflexivity.
  - rewrite <- firstn_map. apply NoDup_firstn, Hnd'.
  - apply StronglySorted_firstn, Hs.
  - intros a c Hac. apply In_firstn_In in Hac. apply Hin in Hac.
    apply countEntries_In, Hac.
  - intros a c a' Hac Ha' Hnot.
    assert (Hentry : In (a', occurrences arr a') sorted).
    { apply Hin. apply Hkeys in Ha'. apply in_map_iff in Ha'.
      destruct Ha' as ([k v] & Hk & Hkv). simpl in Hk. subst k.
      destruct (countEntries_In arr a' v Hkv) as (_ & -> & _). exact Hkv. }
    destruct (In_firstn_or_skipn sorted n _ Hentry) as [Hf | Hsk].
    + exfalso. apply Hnot. apply in_map_iff.
      exists (a', occurrences arr a'). split; [reflexivity | exact Hf].
    + apply (sorted_firstn_skipn countDesc sorted n Hs _ _ Hac Hsk).
Qed.

Lemma getTopAuthors_topEntries (arr : list string) (n : nat) :
  getTopAuthors arr n
  = map (fun e => {| tcAuthor := fst e; tcCount := snd e |}) (topEntries arr n).
Proof.
  unfold getTopAuthors, topEntries.
  destruct arr as [|x arr]; [destruct n; reflexivity|].
  cbn [List.length Nat.eqb].
  rewrite (jsSort_map _ byCountDesc); [|reflexivity].
  apply firstn_map.
Qed.

Lemma topAuthors_topEntries (books : list Book) :
  topAuthors (deriveBehaviourProfile books)
  = map fst (topEntries (knownAuthors (filter isRead books)) 5).
Proof.
  unfold deriveBehaviourProfile, topEntries.
  destruct (filter isRead books) as [|b bs] eqn:E; [reflexivity|].
  cbn [List.length Nat.eqb topAuthors].
  rewrite authorCountsOf_countEntries. reflexivity.
Qed.

(** X6.  For an array of names none of which is a name every object
    inherits or an array index, [getTopAuthors(arr, n)] lists at most [n]
    authors, each once, in descending order of count; the count of each is
    the number of times the author occurs in [arr], which is at least one;
    no author left out occurs more often than a listed one; and when [arr]
    has at most [n] distinct authors all of them are listed. *)
Theorem getTopAuthors_most_frequent :
  forall (arr : list string) (n : nat),
    Forall (fun a => plainKey a = true) arr ->
    let top := getTopAuthors arr n in
    (List.length top <= n)%nat /\
    NoDup (map tcAuthor top) /\
    StronglySorted (fun x y => tcCount y <= tcCount x) top /\
    (forall x, In x top ->
       In (tcAuthor x) arr /\ tcCount x = occurrences arr (tcAuthor x) /\ 1 <= tcCount x) /\
    (forall x a', In x top -> In a' arr -> ~ In a' (map tcAuthor top) ->
       occurrences arr a' <= tcCount x) /\
    ((List.length (countEntries arr) <= n)%nat ->
       forall a, In a arr -> In a (map tcAuthor top)).
Proof.
  intros arr n Hplain top. unfold top. rewrite getTopAuthors_topEntries.
  destruct (topEntries_spec arr n) as (Hlen & Hnd & Hs & Hmem & Hdom).
  set (f := fun e : string * Z => {| tcAuthor := fst e; tcCount := snd e |}).
  assert (Hkeys : map tcAuthor (map f (topEntries arr n)) = map fst (topEntries arr n)).
  { rewrite map_map. reflexivity. }
  rewrite Hkeys.
  split; [rewrite length_map, Hlen; lia|]. split; [exact Hnd|]. split.
  { clear - Hs. induction Hs as [|e l Hl IH Hall]; simpl; constructor; [exact IH|].
    rewrite Forall_forall in Hall |- *. intros y Hy. apply in_map_iff in Hy.
    destruct Hy as (e' & <- & He'). apply (Hall e' He'). }
  split.
  { intros x Hx. apply in_map_iff in Hx. destruct Hx as ([a c] & <- & Hac).
    apply (Hmem a c Hac). }
  split.
  { intros x a' Hx Ha' Hnot. apply in_map_iff in Hx. destruct Hx as ([a c] & <- & Hac).
    apply (Hdom a c a' Hac Ha' Hnot). }
  intros Hfew a Ha.
  unfold topEntries. rewrite firstn_all2 by (rewrite jsSort_length; exact Hfew).
  destruct (countEntries_spec arr) as (_ & _ & _ & Hk).
  apply Hk in Ha. apply in_map_iff in Ha. destruct Ha as (e & <- & He).
  apply in_map. apply jsSort_In. exact He.
Qed.

Lemma getTopAuthors_most_frequent_witness :
  Forall (fun a => plainKey a = true) ["Author A"; "Author B"; "Author A"] /\
  getTopAuthors ["Author A"; "Author B"; "Author A"] 1
  = [{| tcAuthor := "Author A"; tcCount := 2 |}] /\
  (forall x, In x (getTopAuthors ["Author A"; "Author B"; "Author A"] 1) ->
     tcCount x = occurrences ["Author A"; "Author B"; "Author A"] (tcAuthor x)).
Proof.
  assert (Hp : Forall (fun a => plainKey a = true) ["Author A"; "Author B"; "Author A"]).
  { repeat constructor. }
  destruct (getTopAuthors_most_frequent ["Author A"; "Author B"; "Author A"] 1 Hp)
    as (_ & _ & _ & Hcount & _).
  split; [exact Hp|]. split; [reflexivity|].
  intros x Hx. destruct (Hcount x Hx) as (_ & H & _). exact H.
Defined.

(** X7.  When no author of a read book bears a name every object inherits
    or an array index, the profile's [topAuthors] are at most five authors
    of read books, each once, in descending order of their number of read
    books; no other author of a read book has more read books than a listed
    one; and when the read books have at most five distinct authors every
    one of them is listed. *)
Theorem topAuthors_most_read :
  forall books : list Book,
    Forall (fun a => plainKey a = true) (knownAuthors (filter isRead books)) ->
    let authors := knownAuthors (filter isRead books) in
    let top := topAuthors (deriveBehaviourProfile books) in
    (List.length top <= 5)%nat /\
    NoDup top /\
    StronglySorted (fun a a' => occurrences authors a' <= occurrences authors a) top /\
    (forall a, In a top -> In a authors) /\
    (forall a a', In a top -> In a' authors -> ~ In a' top ->
       occurrences authors a' <= occurrences authors a) /\
    ((List.length (countEntries authors) <= 5)%nat ->
       forall a, In a authors -> In a top).
Proof.
  intros books Hplain authors top. unfold top. rewrite topAuthors_topEntries. fold authors.
  destruct (topEntries_spec authors 5) as (Hlen & Hnd & Hs & Hmem & Hdom).
  split; [rewrite length_map, Hlen; lia|]. split; [exact Hnd|]. split.
  { clear - Hs Hmem. induction Hs as [|e l Hl IH Hall]; simpl; constructor.
    - apply IH. intros a c Hac. apply Hmem. right. exact Hac.
    - rewrite Forall_forall in Hall |- *. intros y Hy. apply in_map_iff in Hy.
      destruct Hy as ([a' c'] & <- & He'). destruct e as [a c]. simpl.
      destruct (Hmem a c (or_introl eq_refl)) as (_ & <- & _).
      destruct (Hmem a' c' (or_intror He')) as (_ & <- & _).
      apply (Hall (a', c') He'). }
  split.
  { intros a Ha. apply in_map_iff in Ha. destruct Ha as ([a0 c] & <- & Hac).
    apply (Hmem a0 c Hac). }
  split.
  { intros a a' Ha Ha' Hnot. apply in_map_iff in Ha. destruct Ha as ([a0 c] & <- & Hac).
    simpl. destruct (Hmem a0 c Hac) as (_ & <- & _).
    apply (Hdom a0 c a' Hac Ha' Hnot). }
  intros Hfew a Ha.
  unfold topEntries. rewrite firstn_all2 by (rewrite jsSort_length; exact Hfew).
  destruct (countEntries_spec authors) as (_ & _ & _ & Hk).
  apply Hk in Ha. apply in_map_iff in Ha. destruct Ha as (e & <- & He).
  apply in_map. apply jsSort_In. exact He.
Qed.

Lemma topAuthors_most_read_witness :
  Forall (fun a => plainKey a = true) (knownAuthors (filter isRead testReadBooks)) /\
  topAuthors (deriveBehaviourProfile testReadBooks) = ["Author A"; "Author B"] /\
  NoDup (topAuthors (deriveBehaviourProfile testReadBooks)).
Proof.
  assert (Hp : Forall (fun a => plainKey a = true)
                      (knownAuthors (filter isRead testReadBooks))).
  { repeat constructor. }
  destruct (topAuthors_most_read testReadBooks Hp) as (_ & Hnd & _).
  split; [exact Hp|]. split; [reflexivity | exact Hnd].
Defined.

(** ** The most frequent value *)

Lemma occurrences_snoc_other (l : list string) (x y : string) :
  x <> y -> occurrences (l ++ [x])%list y = occurrences l y.
Proof.
  intros Hxy. rewrite occurrences_snoc. unfold streq.
  destruct (String.eqb_spec x y); [contradiction | lia].
Qed.

Lemma inherited_snoc (seen : list string) (x : string) :
  forallb inheritedName (seen ++ [x])%list = forallb inheritedName seen && inheritedName x.
Proof. rewrite forallb_app. cbn [forallb]. rewrite andb_true_r. reflexivity. Qed.

(** The state of the loop of [getMostFrequent] after the values [seen]:
    the counter of [seen], the greatest count of a value that is not an
    inherited name, and the value that was the first to reach it. *)
Lemma mostFrequent_loop (seen : list string) :
  exists maxCount maxValue,
    fold_left mostFrequentStep seen ([], 0, None)
      = (countEntries seen, maxCount, maxValue) /\
    (forall x, inheritedName x = false -> occurrences seen x <= maxCount) /\
    (forallb inheritedName seen = true -> maxCount = 0 /\ maxValue = None) /\
    (forallb inheritedName seen = false ->
       exists v before after,
         maxValue = Some v /\ inheritedName v = false /\
         seen = (before ++ v :: after)%list /\
         occurrences (before ++ [v])%list v = maxCount /\
         occurrences seen v = maxCount /\
         forall x, inheritedName x = false -> occurrences before x < maxCount).
Proof.
  induction seen as [|x seen IH] using rev_ind.
  - exists 0, None. split; [reflexivity|]. split; [intros x _; reflexivity|].
    split; [auto|]. intros H; discriminate H.
  - destruct IH as (m & mv & Hfold & Hmax & Hnone & Hsome).
    rewrite fold_left_app, Hfold. cbn [fold_left mostFrequentStep].
    assert (Hc : lookupCount x (bump x (countEntries seen)) = occurrences seen x + 1).
    { rewrite bump_lookup. destruct (countEntries_spec seen) as (_ & _ & Hl & _).
      rewrite Hl. unfold streq. rewrite String.eqb_refl. reflexivity. }
    assert (Hce : countEntries (seen ++ [x])%list = bump x (countEntries seen)).
    { unfold countEntries. rewrite fold_left_app. reflexivity. }
    rewrite Hc, Hce, inherited_snoc.
    destruct (inheritedName x) eqn:Hx; cbn [negb andb].
    + (* an inherited name: nothing but the counter changes *)
      exists m, mv. split; [reflexivity|]. split.
      { intros y Hy. rewrite occurrences_snoc_other; [apply Hmax, Hy|].
        intros ->. congruence. }
      rewrite andb_true_r. split; [exact Hnone|].
      intros Hf. destruct (Hsome Hf) as (v & before & after & -> & Hv & Hseen & Hreach & Hocc & Hfirst).
      exists v, before, (after ++ [x])%list. split; [reflexivity|]. split; [exact Hv|].
      split; [rewrite Hseen, <- app_assoc; reflexivity|].
      split; [exact Hreach|]. split; [|exact Hfirst].
      rewrite occurrences_snoc_other; [exact Hocc|]. intros ->. congruence.
    + rewrite andb_false_r.
      destruct (Z.ltb_spec m (occurrences seen x + 1)) as [Hlt | Hge].
      * assert (Hm : occurrences seen x = m) by (specialize (Hmax x Hx); lia).
        exists (occurrences seen x + 1), (Some x). split; [reflexivity|]. split.
        { intros y Hy. rewrite occurrences_snoc. specialize (Hmax y Hy).
          destruct (streq x y) eqn:E; [|lia].
          apply String.eqb_eq in E. subst y. lia. }
        split; [intros H; discriminate H|].
        intros _. exists x, seen, []. split; [reflexivity|]. split; [exact Hx|].
        split; [reflexivity|].
        assert (Hx1 : occurrences (seen ++ [x])%list x = occurrences seen x + 1).
        { rewrite occurrences_snoc. unfold streq. rewrite String.eqb_refl. reflexivity. }
        split; [exact Hx1|]. split; [exact Hx1|].
        intros y Hy. specialize (Hmax y Hy). lia.
      * exists m, mv. split; [reflexivity|]. split.
        { intros y Hy. rewrite occurrences_snoc. specialize (Hmax y Hy).
          destruct (streq x y) eqn:E; [|lia].
          apply String.eqb_eq in E. subst y. lia. }
        split; [intros H; discriminate H|].
        intros _.
        assert (Hf : forallb inheritedName seen = false).
        { destruct (forallb inheritedName seen) eqn:F; [|reflexivity].
          destruct (Hnone eq_refl) as [-> _].
          assert (0 <= occurrences seen x) by (unfold occurrences; lia). lia. }
        destruct (Hsome Hf) as (v & before & after & -> & Hv & Hseen & Hreach & Hocc & Hfirst).
        exists v, before, (after ++ [x])%list. split; [reflexivity|]. split; [exact Hv|].
        split; [rewrite Hseen, <- app_assoc; reflexivity|].
        split; [exact Hreach|]. split; [|exact Hfirst].
        rewrite occurrences_snoc. destruct (streq x v) eqn:E; [|lia].
        apply String.eqb_eq in E. subst v. lia.
Qed.

(** X8.  [getMostFrequent] returns [null] exactly when the array is empty
    or holds nothing but names every object inherits ([constructor],
    [toString], ...), which the counter object cannot count; otherwise it
    returns a value of the array, not such a name, that no other such value
    occurs more often than, and among the values with that greatest count
    the one that reaches it first as the array is read. *)
Theorem getMostFrequent_first_greatest :
  (forall arr : list string,
     (getMostFrequent arr = None <-> Forall (fun x => inheritedName x = true) arr) /\
     (forall v, getMostFrequent arr = Some v ->
        In v arr /\ inheritedName v = false /\
        (forall x, inheritedName x = false -> occurrences arr x <= occurrences arr v) /\
        exists before after,
          arr = (before ++ v :: after)%list /\
          occurrences (before ++ [v])%list v = occurrences arr v /\
          forall x, inheritedName x = false -> occurrences before x < occurrences arr v)) /\
  getMostFrequent ["constructor"] = None /\
  getMostFrequent ["b"; "toString"; "a"; "toString"; "a"; "b"] = Some "a".
Proof.
  split; [|split; reflexivity].
  intros arr.
  assert (Hget : getMostFrequent arr = snd (fold_left mostFrequentStep arr ([], 0, None))).
  { unfold getMostFrequent. destruct arr; reflexivity. }
  destruct (mostFrequent_loop arr) as (m & mv & Hfold & Hmax & Hnone & Hsome).
  split.
  - rewrite Hget, Hfold. cbn [snd].
    assert (F : Forall (fun x => inheritedName x = true) arr
                <-> forallb inheritedName arr = true).
    { rewrite forallb_forall, Forall_forall. reflexivity. }
    rewrite F.
    destruct (forallb inheritedName arr) eqn:E.
    + destruct (Hnone eq_refl) as [_ ->]. split; reflexivity.
    + destruct (Hsome eq_refl) as (v & _ & _ & -> & _). split; intros H; discriminate H.
  - rewrite Hget, Hfold. cbn [snd]. intros v ->.
    destruct (forallb inheritedName arr) eqn:E.
    + destruct (Hnone eq_refl) as [_ H]. discriminate H.
    + destruct (Hsome eq_refl) as (v' & before & after & Hv' & Hv & Harr & Hreach & Hocc & Hfirst).
      injection Hv' as <-.
      split; [rewrite Harr; apply in_or_app; right; left; reflexivity|].
      split; [exact Hv|]. rewrite Hocc. split; [exact Hmax|].
      exists before, after. split; [exact Harr|]. split; assumption.
Qed.

(** ** Average *)

Section Average64.
Local Open Scope Q_scope.

Lemma fold_fadd_comp (l : list Q) (a b : Q) :
  a == b -> fold_left Binary64.fadd l a == fold_left Binary64.fadd l b.
Proof.
  revert a b. induction l as [|y l IH]; intros a b E; [exact E|].
  cbn [fold_left]. apply IH. unfold Binary64.fadd. rewrite E. reflexivity.
Qed.

(** Sums of non-negative integers that stay below [2 ^ 53] are computed
    without rounding. *)
Lemma fold_fadd_integers (arr : list Z) (acc : Z) :
  (0 <= acc)%Z -> Forall (fun x => (0 <= x)%Z) arr ->
  (fold_left Z.add arr acc < 2 ^ 53)%Z ->
  fold_left Binary64.fadd (map inject_Z arr) (inject_Z acc)
  == inject_Z (fold_left Z.add arr acc).
Proof.
  revert acc. induction arr as [|x arr IH]; intros acc Hacc Hpos Hsum; [reflexivity|].
  apply Forall_cons_iff in Hpos. destruct Hpos as [Hx Hpos].
  cbn [map fold_left] in *.
  assert (Hmono : forall l a, Forall (fun x => (0 <= x)%Z) l -> (a <= fold_left Z.add l a)%Z).
  { clear. induction l as [|y l IH]; intros a Hl; [simpl; lia|].
    apply Forall_cons_iff in Hl. destruct Hl as [Hy Hl]. cbn [fold_left].
    specialize (IH (a + y)%Z Hl). lia. }
  pose proof (Hmono arr (acc + x)%Z Hpos) as Hle.
  assert (E : Binary64.fadd (inject_Z acc) (inject_Z x) = Binary64.round64 (inject_Z (acc + x))).
  { unfold Binary64.fadd. apply round64_comp. rewrite inject_Z_plus. reflexivity. }
  assert (F : Binary64.round64 (inject_Z (acc + x)) == inject_Z (acc + x)).
  { apply round64_Z. lia. }
  rewrite <- (IH (acc + x)%Z) by (assumption || lia).
  rewrite E. apply fold_fadd_comp, F.
Qed.

Lemma Zsum_bounds (arr : list Z) (lo hi : Z) :
  Forall (fun x => (lo <= x <= hi)%Z) arr ->
  (Z.of_nat (List.length arr) * lo <= Zsum arr <= Z.of_nat (List.length arr) * hi)%Z.
Proof.
  unfold Zsum.
  assert (G : forall acc,
    Forall (fun x => (lo <= x <= hi)%Z) arr ->
    (acc + Z.of_nat (List.length arr) * lo <= fold_left Z.add arr acc
     <= acc + Z.of_nat (List.length arr) * hi)%Z).
  { induction arr as [|x arr IH]; intros acc H; [simpl; lia|].
    apply Forall_cons_iff in H. destruct H as [Hx H].
    cbn [fold_left List.length]. specialize (IH (acc + x)%Z H). lia. }
  intros H. specialize (G 0%Z H). lia.
Qed.

End Average64.

(** X9.  [average] is 0 for the empty array.  For non-negative integers
    whose sum is below [2 ^ 53], as the page counts it averages are, no
    addition rounds: the result is the exact mean rounded once to binary64,
    and it lies between any two integer bounds of the numbers.  For numbers
    that are not integers each addition may round, and the result need not
    lie between them: the average of 3.7, 3.7 and 3.7 is
    3.7000000000000006. *)
Theorem average_between_bounds :
  Binary64.average [] = 0%Q /\
  (forall arr : list Z,
     arr <> [] -> Forall (fun x => 0 <= x) arr -> Zsum arr < 2 ^ 53 ->
     Binary64.average (map inject_Z arr)
     = Binary64.round64 (inject_Z (Zsum arr) / inject_Z (Z.of_nat (List.length arr))) /\
     forall lo hi,
       Forall (fun x => lo <= x <= hi) arr -> - 2 ^ 53 < lo -> hi < 2 ^ 53 ->
       (inject_Z lo <= Binary64.average (map inject_Z arr))%Q /\
       (Binary64.average (map inject_Z arr) <= inject_Z hi)%Q) /\
  Binary64.average [Binary64.double 3.7; Binary64.double 3.7; Binary64.double 3.7]
  = 8331659310635419 # 2251799813685248 /\
  (Binary64.double 3.7
   < Binary64.average [Binary64.double 3.7; Binary64.double 3.7; Binary64.double 3.7])%Q.
Proof.
  split; [reflexivity|]. split; [|split; vm_compute; reflexivity].
  intros arr Hne Hpos Hsum.
  assert (Hn : (0 < List.length arr)%nat) by (destruct arr; [contradiction | simpl; lia]).
  set (n := inject_Z (Z.of_nat (List.length arr))).
  assert (Pn : (0 < n)%Q) by (apply inject_nat_pos, Hn).
  assert (Havg : Binary64.average (map inject_Z arr)
                 = Binary64.round64 (inject_Z (Zsum arr) / n)).
  { unfold Binary64.average. rewrite length_map.
    destruct (Nat.eqb_spec (List.length arr) 0) as [E | _]; [lia|].
    unfold Binary64.fdiv. apply round64_comp. fold n.
    pose proof (fold_fadd_integers arr 0 ltac:(lia) Hpos Hsum) as F.
    change (inject_Z 0) with 0%Q in F. fold (Zsum arr) in F.
    unfold Qdiv. rewrite F. reflexivity. }
  split; [exact Havg|].
  intros lo hi Hb Hlo Hhi. rewrite Havg.
  pose proof (Zsum_bounds arr lo hi Hb) as [S1 S2].
  assert (L : (lo <= List.hd 0 arr <= hi)%Z).
  { destruct arr as [|x arr]; [contradiction|]. apply Forall_cons_iff in Hb. apply Hb. }
  split.
  - rewrite <- (round64_Z lo) by lia. apply round64_mono.
    apply Qle_shift_div_l; [exact Pn|]. unfold n.
    rewrite <- inject_Z_mult, <- Zle_Qle. lia.
  - rewrite <- (round64_Z hi) by lia. apply round64_mono.
    apply Qle_shift_div_r; [exact Pn|]. unfold n.
    rewrite <- inject_Z_mult, <- Zle_Qle. lia.
Qed.

Lemma average_between_bounds_witness :
  testPageCounts <> [] /\
  Forall (fun x => 0 <= x) testPageCounts /\
  Zsum testPageCounts < 2 ^ 53 /\
  Binary64.average (map inject_Z testPageCounts) = 5688140154361173 # 17592186044416 /\
  (inject_Z 300 <= Binary64.average (map inject_Z testPageCounts))%Q /\
  (Binary64.average (map inject_Z testPageCounts) <= inject_Z 350)%Q.
Proof.
  assert (Hne : testPageCounts <> []) by discriminate.
  assert (Hpos : Forall (fun x => 0 <= x) testPageCounts).
  { repeat constructor; discriminate. }
  assert (Hsum : Zsum testPageCounts < 2 ^ 53) by reflexivity.
  destruct average_between_bounds as (_ & General & _).
  destruct (General testPageCounts Hne Hpos Hsum) as [Havg Hb].
  destruct (Hb 300 350) as [Hlo Hhi]; [repeat constructor; discriminate | lia | lia |].
  split; [exact Hne|]. split; [exact Hpos|]. split; [exact Hsum|].
  split; [rewrite Havg; vm_compute; reflexivity|]. split; [exact Hlo | exact Hhi].
Defined.

(** ** Median *)

Lemma jsSort_ascending (l : list Q) :
  StronglySorted Qle (jsSort (fun a b => (a - b)%Q) l).
Proof.
  apply jsSort_sorted.
  - intros x y z. apply Qle_trans.
  - intros x y H. apply Qlt_bool_iff in H. lra.
  - intros x y H. apply Qlt_bool_false in H. lra.
Qed.

Lemma sorted_nth_le (s : list Q) (i j : nat) :
  StronglySorted Qle s -> (i <= j)%nat -> (j < List.length s)%nat ->
  (nth i s 0 <= nth j s 0)%Q.
Proof.
  revert i j. induction s as [|a s IH]; intros i j Hs Hij Hj; [simpl in Hj; lia|].
  apply StronglySorted_inv in Hs. destruct Hs as [Hs Hall].
  destruct j as [|j].
  - assert (i = 0)%nat by lia. subst i. apply Qle_refl.
  - destruct i as [|i].
    + simpl. rewrite Forall_forall in Hall. apply Hall. apply nth_In. simpl in Hj. lia.
    + simpl. apply IH; [exact Hs | lia | simpl in Hj; lia].
Qed.

Lemma filter_length_perm {A} (f : A -> bool) (l l' : list A) :
  Permutation l l' -> List.length (filter f l) = List.length (filter f l').
Proof.
  induction 1 as [|x l l' Hp IH|x y l|l l' l'' H1 IH1 H2 IH2]; simpl.
  - reflexivity.
  - destruct (f x); simpl; rewrite IH; reflexivity.
  - destruct (f x), (f y); reflexivity.
  - rewrite IH1. exact IH2.
Qed.

Lemma filter_all {A} (f : A -> bool) (l : list A) :
  (forall x, In x l -> f x = true) -> filter f l = l.
Proof.
  induction l as [|x l IH]; intros H; simpl; [reflexivity|].
  rewrite (H x (or_introl eq_refl)). f_equal. apply IH. intros y Hy. apply H. right. exact Hy.
Qed.

Lemma In_firstn_nth (s : list Q) (k : nat) (x : Q) :
  In x (firstn k s) -> exists i, (i < k)%nat /\ (i < List.length s)%nat /\ nth i s 0%Q = x.
Proof.
  revert k. induction s as [|a s IH]; intros k Hx.
  - destruct k; contradiction.
  - destruct k as [|k]; [contradiction|].
    simpl in Hx. destruct Hx as [<- | Hx].
    + exists 0%nat. simpl. repeat split; lia.
    + destruct (IH k Hx) as (i & Hi & Hl & Hn).
      exists (S i). simpl. repeat split; try lia. exact Hn.
Qed.

Lemma In_skipn_nth (s : list Q) (k : nat) (x : Q) :
  In x (skipn k s) -> exists i, (k <= i)%nat /\ (i < List.length s)%nat /\ nth i s 0%Q = x.
Proof.
  revert k. induction s as [|a s IH]; intros k Hx.
  - destruct k; contradiction.
  - destruct k as [|k].
    + apply In_nth with (d := 0%Q) in Hx. destruct Hx as (i & Hi & Hn).
      exists i. repeat split; [lia | exact Hi | exact Hn].
    + simpl in Hx. destruct (IH k Hx) as (i & Hi & Hl & Hn).
      exists (S i). simpl. repeat split; try lia. exact Hn.
Qed.

(** In an ascending array the first [i + 1] elements are at most the
    element of index [i], and those from index [i] on are at least it. *)
Lemma countAtMost_sorted (s : list Q) (i : nat) (v : Q) :
  StronglySorted Qle s -> (i < List.length s)%nat -> (nth i s 0 <= v)%Q ->
  (i + 1 <= countAtMost v s)%nat.
Proof.
  intros Hs Hi Hv. unfold countAtMost.
  rewrite <- (firstn_skipn (i + 1) s), filter_app, length_app.
  rewrite (filter_all _ (firstn (i + 1) s)).
  - rewrite length_firstn. lia.
  - intros x Hx. apply Qle_bool_iff.
    destruct (In_firstn_nth s (i + 1) x Hx) as (j & Hj & Hl & <-).
    apply Qle_trans with (nth i s 0%Q); [|exact Hv].
    apply sorted_nth_le; [exact Hs | lia | exact Hi].
Qed.

Lemma countAtLeast_sorted (s : list Q) (i : nat) (v : Q) :
  StronglySorted Qle s -> (i < List.length s)%nat -> (v <= nth i s 0)%Q ->
  (List.length s - i <= countAtLeast v s)%nat.
Proof.
  intros Hs Hi Hv. unfold countAtLeast.
  rewrite <- (firstn_skipn i s) at 2. rewrite filter_app, length_app.
  rewrite (filter_all _ (skipn i s)).
  - rewrite length_skipn. lia.
  - intros x Hx. apply Qle_bool_iff.
    destruct (In_skipn_nth s i x Hx) as (j & Hj & Hl & <-).
    apply Qle_trans with (nth i s 0%Q); [exact Hv|].
    apply sorted_nth_le; [exact Hs | lia | exact Hl].
Qed.

(** X11.  [median] is 0 for the empty array; for any other array at least
    half of its numbers are at most the median and at least half are at
    least the median, and the median lies between any two bounds of the
    numbers. *)
Theorem median_splits_in_halves :
  forall arr : list Q,
    (arr = [] -> median arr = 0%Q) /\
    (arr <> [] ->
       (List.length arr <= 2 * countAtMost (median arr) arr)%nat /\
       (List.length arr <= 2 * countAtLeast (median arr) arr)%nat /\
       forall lo hi,
         Forall (fun x => (lo <= x)%Q /\ (x <= hi)%Q) arr ->
         (lo <= median arr)%Q /\ (median arr <= hi)%Q).
Proof.
  intros arr. split; [intros ->; reflexivity|].
  intros Hne.
  set (s := jsSort (fun a b => (a - b)%Q) arr).
  pose proof (jsSort_ascending arr) as Hs. fold s in Hs.
  pose proof (jsSort_perm (fun a b => (a - b)%Q) arr) as Hperm. fold s in Hperm.
  pose proof (jsSort_length (fun a b => (a - b)%Q) arr) as Hlen. fold s in Hlen.
  assert (Hn : (0 < List.length s)%nat).
  { rewrite Hlen. destruct arr; [contradiction | simpl; lia]. }
  set (n := List.length s) in *.
  set (mid := Nat.div n 2).
  assert (Hmed : median arr
                 = if (Nat.modulo n 2 =? 0)%nat
                   then ((nth (mid - 1) s 0 + nth mid s 0) / 2)%Q
                   else nth mid s 0%Q).
  { unfold median. destruct arr; [contradiction|]. reflexivity. }
  assert (Hdiv : n = (2 * mid + Nat.modulo n 2)%nat) by (apply Nat.div_mod_eq).
  assert (Hmod : (Nat.modulo n 2 < 2)%nat) by (apply Nat.mod_upper_bound; lia).
  assert (Hcm : forall v, countAtMost v arr = countAtMost v s).
  { intros v. apply filter_length_perm, Hperm. }
  assert (Hcl : forall v, countAtLeast v arr = countAtLeast v s).
  { intros v. apply filter_length_perm, Hperm. }
  assert (Hnth : forall lo hi i,
             Forall (fun x => (lo <= x)%Q /\ (x <= hi)%Q) arr -> (i < n)%nat ->
             (lo <= nth i s 0)%Q /\ (nth i s 0 <= hi)%Q).
  { intros lo hi i Hall Hi. rewrite Forall_forall in Hall. apply Hall.
    apply (Permutation_in _ (Permutation_sym Hperm)). apply nth_In. exact Hi. }
  rewrite Hmed, Hcm, Hcl, <- Hlen. fold n.
  destruct (Nat.eqb_spec (Nat.modulo n 2) 0) as [Heven | Hodd].
  - assert (Hmid : (1 <= mid)%nat) by lia.
    assert (Hle : (nth (mid - 1) s 0 <= nth mid s 0)%Q).
    { apply sorted_nth_le; [exact Hs | lia | fold n; lia]. }
    set (a := nth (mid - 1) s 0%Q) in *. set (b := nth mid s 0%Q) in *.
    assert (Ha : (a <= (a + b) / 2)%Q).
    { apply Qle_shift_div_l; [reflexivity | lra]. }
    assert (Hb : ((a + b) / 2 <= b)%Q).
    { apply Qle_shift_div_r; [reflexivity | lra]. }
    split; [|split].
    + pose proof (countAtMost_sorted s (mid - 1) ((a + b) / 2)%Q Hs) as H.
      fold n in H. specialize (H ltac:(lia) Ha). lia.
    + pose proof (countAtLeast_sorted s mid ((a + b) / 2)%Q Hs) as H.
      fold n in H. specialize (H ltac:(lia) Hb). lia.
    + intros lo hi Hall.
      destruct (Hnth lo hi (mid - 1)%nat Hall ltac:(lia)) as [Hlo _].
      destruct (Hnth lo hi mid Hall ltac:(lia)) as [_ Hhi].
      fold a in Hlo. fold b in Hhi. split; lra.
  - split; [|split].
    + pose proof (countAtMost_sorted s mid (nth mid s 0%Q) Hs) as H.
      fold n in H. specialize (H ltac:(lia) (Qle_refl _)). lia.
    + pose proof (countAtLeast_sorted s mid (nth mid s 0%Q) Hs) as H.
      fold n in H. specialize (H ltac:(lia) (Qle_refl _)). lia.
    + intros lo hi Hall. apply (Hnth lo hi mid Hall). lia.
Qed.

(** ** The first element of a sorted array *)

Lemma jsSort_head {A} (cmp : A -> A -> Q) (x : A) (xs : list A) :
  hd_error (jsSort cmp (x :: xs))
  = match hd_error (jsSort cmp xs) with
    | None => Some x
    | Some t => if Qlt_bool 0 (cmp x t) then Some t else Some x
    end.
Proof.
  simpl. destruct (jsSort cmp xs) as [|t rest]; [reflexivity|].
  simpl. destruct (Qlt_bool 0 (cmp x t)); reflexivity.
Qed.

(** Sorting by descending key puts first the first element of greatest
    key. *)
Lemma jsSort_head_firstGreatest {A} (cmp : A -> A -> Q) (key : A -> Z) (l : list A) :
  (forall x t, Qlt_bool 0 (cmp x t) = (key x <? key t)) ->
  l <> [] ->
  exists top, hd_error (jsSort cmp l) = Some top /\ firstGreatestBy key l top.
Proof.
  intros Hcmp. induction l as [|x xs IH]; [intros H; contradiction|]. intros _.
  rewrite jsSort_head.
  destruct xs as [|y ys].
  - exists x. split; [reflexivity|]. exists [], []. repeat split; constructor.
  - destruct IH as (t & Ht & before & after & Hl & Hb & Ha); [discriminate|].
    rewrite Ht, Hcmp.
    destruct (Z.ltb_spec (key x) (key t)) as [Hlt | Hge].
    + exists t. split; [reflexivity|].
      exists (x :: before), after. split; [rewrite Hl; reflexivity|].
      split; [constructor; assumption | exact Ha].
    + exists x. split; [reflexivity|].
      exists [], (y :: ys). split; [reflexivity|]. split; [constructor|].
      rewrite Hl. apply Forall_app. split.
      * rewrite Forall_forall in Hb |- *. intros z Hz. specialize (Hb z Hz). lia.
      * constructor; [lia|].
        rewrite Forall_forall in Ha |- *. intros z Hz. specialize (Ha z Hz). lia.
Qed.

Lemma firstGreatestBy_filter {A} (key : A -> Z) (f : A -> bool) (l : list A) (x : A) (bound : Z) :
  (forall y, f y = false -> key y < bound) ->
  bound <= key x ->
  firstGreatestBy key (filter f l) x ->
  firstGreatestBy key l x /\ In x l /\ f x = true.
Proof.
  intros Hf Hx (before & after & Hl & Hb & Ha).
  assert (Hin : In x (filter f l)).
  { rewrite Hl. apply in_or_app. right. left. reflexivity. }
  apply filter_In in Hin. destruct Hin as [Hin Hfx].
  split; [|split; assumption].
  clear Hin. revert before Hl Hb.
  induction l as [|a l IH]; intros before Hl Hb.
  - destruct before; discriminate Hl.
  - simpl in Hl. destruct (f a) eqn:Efa.
    + destruct before as [|b0 before].
      * simpl in Hl. injection Hl as <- Hl.
        exists [], l. split; [reflexivity|]. split; [constructor|].
        apply Forall_forall. intros z Hz.
        destruct (f z) eqn:Efz.
        -- rewrite Forall_forall in Ha. apply Ha. rewrite <- Hl.
           apply filter_In. split; assumption.
        -- specialize (Hf z Efz). lia.
      * simpl in Hl. injection Hl as <- Hl.
        inversion Hb as [|? ? Hb0 Hb']; subst.
        destruct (IH before Hl Hb') as (before' & after' & Hl' & Hb'' & Ha').
        exists (a :: before'), after'. split; [rewrite Hl'; reflexivity|].
        split; [constructor; assumption | exact Ha'].
    + destruct (IH before Hl Hb) as (before' & after' & Hl' & Hb'' & Ha').
      exists (a :: before'), after'. split; [rewrite Hl'; reflexivity|].
      split; [constructor; [specialize (Hf a Efa); lia | assumption] | exact Ha'].
Qed.

Lemma filter_nil_iff {A} (f : A -> bool) (l : list A) :
  filter f l = [] <-> forall x, In x l -> f x = false.
Proof.
  split.
  - intros H x Hx. destruct (f x) eqn:E; [|reflexivity].
    assert (Hin : In x (filter f l)) by (apply filter_In; split; assumption).
    rewrite H in Hin. contradiction.
  - apply filter_none.
Qed.

(** X12.  [findLongestUnread] returns [null] exactly when no book has a
    known page count; otherwise it describes a book of the list with a
    known page count that no other book exceeds in pages, the first such
    book of the list, with 'Unknown' for a missing title or author. *)
Theorem findLongestUnread_first_longest :
  forall unreadBooks : list Book,
    (findLongestUnread unreadBooks = None
     <-> forall b, In b unreadBooks -> pages b <= 0) /\
    (forall info, findLongestUnread unreadBooks = Some info ->
       exists b,
         In b unreadBooks /\ 0 < pages b /\ info = pagesInfoOf b /\
         firstGreatestBy pages unreadBooks b /\
         forall b', In b' unreadBooks -> pages b' <= piPages info).
Proof.
  intros unreadBooks. unfold findLongestUnread. cbv zeta.
  set (known := filter (fun b => 0 <? pages b) unreadBooks).
  destruct known as [|k ks] eqn:Ek.
  - simpl. split.
    + split; [|reflexivity]. intros _ b Hb.
      pose proof (proj1 (filter_nil_iff _ _) Ek b Hb) as H. simpl in H.
      apply Z.ltb_ge in H. exact H.
    + intros info H. discriminate H.
  - cbn [List.length Nat.eqb].
    destruct (jsSort_head_firstGreatest (fun a b => inject_Z (pages b - pages a))
                pages (k :: ks)) as (top & Htop & Hfirst).
    { intros x t. rewrite Qlt_bool_inject.
      destruct (Z.ltb_spec 0 (pages t - pages x)), (Z.ltb_spec (pages x) (pages t));
        try reflexivity; lia. }
    { discriminate. }
    destruct (jsSort _ (k :: ks)) as [|longest rest]; [discriminate Htop|].
    simpl in Htop. injection Htop as ->.
    rewrite <- Ek in Hfirst. unfold known in Hfirst.
    assert (Hpos : 0 < pages top).
    { destruct Hfirst as (before & after & Hl & _).
      assert (Hin : In top (filter (fun b => 0 <? pages b) unreadBooks)).
      { rewrite Hl. apply in_or_app. right. left. reflexivity. }
      apply filter_In in Hin. destruct Hin as [_ H]. apply Z.ltb_lt in H. exact H. }
    destruct (firstGreatestBy_filter pages (fun b => 0 <? pages b) unreadBooks top 1)
      as (Hfirst' & Hin & _); [| lia | exact Hfirst |].
    { intros y Hy. apply Z.ltb_ge in Hy. lia. }
    split.
    + split; [intros H; discriminate H|].
      intros Hnone. specialize (Hnone top Hin). lia.
    + intros info Hinfo. injection Hinfo as <-.
      exists top. split; [exact Hin|]. split; [exact Hpos|]. split; [reflexivity|].
      split; [exact Hfirst'|].
      intros b' Hb'. simpl.
      destruct Hfirst' as (before & after & Hl & Hb & Ha).
      rewrite Hl in Hb'. apply in_app_or in Hb'.
      rewrite Forall_forall in Hb, Ha.
      destruct Hb' as [H | [<- | H]]; [specialize (Hb _ H); lia | lia | apply Ha, H].
Qed.

Lemma firstGreatestBy_In {A} (key : A -> Z) (l : list A) (x : A) :
  firstGreatestBy key l x -> In x l /\ forall y, In y l -> key y <= key x.
Proof.
  intros (before & after & Hl & Hb & Ha). split.
  - rewrite Hl. apply in_or_app. right. left. reflexivity.
  - intros y Hy. rewrite Hl in Hy. apply in_app_or in Hy.
    rewrite Forall_forall in Hb, Ha.
    destruct Hy as [H | [<- | H]]; [specialize (Hb _ H); lia | lia | apply Ha, H].
Qed.

(** X13.  [findShortestUnread] returns [null] exactly when no book has a
    known page count; otherwise it describes a book of the list with a
    known page count, the first of those with the fewest pages: no book
    with a known page count has fewer pages. *)
Theorem findShortestUnread_first_shortest :
  forall unreadBooks : list Book,
    (findShortestUnread unreadBooks = None
     <-> forall b, In b unreadBooks -> pages b <= 0) /\
    (forall info, findShortestUnread unreadBooks = Some info ->
       exists b,
         In b unreadBooks /\ 0 < pages b /\ info = pagesInfoOf b /\
         firstGreatestBy (fun b => - pages b) (booksWithPages unreadBooks) b /\
         forall b', In b' unreadBooks -> 0 < pages b' -> piPages info <= pages b').
Proof.
  intros unreadBooks. unfold findShortestUnread. cbv zeta.
  fold (booksWithPages unreadBooks).
  destruct (booksWithPages unreadBooks) as [|k ks] eqn:Ek.
  - simpl. split.
    + split; [|reflexivity]. intros _ b Hb.
      pose proof (proj1 (filter_nil_iff _ _) Ek b Hb) as H. simpl in H.
      apply Z.ltb_ge in H. exact H.
    + intros info H. discriminate H.
  - cbn [List.length Nat.eqb].
    destruct (jsSort_head_firstGreatest (fun a b => inject_Z (pages a - pages b))
                (fun b => - pages b) (k :: ks)) as (top & Htop & Hfirst).
    { intros x t. rewrite Qlt_bool_inject.
      destruct (Z.ltb_spec 0 (pages x - pages t)), (Z.ltb_spec (- pages x) (- pages t));
        try reflexivity; lia. }
    { discriminate. }
    destruct (jsSort _ (k :: ks)) as [|shortest rest]; [discriminate Htop|].
    simpl in Htop. injection Htop as ->.
    rewrite <- Ek in Hfirst.
    destruct (firstGreatestBy_In _ _ _ Hfirst) as [Hin Hmin].
    unfold booksWithPages in Hin. apply filter_In in Hin. destruct Hin as [Hin Hpos].
    apply Z.ltb_lt in Hpos.
    split.
    + split; [intros H; discriminate H|].
      intros Hnone. specialize (Hnone top Hin). lia.
    + intros info Hinfo. injection Hinfo as <-.
      exists top. split; [exact Hin|]. split; [exact Hpos|]. split; [reflexivity|].
      split; [rewrite <- Ek; exact Hfirst|].
      intros b' Hb' Hp'. simpl.
      assert (Hk : In b' (booksWithPages unreadBooks)).
      { apply filter_In. split; [exact Hb' | apply Z.ltb_lt, Hp']. }
      specialize (Hmin b' Hk). simpl in Hmin. lia.
Qed.

Lemma booksWithDates_In (parseDateSafe : string -> option Z) (unreadBooks : list Book)
    (b : Book) (t : Z) :
  In (b, t) (booksWithDates parseDateSafe unreadBooks)
  <-> In b unreadBooks /\ truthyO (dateAdded b) = true
      /\ parsedDate parseDateSafe b = Some t.
Proof.
  unfold booksWithDates. rewrite in_flat_map. split.
  - intros (b0 & Hb0 & Hin).
    destruct (truthyO (dateAdded b0)) eqn:Et; [|contradiction].
    destruct (parsedDate parseDateSafe b0) as [t0|] eqn:Ep; [|contradiction].
    destruct Hin as [E | []]. injection E as -> ->. auto.
  - intros (Hb & Ht & Hp). exists b. split; [exact Hb|].
    rewrite Ht, Hp. left. reflexivity.
Qed.

(** X14.  [findOldestUnread] returns [null] exactly when no book has a
    [dateAdded] that parses; otherwise it describes a book of the list whose
    [dateAdded] parses to the earliest timestamp of all, the first such
    book, with 'Unknown' for a missing title or author. *)
Theorem findOldestUnread_first_oldest :
  forall (parseDateSafe : string -> option Z) (unreadBooks : list Book),
    (findOldestUnread parseDateSafe unreadBooks = None
     <-> forall b, In b unreadBooks -> truthyO (dateAdded b) = true ->
                   parsedDate parseDateSafe b = None) /\
    (forall info, findOldestUnread parseDateSafe unreadBooks = Some info ->
       exists b t,
         In b unreadBooks /\ parsedDate parseDateSafe b = Some t /\
         info = {| diTitle := orUnknown (title b); diAuthor := orUnknown (author b);
                   diDateAdded := dateAdded b |} /\
         firstGreatestBy (fun e => - snd e) (booksWithDates parseDateSafe unreadBooks) (b, t) /\
         forall b' t', In b' unreadBooks -> truthyO (dateAdded b') = true ->
                       parsedDate parseDateSafe b' = Some t' -> t <= t').
Proof.
  intros parseDateSafe unreadBooks. unfold findOldestUnread. cbv zeta.
  fold (booksWithDates parseDateSafe unreadBooks).
  destruct (booksWithDates parseDateSafe unreadBooks) as [|k ks] eqn:Ek.
  - simpl. split.
    + split; [|reflexivity]. intros _ b Hb Ht.
      destruct (parsedDate parseDateSafe b) as [t|] eqn:Ep; [|reflexivity].
      assert (Hin : In (b, t) (booksWithDates parseDateSafe unreadBooks)).
      { apply booksWithDates_In. auto. }
      rewrite Ek in Hin. contradiction.
    + intros info H. discriminate H.
  - cbn [List.length Nat.eqb].
    destruct (jsSort_head_firstGreatest
                (fun a b : Book * Z => inject_Z (snd a - snd b))
                (fun e => - snd e) (k :: ks)) as (top & Htop & Hfirst).
    { intros x t. rewrite Qlt_bool_inject.
      destruct (Z.ltb_spec 0 (snd x - snd t)), (Z.ltb_spec (- snd x) (- snd t));
        try reflexivity; lia. }
    { discriminate. }
    destruct (jsSort _ (k :: ks)) as [|oldest rest]; [discriminate Htop|].
    simpl in Htop. injection Htop as ->.
    rewrite <- Ek in Hfirst.
    destruct (firstGreatestBy_In _ _ _ Hfirst) as [Hin Hmin].
    destruct top as [b t].
    apply booksWithDates_In in Hin. destruct Hin as (Hb & Ht & Hp).
    split.
    + split; [intros H; discriminate H|].
      intros Hnone. rewrite (Hnone b Hb Ht) in Hp. discriminate Hp.
    + intros info Hinfo. injection Hinfo as <-. simpl.
      exists b, t. split; [exact Hb|]. split; [exact Hp|]. split; [reflexivity|].
      split; [rewrite <- Ek; exact Hfirst|].
      intros b' t' Hb' Ht' Hp'.
      assert (Hk : In (b', t') (booksWithDates parseDateSafe unreadBooks)).
      { apply booksWithDates_In. auto. }
      specialize (Hmin (b', t') Hk). simpl in Hmin. lia.
Qed.

(** ** The top candidates *)

Lemma jsSort_scoreThenRating_sorted (l : list Scored) :
  StronglySorted scoreThenRatingDesc (jsSort byScoreThenRating l).
Proof.
  apply jsSort_sorted; unfold scoreThenRatingDesc, byScoreThenRating.
  - intros x y z [H1 | [E1 L1]] [H2 | [E2 L2]].
    + left. lra.
    + left. lra.
    + left. lra.
    + right. split; lra.
  - intros x y H.
    destruct (Qeq_bool (score y) (score x)) eqn:E; simpl in H; apply Qlt_bool_iff in H.
    + apply Qeq_bool_iff in E. right. split; lra.
    + left. lra.
  - intros x y H.
    destruct (Qeq_bool (score y) (score x)) eqn:E; simpl in H; apply Qlt_bool_false in H.
    + apply Qeq_bool_iff in E. right. split; lra.
    + apply Qeq_bool_neq in E. left.
      destruct (Qlt_le_dec (score y) (score x)) as [Hlt | Hle]; [exact Hlt|].
      exfalso. apply E. lra.
Qed.

(** X15.  [selectTopCandidates] returns [limit] candidates, or all of them
    when there are fewer, sorted by descending score and, among equal
    scores, by descending rating; together with the candidates it leaves
    out they are the candidates given, and none of those left out has a
    higher score than a selected one. *)
Theorem selectTopCandidates_best :
  forall (scored : list Scored) (limit : nat),
    let top := selectTopCandidates scored limit in
    List.length top = Nat.min limit (List.length scored) /\
    StronglySorted scoreThenRatingDesc top /\
    exists others,
      Permutation scored (top ++ others) /\
      forall x y, In x top -> In y others ->
        (score y <= score x)%Q /\ scoreThenRatingDesc x y.
Proof.
  intros scored limit top. unfold top, selectTopCandidates.
  pose proof (jsSort_scoreThenRating_sorted scored) as Hs.
  split; [rewrite length_firstn, jsSort_length; reflexivity|].
  split; [apply StronglySorted_firstn, Hs|].
  exists (skipn limit (jsSort byScoreThenRating scored)).
  split.
  - rewrite firstn_skipn. apply jsSort_perm.
  - intros x y Hx Hy.
    pose proof (sorted_firstn_skipn _ _ limit Hs x y Hx Hy) as H.
    split; [|exact H]. destruct H as [H | [H _]]; lra.
Qed.

(** ** Length and era distributions *)

Ltac counts_eq4 :=
  apply f_equal2; [apply f_equal; lia|];
  apply f_equal2; [apply f_equal; lia|];
  apply f_equal2; [apply f_equal; lia|];
  apply f_equal2; [apply f_equal; lia | reflexivity].

Lemma lengthDistribution_from (books : list Book) (s m l e : Z) :
  fold_left (fun buckets book =>
               if pages book <=? 0 then buckets
               else if pages book <? 300 then bump "short" buckets
               else if pages book <=? 500 then bump "medium" buckets
               else if pages book <=? 800 then bump "long" buckets
               else bump "epic" buckets)
            books [("short", s); ("medium", m); ("long", l); ("epic", e)]
  = [("short", s + countIf (inLengthCategory "short") books);
     ("medium", m + countIf (inLengthCategory "medium") books);
     ("long", l + countIf (inLengthCategory "long") books);
     ("epic", e + countIf (inLengthCategory "epic") books)].
Proof.
  revert s m l e. induction books as [|b bs IH]; intros s m l e.
  - simpl. unfold countIf; simpl. rewrite !Z.add_0_r. reflexivity.
  - rewrite !countIf_cons. simpl fold_left.
    specialize (IH (s + (if inLengthCategory "short" b then 1 else 0))
                   (m + (if inLengthCategory "medium" b then 1 else 0))
                   (l + (if inLengthCategory "long" b then 1 else 0))
                   (e + (if inLengthCategory "epic" b then 1 else 0))).
    rewrite !Z.add_assoc, <- IH. clear IH.
    unfold inLengthCategory, getLengthCategory.
    destruct (Z.leb_spec (pages b) 0) as [H0|H0];
      destruct (Z.ltb_spec 0 (pages b)) as [H1|H1]; try lia;
      destruct (Z.ltb_spec (pages b) 300) as [H2|H2];
      destruct (Z.leb_spec (pages b) 500) as [H3|H3];
      destruct (Z.leb_spec (pages b) 800) as [H4|H4]; try lia;
      simpl; f_equal; counts_eq4.
Qed.

Lemma countIf_split (f g h : Book -> bool) (l : list Book) :
  (forall b, (if f b then 1 else 0) = (if g b then 1 else 0) + (if h b then 1 else 0)) ->
  countIf f l = countIf g l + countIf h l.
Proof.
  intros H. induction l as [|b l IH].
  - reflexivity.
  - rewrite !countIf_cons, IH, H. lia.
Qed.

Lemma countIf_ext (f g : Book -> bool) (l : list Book) :
  (forall b, f b = g b) -> countIf f l = countIf g l.
Proof. intros H. unfold countIf. rewrite (filter_ext_all f g l H). reflexivity. Qed.

(** X16.  The backlog length distribution counts each book with a known
    page count once, in the category [getLengthCategory] gives it, and no
    book without one; its [short] and [medium] counts are the [quick] and
    [moderate] counts of the behaviour profile, and its [long] and [epic]
    counts add up to the profile's [long] count. *)
Theorem calculateBacklogLengthDistribution_counts :
  forall unreadBooks : list Book,
    calculateBacklogLengthDistribution unreadBooks
    = [("short", countIf (inLengthCategory "short") unreadBooks);
       ("medium", countIf (inLengthCategory "medium") unreadBooks);
       ("long", countIf (inLengthCategory "long") unreadBooks);
       ("epic", countIf (inLengthCategory "epic") unreadBooks)] /\
    countIf (inLengthCategory "short") unreadBooks
    + countIf (inLengthCategory "medium") unreadBooks
    + countIf (inLengthCategory "long") unreadBooks
    + countIf (inLengthCategory "epic") unreadBooks
    = countIf (fun b => 0 <? pages b) unreadBooks /\
    countIf (inLengthCategory "short") unreadBooks = countIf isQuick unreadBooks /\
    countIf (inLengthCategory "medium") unreadBooks = countIf isModerate unreadBooks /\
    countIf (inLengthCategory "long") unreadBooks
    + countIf (inLengthCategory "epic") unreadBooks
    = countIf isLong unreadBooks.
Proof.
  intros unreadBooks.
  assert (Hq : countIf (inLengthCategory "short") unreadBooks = countIf isQuick unreadBooks).
  { apply countIf_ext. intros b. unfold inLengthCategory, getLengthCategory, isQuick.
    destruct (Z.ltb_spec 0 (pages b)); destruct (Z.ltb_spec (pages b) 300);
      destruct (Z.leb_spec (pages b) 500); destruct (Z.leb_spec (pages b) 800);
      try lia; reflexivity. }
  assert (Hm : countIf (inLengthCategory "medium") unreadBooks
               = countIf isModerate unreadBooks).
  { apply countIf_ext. intros b. unfold inLengthCategory, getLengthCategory, isModerate.
    destruct (Z.ltb_spec 0 (pages b)); destruct (Z.ltb_spec (pages b) 300);
      destruct (Z.leb_spec (pages b) 500); destruct (Z.leb_spec (pages b) 800);
      destruct (Z.leb_spec 300 (pages b)); try lia; reflexivity. }
  assert (Hl : countIf (inLengthCategory "long") unreadBooks
               + countIf (inLengthCategory "epic") unreadBooks
               = countIf isLong unreadBooks).
  { symmetry. apply countIf_split. intros b.
    unfold inLengthCategory, getLengthCategory, isLong.
    destruct (Z.ltb_spec 0 (pages b)); destruct (Z.ltb_spec (pages b) 300);
      destruct (Z.leb_spec (pages b) 500); destruct (Z.leb_spec (pages b) 800);
      destruct (Z.ltb_spec 500 (pages b)); try lia; reflexivity. }
  split; [|split; [|split; [exact Hq | split; [exact Hm | exact Hl]]]].
  - unfold calculateBacklogLengthDistribution. rewrite lengthDistribution_from.
    reflexivity.
  - assert (H1 : countIf (fun b => 0 <? pages b) unreadBooks
                 = countIf (fun b => 300 <=? pages b) unreadBooks
                   + countIf isQuick unreadBooks).
    { apply countIf_split. intros b. unfold isQuick.
      destruct (Z.ltb_spec 0 (pages b)); destruct (Z.leb_spec 300 (pages b));
        destruct (Z.ltb_spec (pages b) 300); try lia; reflexivity. }
    assert (H2 : countIf (fun b => 300 <=? pages b) unreadBooks
                 = countIf isModerate unreadBooks + countIf isLong unreadBooks).
    { apply countIf_split. intros b. unfold isModerate, isLong.
      destruct (Z.leb_spec 300 (pages b)); destruct (Z.leb_spec (pages b) 500);
        destruct (Z.ltb_spec 500 (pages b)); try lia; reflexivity. }
    lia.
Qed.

Lemma fold_left_ext {A B} (f g : A -> B -> A) (l : list B) (a : A) :
  (forall x y, f x y = g x y) -> fold_left f l a = fold_left g l a.
Proof.
  intros H. revert a. induction l as [|y l IH]; intros a; simpl; [reflexivity|].
  rewrite H. apply IH.
Qed.

(** X17.  The backlog era distribution is the counter the behaviour
    profile builds for the same books: it counts each book with a known
    publication year once, as [classic] before 1950, [late20th] up to 1999
    and [modern] after, which is the category [getEraCategory] gives it, and
    no book without a known year. *)
Theorem calculateBacklogEraDistribution_counts :
  forall unreadBooks : list Book,
    calculateBacklogEraDistribution unreadBooks = eraCountsOf unreadBooks /\
    calculateBacklogEraDistribution unreadBooks
    = [("classic", countIf isClassic unreadBooks);
       ("late20th", countIf isLate20th unreadBooks);
       ("modern", countIf isModern unreadBooks)] /\
    countIf isClassic unreadBooks + countIf isLate20th unreadBooks
    + countIf isModern unreadBooks
    = countIf (fun b => 0 <? publicationYear b) unreadBooks /\
    (forall k b,
       0 < publicationYear b ->
       (getEraCategory (publicationYear b) = k <->
        (k = "classic" /\ isClassic b = true) \/
        (k = "late20th" /\ isLate20th b = true) \/
        (k = "modern" /\ isModern b = true))).
Proof.
  intros unreadBooks.
  assert (E : calculateBacklogEraDistribution unreadBooks = eraCountsOf unreadBooks).
  { unfold calculateBacklogEraDistribution, eraCountsOf. apply fold_left_ext.
    intros buckets b. unfold eraOf.
    destruct (Z.eqb_spec (publicationYear b) 0); destruct (Z.leb_spec (publicationYear b) 0);
      destruct (Z.ltb_spec 0 (publicationYear b)); try lia; try reflexivity.
    simpl. destruct (publicationYear b <? 1950); [reflexivity|].
    destruct (publicationYear b <=? 1999); reflexivity. }
  split; [exact E|]. split; [|split].
  - rewrite E. unfold eraCountsOf. rewrite eraCounts_from. reflexivity.
  - assert (H1 : countIf (fun b => 0 <? publicationYear b) unreadBooks
                 = countIf (fun b => 1950 <=? publicationYear b) unreadBooks
                   + countIf isClassic unreadBooks).
    { apply countIf_split. intros b. unfold isClassic.
      destruct (Z.ltb_spec 0 (publicationYear b));
        destruct (Z.leb_spec 1950 (publicationYear b));
        destruct (Z.ltb_spec (publicationYear b) 1950); try lia; reflexivity. }
    assert (H2 : countIf (fun b => 1950 <=? publicationYear b) unreadBooks
                 = countIf isLate20th unreadBooks + countIf isModern unreadBooks).
    { apply countIf_split. intros b. unfold isLate20th, isModern.
      destruct (Z.leb_spec 1950 (publicationYear b));
        destruct (Z.leb_spec (publicationYear b) 1999);
        destruct (Z.ltb_spec 1999 (publicationYear b)); try lia; reflexivity. }
    lia.
  - intros k b Hy. unfold getEraCategory, isClassic, isLate20th, isModern.
    destruct (Z.ltb_spec 0 (publicationYear b)); [|lia].
    destruct (Z.ltb_spec (publicationYear b) 1950);
      destruct (Z.leb_spec (publicationYear b) 1999);
      destruct (Z.leb_spec 1950 (publicationYear b));
      destruct (Z.ltb_spec 1999 (publicationYear b)); try lia; simpl;
      (split; [intros <-; auto | intros [[-> H'] | [[-> H'] | [-> H']]];
                                  try discriminate H'; reflexivity]).
Qed.

(** ** Local scoring *)


(** ** Read, unread and want-to-read books *)

Lemma prefix_cons_inv (a : Ascii.ascii) (s1 s2 : string) :
  String.prefix (String a s1) s2 = true ->
  exists s2', s2 = String a s2' /\ String.prefix s1 s2' = true.
Proof.
  destruct s2 as [|b s2']; simpl; [discriminate|].
  destruct (Ascii.ascii_dec a b) as [->|Hne]; [|discriminate].
  intros H. exists s2'. split; [reflexivity | exact H].
Qed.

Lemma includesStr_cons (c : Ascii.ascii) (hay needle : string) :
  includesStr hay needle = true -> includesStr (String c hay) needle = true.
Proof. intros H. cbn [includesStr]. rewrite H. apply orb_true_r. Qed.

Lemma includesStr_prefix (hay needle : string) :
  String.prefix needle hay = true -> includesStr hay needle = true.
Proof. intros H. destruct hay; cbn [includesStr]; rewrite H; reflexivity. Qed.

(** A string that includes "want-to-read" includes "to-read". *)
Lemma includes_want_to_read (hay : string) :
  includesStr hay "want-to-read" = true -> includesStr hay "to-read" = true.
Proof.
  induction hay as [|c hay IH].
  - simpl. discriminate.
  - intros H. cbn [includesStr] in H. apply orb_true_iff in H.
    destruct H as [H | H]; [|apply includesStr_cons, IH, H].
    apply prefix_cons_inv in H. destruct H as (s1 & E1 & H).
    apply prefix_cons_inv in H. destruct H as (s2 & -> & H).
    apply prefix_cons_inv in H. destruct H as (s3 & -> & H).
    apply prefix_cons_inv in H. destruct H as (s4 & -> & H).
    apply prefix_cons_inv in H. destruct H as (s5 & -> & H).
    rewrite E1. do 5 apply includesStr_cons. apply includesStr_prefix, H.
Qed.

Lemma filter_partition_perm {A} (f : A -> bool) (l : list A) :
  Permutation l (filter f l ++ filter (fun x => negb (f x)) l).
Proof.
  induction l as [|x l IH]; [constructor|].
  simpl. destruct (f x); simpl.
  - apply perm_skip, IH.
  - apply Permutation_cons_app, IH.
Qed.

(** X19.  [initAnalytics] splits the library in two: every book is either
    read or unread, by its [dateRead] alone; the want-to-read books are
    unread books, in their order, whose shelves, lower-cased, include
    "to-read" (the second test, for "want-to-read", never adds a book); and
    whatever the session, a book the funnel recommends is an unread book
    on such a shelf. *)
Theorem initAnalytics_backlog :
  forall (toLowerCase : string -> string) (books : list Book),
    Permutation books (readBooksOf books ++ unreadBooksOf books) /\
    (forall b, In b (readBooksOf books) -> ~ In b (unreadBooksOf books)) /\
    Subseq (wantToReadBooksOf toLowerCase books) (unreadBooksOf books) /\
    (forall b,
       onToReadShelf toLowerCase b
       = match shelves b with
         | Some sh => truthy sh && includesStr (toLowerCase sh) "to-read"
         | None => false
         end) /\
    (forall events dateMs now r rec,
       runRecommendation dateMs now r (run (initAnalyticsState toLowerCase books) events)
       = Some rec ->
       In (recBook rec) books /\
       dateRead (recBook rec) = None /\
       exists sh, shelves (recBook rec) = Some sh /\
                  includesStr (toLowerCase sh) "to-read" = true).
Proof.
  intros toLowerCase books.
  assert (Hshelf : forall b,
             onToReadShelf toLowerCase b
             = match shelves b with
               | Some sh => truthy sh && includesStr (toLowerCase sh) "to-read"
               | None => false
               end).
  { intros b. unfold onToReadShelf. destruct (shelves b) as [sh|]; [|reflexivity].
    destruct (truthy sh); [|reflexivity]. cbv zeta. simpl negb. cbv iota.
    destruct (includesStr (toLowerCase sh) "to-read") eqn:E1; [reflexivity|].
    destruct (includesStr (toLowerCase sh) "want-to-read") eqn:E2; [|reflexivity].
    apply includes_want_to_read in E2. rewrite E2 in E1. discriminate E1. }
  split; [|split; [|split; [|split; [exact Hshelf|]]]].
  - unfold readBooksOf, unreadBooksOf.
    rewrite (filter_ext_all (fun b => match dateRead b with None => true | Some _ => false end)
                            (fun b => negb (isRead b))).
    + apply filter_partition_perm.
    + intros b. unfold isRead. destruct (dateRead b); reflexivity.
  - intros b Hr Hu. unfold readBooksOf, unreadBooksOf in *.
    apply filter_In in Hr, Hu. destruct Hr as [_ Hr], Hu as [_ Hu].
    unfold isRead in Hr. destruct (dateRead b); discriminate.
  - apply Subseq_filter.
  - intros events dateMs now r rec Hrec.
    set (s := run (initAnalyticsState toLowerCase books) events) in *.
    assert (Hsub : Subseq (candidates s) (wantToReadBooksOf toLowerCase books)).
    { apply (run_candidates events (initAnalyticsState toLowerCase books)).
      apply Subseq_refl. }
    unfold runRecommendation in Hrec.
    destruct (List.length (candidates s) =? 0)%nat; [discriminate|].
    fold (scoredCandidates dateMs now s) in Hrec.
    destruct (selectWinner (scoredCandidates dateMs now s) r) as [w|] eqn:Hw;
      [|discriminate].
    injection Hrec as <-. simpl.
    apply selectWinner_In in Hw. unfold scoredCandidates in Hw.
    apply in_map_iff in Hw. destruct Hw as (b & <- & Hb). simpl.
    apply (Subseq_In _ _ _ Hsub) in Hb.
    unfold wantToReadBooksOf in Hb. apply filter_In in Hb. destruct Hb as [Hu Hon].
    unfold unreadBooksOf in Hu. apply filter_In in Hu. destruct Hu as [Hin Hd].
    split; [exact Hin|]. split; [destruct (dateRead b); [discriminate | reflexivity]|].
    rewrite Hshelf in Hon. destruct (shelves b) as [sh|]; [|discriminate].
    exists sh. split; [reflexivity|].
    apply andb_true_iff in Hon. apply Hon.
Qed.

(** ** The profile is empty or complete *)

(** X20.  The behaviour profile is all or nothing.  With no read book
    every field is empty, and then no book earns a behaviour bonus under
    any preference nor a bonus under [risky]; with at least one read book
    the dominant length is one of quick, moderate and long, the dominant era
    one of classic, late20th and modern, and there is an average rating; so
    the profile is empty exactly when there is no read book. *)
Theorem deriveBehaviourProfile_all_or_nothing :
  forall books : list Book,
    let p := deriveBehaviourProfile books in
    (filter isRead books = [] ->
       p = {| dominantLength := None; dominantEra := None; topAuthors := [];
              avgRating := None |} /\
       forall b preference,
         applyBehaviourScoring b p preference = 0%Q /\
         applyRiskScoring b "risky" (Some p) = 0%Q) /\
    (filter isRead books <> [] ->
       (dominantLength p = Some "quick" \/ dominantLength p = Some "moderate"
        \/ dominantLength p = Some "long") /\
       (dominantEra p = Some "classic" \/ dominantEra p = Some "late20th"
        \/ dominantEra p = Some "modern") /\
       exists avg, avgRating p = Some avg) /\
    (emptyProfile p <-> filter isRead books = []).
Proof.
  intros books p.
  assert (Hnone : filter isRead books = [] ->
            p = {| dominantLength := None; dominantEra := None; topAuthors := [];
                   avgRating := None |}).
  { intros E. unfold p, deriveBehaviourProfile. rewrite E. reflexivity. }
  assert (Hsome : filter isRead books <> [] ->
            (dominantLength p = Some "quick" \/ dominantLength p = Some "moderate"
             \/ dominantLength p = Some "long") /\
            (dominantEra p = Some "classic" \/ dominantEra p = Some "late20th"
             \/ dominantEra p = Some "modern") /\
            exists avg, avgRating p = Some avg).
  { intros Hne. unfold p, deriveBehaviourProfile.
    destruct (List.length (filter isRead books) =? 0)%nat eqn:E.
    { apply Nat.eqb_eq, length_zero_iff_nil in E. contradiction. }
    cbn [dominantLength dominantEra avgRating].
    unfold lengthCountsOf, eraCountsOf.
    rewrite lengthCounts_from, eraCounts_from, !topKey_three.
    split; [|split; [|eauto]].
    - destruct ((_ <=? _) && (_ <=? _)); [auto|]. destruct (_ <=? _); auto.
    - destruct ((_ <=? _) && (_ <=? _)); [auto|]. destruct (_ <=? _); auto. }
  split; [|split; [exact Hsome|]].
  - intros E. split; [apply Hnone, E|].
    intros b preference. rewrite (Hnone E). split; reflexivity.
  - split.
    + intros [HL HE].
      destruct (filter isRead books) as [|b bs] eqn:E; [reflexivity|].
      destruct Hsome as (HLs & _); [discriminate|].
      destruct HLs as [H | [H | H]]; rewrite H in HL; discriminate HL.
    + intros E. rewrite (Hnone E). split; reflexivity.
Qed.

(** ** Enrichment: the ISBN sent to the service *)

Lemma cleanIsbn_allChars (s : string) : allChars isIsbnChar (cleanIsbn s) = true.
Proof.
  induction s as [|c s IH]; [reflexivity|].
  simpl. destruct (isIsbnChar c) eqn:E; [|exact IH]. simpl. rewrite E, IH. reflexivity.
Qed.

Lemma cleanIsbn_fixed (s : string) : allChars isIsbnChar s = true -> cleanIsbn s = s.
Proof.
  induction s as [|c s IH]; [reflexivity|].
  simpl. intros H. apply andb_true_iff in H. destruct H as [Hc Hs].
  rewrite Hc, (IH Hs). reflexivity.
Qed.

(** X21.  The ISBN put in the request and in the cover address consists of
    digits and the letter X only, whatever the stored ISBN holds; cleaning
    leaves an ISBN of such characters as it is, so cleaning twice is
    cleaning once, and it never makes the ISBN longer. *)
Theorem cleanIsbn_only_isbn_characters :
  forall isbn : string,
    allChars isIsbnChar (cleanIsbn isbn) = true /\
    (allChars isIsbnChar isbn = true -> cleanIsbn isbn = isbn) /\
    cleanIsbn (cleanIsbn isbn) = cleanIsbn isbn /\
    (String.length (cleanIsbn isbn) <= String.length isbn)%nat.
Proof.
  intros isbn. split; [apply cleanIsbn_allChars|]. split; [apply cleanIsbn_fixed|].
  split; [apply cleanIsbn_fixed, cleanIsbn_allChars|].
  induction isbn as [|c s IH]; [simpl; lia|].
  simpl. destruct (isIsbnChar c); simpl; lia.
Qed.

(** ** Enrichment: batches *)

Lemma batchLoop_concat {A} (l : list A) (fuel i : nat) :
  (List.length l <= i + fuel)%nat ->
  List.concat (batchLoop fuel i l) = skipn i l /\
  Forall (fun b => (1 <= List.length b <= 3)%nat) (batchLoop fuel i l).
Proof.
  revert i. induction fuel as [|fuel IH]; intros i Hfuel.
  - simpl. split; [|constructor].
    symmetry. apply skipn_all2. lia.
  - cbn [batchLoop]. destruct (Nat.ltb_spec i (List.length l)) as [Hlt | Hge].
    + destruct (IH (i + 3)%nat) as [Hc Hf]; [lia|].
      split.
      * cbn [List.concat]. rewrite Hc.
        replace (i + 3)%nat with (3 + i)%nat by lia.
        rewrite <- (skipn_skipn 3 i l). apply firstn_skipn.
      * constructor; [|exact Hf].
        rewrite length_firstn, length_skipn. lia.
    + split; [|constructor]. symmetry. apply skipn_all2. lia.
Qed.

Lemma batchLoop_full {A} (l : list A) (fuel i : nat) (b : list A) (rest : list (list A)) :
  batchLoop fuel i l = b :: rest -> rest <> [] -> List.length b = 3%nat.
Proof.
  destruct fuel as [|fuel]; [discriminate|].
  cbn [batchLoop]. destruct (Nat.ltb_spec i (List.length l)) as [Hlt | Hge]; [|discriminate].
  intros E Hrest. injection E as Hb Hr. subst b rest.
  destruct fuel as [|fuel]; [contradiction|].
  cbn [batchLoop] in Hrest.
  destruct (Nat.ltb_spec (i + 3) (List.length l)); [|contradiction].
  change (List.length (firstn 3 (skipn i l)) = 3%nat).
  rewrite length_firstn, length_skipn. lia.
Qed.

(** Every batch but the last one is full. *)
Lemma batchLoop_all_full {A} (l : list A) (fuel i : nat)
    (pre : list (list A)) (b : list A) (post : list (list A)) :
  batchLoop fuel i l = (pre ++ b :: post)%list -> post <> [] -> List.length b = 3%nat.
Proof.
  revert i pre. induction fuel as [|fuel IH]; intros i pre E Hpost.
  - destruct pre; discriminate E.
  - destruct pre as [|p pre].
    + apply (batchLoop_full l (S fuel) i b post E Hpost).
    + cbn [batchLoop] in E.
      destruct (i <? List.length l)%nat; [|discriminate E].
      injection E as _ E. apply (IH _ _ E Hpost).
Qed.

Lemma updateAt_length {A} (i : nat) (f : A -> A) (l : list A) :
  List.length (updateAt i f l) = List.length l.
Proof.
  revert i. induction l as [|x l IH]; intros i; [destruct i; reflexivity|].
  destruct i; simpl; [reflexivity|]. rewrite IH. reflexivity.
Qed.

Lemma updateAt_nth {A} (i j : nat) (f : A -> A) (l : list A) :
  nth_error (updateAt i f l) j
  = if (i =? j)%nat then option_map f (nth_error l j) else nth_error l j.
Proof.
  revert i j. induction l as [|x l IH]; intros i j.
  - destruct i, j; simpl; try reflexivity. destruct (i =? j)%nat; reflexivity.
  - destruct i as [|i], j as [|j]; simpl; try reflexivity. apply IH.
Qed.

(** Updating the positions of a list without repetition changes each of
    them once and nothing else. *)
Lemma updateAll_nth {A} (f : A -> A) (todo : list nat) (l : list A) (j : nat) :
  NoDup todo ->
  nth_error (fold_left (fun st i => updateAt i f st) todo l) j
  = if in_dec Nat.eq_dec j todo then option_map f (nth_error l j) else nth_error l j.
Proof.
  revert l. induction todo as [|i todo IH]; intros l Hnd; [reflexivity|].
  inversion Hnd as [|? ? Hnotin Hnd']; subst.
  simpl fold_left. rewrite (IH _ Hnd'). rewrite updateAt_nth.
  destruct (Nat.eqb_spec i j) as [->|Hne].
  - destruct (in_dec Nat.eq_dec j todo) as [Hin|_]; [contradiction|].
    destruct (in_dec Nat.eq_dec j (j :: todo)) as [_|Hn]; [reflexivity|].
    exfalso. apply Hn. left. reflexivity.
  - destruct (in_dec Nat.eq_dec j todo) as [Hin|Hnin];
      destruct (in_dec Nat.eq_dec j (i :: todo)) as [Hin'|Hnin']; try reflexivity.
    + exfalso. apply Hnin'. right. exact Hin.
    + destruct Hin' as [E | Hin']; [congruence | contradiction].
Qed.

Lemma fold_left_concat {A B} (f : A -> B -> A) (ls : list (list B)) (a : A) :
  fold_left (fun st l => fold_left f l st) ls a = fold_left f (List.concat ls) a.
Proof.
  revert a. induction ls as [|l ls IH]; intros a; [reflexivity|].
  simpl. rewrite fold_left_app. apply IH.
Qed.

Lemma booksToEnrich_spec (store : list Candidate) (limit : nat) :
  NoDup (booksToEnrich store limit) /\
  (List.length (booksToEnrich store limit) <= limit)%nat /\
  forall i, In i (booksToEnrich store limit) ->
            exists c, nth_error store i = Some c /\ needsEnrichment c = true.
Proof.
  unfold booksToEnrich. split; [|split].
  - apply NoDup_firstn. apply NoDup_filter. apply seq_NoDup.
  - rewrite length_firstn. lia.
  - intros i Hi. apply In_firstn_In in Hi. apply filter_In in Hi.
    destruct Hi as [_ Hi]. destruct (nth_error store i) as [c|]; [|discriminate].
    exists c. split; [reflexivity | exact Hi].
Qed.

(** X22.  [enrichCandidates] works through the first [limit] books that
    have an ISBN and no enrichment, in batches of three, of which only the
    last one may be smaller, and each such book in exactly one batch.  Afterwards
    each of these books has an enrichment, the one looked up or the empty
    one when the lookup failed, and every other book is as it was: the
    array keeps its length, no book's data changes, and an enrichment that
    was there is never replaced. *)
Theorem enrichCandidates_batches :
  forall (lookup : string -> option Enrichment) (limit : nat) (store : list Candidate),
    let todo := booksToEnrich store limit in
    let after := enrichCandidates lookup limit store in
    List.concat (batches todo) = todo /\
    Forall (fun b => (1 <= List.length b <= 3)%nat) (batches todo) /\
    (forall pre b post, batches todo = (pre ++ b :: post)%list -> post <> [] ->
       List.length b = 3%nat) /\
    NoDup todo /\ (List.length todo <= limit)%nat /\
    List.length after = List.length store /\
    (forall i c, nth_error store i = Some c ->
       exists c', nth_error after i = Some c' /\
         cBook c' = cBook c /\
         (In i todo ->
            needsEnrichment c = true /\ c' = enrichBook lookup c /\
            exists e, enrichment c' = Some e /\
                      (forall i0, isbn (cBook c) = Some i0 ->
                                  lookup (cleanIsbn i0) = None -> e = emptyEnrichment)) /\
         (~ In i todo -> c' = c) /\
         (forall e, enrichment c = Some e -> c' = c)).
Proof.
  intros lookup limit store todo after.
  destruct (booksToEnrich_spec store limit) as (Hnd & Hlen & Hneeds). fold todo in Hnd, Hlen, Hneeds.
  destruct (batchLoop_concat todo (List.length todo) 0) as [Hc Hf]; [lia|].
  simpl skipn in Hc. fold (batches todo) in Hc, Hf.
  assert (Hafter : after = fold_left (fun st i => updateAt i (enrichBook lookup) st) todo store).
  { unfold after, enrichCandidates. fold todo. rewrite fold_left_concat, Hc. reflexivity. }
  split; [exact Hc|]. split; [exact Hf|]. split.
  { intros pre b post E Hpost. unfold batches in E.
    apply (batchLoop_all_full _ _ _ _ _ _ E Hpost). }
  split; [exact Hnd|]. split; [exact Hlen|]. split.
  { rewrite Hafter. clear. generalize store. induction todo as [|i todo IH]; intros st.
    - reflexivity.
    - simpl. rewrite IH. apply updateAt_length. }
  intros i c Hc0.
  assert (Hn : nth_error after i
               = if in_dec Nat.eq_dec i todo then Some (enrichBook lookup c) else Some c).
  { rewrite Hafter, (updateAll_nth _ _ _ _ Hnd), Hc0.
    destruct (in_dec Nat.eq_dec i todo); reflexivity. }
  destruct (in_dec Nat.eq_dec i todo) as [Hin | Hnin].
  - destruct (Hneeds i Hin) as (c0 & Hc0' & Hneed).
    rewrite Hc0 in Hc0'. injection Hc0' as <-.
    exists (enrichBook lookup c). split; [exact Hn|].
    unfold needsEnrichment in Hneed. apply andb_true_iff in Hneed.
    destruct Hneed as [Hisbn Henr].
    unfold enrichBook.
    destruct (enrichment c) as [e0|] eqn:Ee; [discriminate Henr|].
    destruct (isbn (cBook c)) as [i0|] eqn:Ei; [|discriminate Hisbn].
    split; [reflexivity|]. split.
    + intros _. split.
      * unfold needsEnrichment. rewrite Ee, Ei. rewrite Hisbn. reflexivity.
      * split; [reflexivity|]. eexists. split; [reflexivity|].
        intros i1 E1 Hfail. injection E1 as <-. rewrite Hfail. reflexivity.
    + split; [intros Hn'; contradiction | intros e He; discriminate He].
  - exists c. split; [exact Hn|]. split; [reflexivity|]. split; [intros H; contradiction|].
    split; reflexivity.
Qed.

(** ** The funnel: a forward traversal *)

Lemma dispatch_once (s : DecisionState) (e : Event) : dispatch 1 s e = handle s e.
Proof. destruct e; reflexivity. Qed.

Lemma runOn_once (s : DecisionState) (events : list Event) : runOn 1 s events = run s events.
Proof.
  unfold runOn, run. revert s. induction events as [|e events IH]; intros s; [reflexivity|].
  cbn [fold_left]. rewrite dispatch_once. apply IH.
Qed.

(** X23.  On a page whose data was loaded once, four clicks from the
    initialised funnel, one per step, whose first one leaves at least one
    candidate, lead to Step 4 with the four values recorded as the
    selections of their steps and the backlog filtered once, by the first
    value, as candidates; the first click advances to Step 2 and the last
    one renders the recommendation.  On a page whose data was loaded a
    second time every step button has two listeners: the first click then
    runs the handler twice and leaves the funnel at Step 3, with no
    Step-2 selection. *)
Theorem forward_traversal :
  forall (books wantToReadBooks : list Book) (v1 v2 v3 v4 : string),
    applyTimeFilter wantToReadBooks v1 <> [] ->
    let s0 := initDecisionEngine books wantToReadBooks in
    let s := runOn 1 s0 (fourClicks v1 v2 v3 v4) in
    let s' := runOn 2 s0 [StepClick "timeInvestment" v1] in
    reachable s0 s /\
    currentStep s = 4 /\
    selections s = mkSelections v1 v2 v3 v4 /\
    candidates s = applyTimeFilter wantToReadBooks v1 /\
    allBooks s = wantToReadBooks /\
    currentStep (runOn 1 s0 [StepClick "timeInvestment" v1]) = 2 /\
    snd (stepButtonClick s0 "timeInvestment" v1) = Advanced 2 /\
    snd (stepButtonClick (runOn 1 s0 (firstn 3 (fourClicks v1 v2 v3 v4)))
                         "riskPreference" v4)
    = Recommended /\
    currentStep s' = 3 /\
    selections s' = mkSelections v1 "" "" "" /\
    candidates s' = applyTimeFilter wantToReadBooks v1.
Proof.
  intros books wantToReadBooks v1 v2 v3 v4 Hne s0 s s'.
  assert (Hlen : (List.length (applyTimeFilter wantToReadBooks v1) =? 0)%nat = false).
  { destruct (applyTimeFilter wantToReadBooks v1); [contradiction | reflexivity]. }
  assert (H1 : stepButtonClick s0 "timeInvestment" v1
               = (mkState 2 (mkSelections v1 "" "" "")
                          (applyTimeFilter wantToReadBooks v1) wantToReadBooks
                          (Some (deriveBehaviourProfile books)), Advanced 2)).
  { unfold stepButtonClick, s0. simpl. rewrite Hlen. reflexivity. }
  assert (Hs : s = mkState 4 (mkSelections v1 v2 v3 v4)
                           (applyTimeFilter wantToReadBooks v1) wantToReadBooks
                           (Some (deriveBehaviourProfile books))).
  { unfold s. rewrite runOn_once. unfold run, fourClicks. cbn [fold_left handle].
    rewrite H1. reflexivity. }
  assert (Hs' : s' = mkState 3 (mkSelections v1 "" "" "")
                             (applyTimeFilter wantToReadBooks v1) wantToReadBooks
                             (Some (deriveBehaviourProfile books))).
  { unfold s', runOn, dispatch. cbn [fold_left Nat.iter nat_rect handle].
    rewrite H1. reflexivity. }
  split.
  { unfold s. rewrite runOn_once. unfold run, fourClicks. cbn [fold_left].
    apply reach_event; [apply reach_event; [apply reach_event;
      [apply reach_event; [apply reach_start|]|]|]|];
      cbn [handle offered]; rewrite ?H1; simpl; (split; [lia | reflexivity]). }
  rewrite Hs, Hs'. split; [reflexivity|]. split; [reflexivity|]. split; [reflexivity|].
  split; [reflexivity|].
  split; [rewrite runOn_once; unfold run; cbn [fold_left handle]; rewrite H1; reflexivity|].
  split; [rewrite H1; reflexivity|].
  split; [|split; [reflexivity | split; reflexivity]].
  rewrite runOn_once. unfold run, fourClicks. cbn [firstn fold_left handle].
  rewrite H1. reflexivity.
Qed.

Lemma forward_traversal_witness :
  applyTimeFilter threeBookBacklog "quick" <> [] /\
  currentStep (runOn 1 (initDecisionEngine [] threeBookBacklog)
                     (fourClicks "quick" "familiar" "old" "safe")) = 4 /\
  candidates (runOn 1 (initDecisionEngine [] threeBookBacklog)
                    (fourClicks "quick" "familiar" "old" "safe"))
  = applyTimeFilter threeBookBacklog "quick" /\
  currentStep (runOn 2 (initDecisionEngine [] threeBookBacklog)
                     [StepClick "timeInvestment" "quick"]) = 3.
Proof.
  assert (Hne : applyTimeFilter threeBookBacklog "quick" <> []) by discriminate.
  split; [exact Hne|].
  destruct (forward_traversal [] threeBookBacklog "quick" "familiar" "old" "safe" Hne)
    as (_ & H4 & _ & Hc & _ & _ & _ & _ & H3 & _).
  split; [exact H4|]. split; [exact Hc | exact H3].
Defined.
